(** * VIP frame filters ([vip/var/filters.py]) in Rocq

    A shallow embedding of the filtering module of VIP: the centred Fourier
    transform helpers [fft] / [ifft], the high-pass dispatcher
    [frame_filter_highpass], the Gaussian filter [frame_filter_gaussian2d],
    the wavelet denoiser [wavelet_denoise] and the kernel generator
    [gaussian_kernel].

    Python objects live in a store; every function of the module is a
    computation over that store which may raise a Python exception and which
    records the numeric-library entry points it calls.  Floating point numbers
    are idealised as real numbers. *)

From Stdlib Require Import String Reals Lra Lia ZArith Bool Arith.
From Stdlib Require Import List Permutation Sorted.
Import ListNotations.

Open Scope R_scope.

(* ================================================================== *)
(** * Part I: the data model *)
(* ================================================================== *)

(** ** Python exceptions and results *)

Inductive exn : Type :=
| TypeError (msg : string)
| ValueError (msg : string)
| RuntimeError (msg : string)
| UnboundLocalError (name : string)
| Unmodelled (what : string).

Inductive result (A : Type) : Type :=
| Ok (a : A)
| Raise (e : exn).

Arguments Ok {A} a.
Arguments Raise {A} e.

Definition rbind {A B} (r : result A) (k : A -> result B) : result B :=
  match r with
  | Ok a => k a
  | Raise e => Raise e
  end.

(** ** Complex numbers, as pairs of reals *)

Definition C : Type := (R * R)%type.

Definition C0 : C := (0, 0).
Definition C1 : C := (1, 0).
Definition RtoC (x : R) : C := (x, 0).
Definition Cadd (a b : C) : C := (fst a + fst b, snd a + snd b).
Definition Cmul (a b : C) : C :=
  (fst a * fst b - snd a * snd b, fst a * snd b + snd a * fst b).
Definition Cscale (r : R) (a : C) : C := (r * fst a, r * snd a).
Definition Cmod (a : C) : R := sqrt (fst a * fst a + snd a * snd a).

(** [cis t] is [exp (i t)]. *)
Definition cis (t : R) : C := (cos t, sin t).

(** Finite sums [f 0 + ... + f (n-1)]. *)
Fixpoint Csum (n : nat) (f : nat -> C) : C :=
  match n with
  | O => C0
  | S k => Cadd (Csum k f) (f k)
  end.

(** ** numpy arrays: a shape and a row-major buffer *)

Record ndarray (A : Type) : Type := mk_ndarray {
  shape : list nat;
  data : list A
}.

Arguments mk_ndarray {A} shape data.
Arguments shape {A} n.
Arguments data {A} n.

Definition ndim {A} (a : ndarray A) : nat := length (shape a).

Definition numel (s : list nat) : nat := fold_right Nat.mul 1%nat s.

Definition well_formed {A} (a : ndarray A) : Prop :=
  length (data a) = numel (shape a).

Definition nrows {A} (a : ndarray A) : nat := nth 0 (shape a) 0%nat.
Definition ncols {A} (a : ndarray A) : nat := nth 1 (shape a) 0%nat.

(** The buffer of an [r] x [c] array whose entry [(i, j)] is [f i j]. *)
Definition tab_data {A} (r c : nat) (f : nat -> nat -> A) : list A :=
  flat_map (fun i => map (f i) (seq 0 c)) (seq 0 r).

Definition tabulate2 {A} (r c : nat) (f : nat -> nat -> A) : ndarray A :=
  mk_ndarray [r; c] (tab_data r c f).

(** Entry [(i, j)] of a 2-D array ([d] is returned out of range). *)
Definition get2 {A} (d : A) (a : ndarray A) (i j : nat) : A :=
  nth (i * ncols a + j) (data a) d.

Definition amap {A B} (f : A -> B) (a : ndarray A) : ndarray B :=
  mk_ndarray (shape a) (map f (data a)).

(** *** Broadcasting (arrays of at most two dimensions) *)

(** A shape seen as a 2-D shape, as numpy does by prepending 1s. *)
Definition view2 (s : list nat) : option (nat * nat) :=
  match s with
  | [] => Some (1%nat, 1%nat)
  | [c] => Some (1%nat, c)
  | [r; c] => Some (r, c)
  | _ => None
  end.

Definition bdim (d1 d2 : nat) : option nat :=
  if (d1 =? d2)%nat then Some d1
  else if (d1 =? 1)%nat then Some d2
  else if (d2 =? 1)%nat then Some d1
  else None.

(** Entry [(i, j)] of an array stretched along its axes of length one. *)
Definition bget {A} (d : A) (a : ndarray A) (i j : nat) : A :=
  match view2 (shape a) with
  | Some (r, c) =>
      nth ((if (r =? 1)%nat then 0 else i) * c
           + (if (c =? 1)%nat then 0 else j))%nat (data a) d
  | None => d
  end.

Definition bshape (n r c : nat) : list nat :=
  match n with
  | O => []
  | S O => [c]
  | _ => [r; c]
  end.

Definition broadcast2 {A B D} (da : A) (db : B) (f : A -> B -> D)
    (a : ndarray A) (b : ndarray B) : result (ndarray D) :=
  match view2 (shape a), view2 (shape b) with
  | Some (r1, c1), Some (r2, c2) =>
      match bdim r1 r2, bdim c1 c2 with
      | Some r, Some c =>
          Ok (mk_ndarray (bshape (Nat.max (ndim a) (ndim b)) r c)
                (tab_data r c (fun i j => f (bget da a i j) (bget db b i j))))
      | _, _ =>
          Raise (ValueError "operands could not be broadcast together")
      end
  | _, _ => Raise (Unmodelled "arrays of more than two dimensions")
  end.

(** ** Python objects, the store and the computation monad *)

Inductive pyobj : Type :=
| ArrR (a : ndarray R)      (* array of real dtype *)
| ArrC (a : ndarray C).     (* array of complex dtype *)

Definition obj_shape (o : pyobj) : list nat :=
  match o with
  | ArrR a => shape a
  | ArrC a => shape a
  end.

Definition obj_ndim (o : pyobj) : nat := length (obj_shape o).

Definition as_complex (o : pyobj) : ndarray C :=
  match o with
  | ArrR a => amap RtoC a
  | ArrC a => a
  end.

(** The numeric-library entry points the module calls. *)
Inductive call : Type :=
| NpArray | NpLinspace | NpMgrid | NpUfunc | NpMax
| NpFft2 | NpIfft2 | NpFftshift | NpIfftshift
| ScipyMedianFilter | ScipyGaussianFilter
| AstropyConvolveFft | AstropyGaussian2DKernel
| PywtWavedec2 | PywtThresholding | PywtWaverec2
| VipFrameCenter | PhotutilsAperturePhotometry.

Definition loc : Type := nat.

Record world : Type := mk_world {
  heap : list pyobj;      (* the objects allocated so far; a [loc] indexes it *)
  trace : list call       (* the library calls made so far, oldest first *)
}.

Definition M (A : Type) : Type := world -> result A * world.

Definition ret {A} (a : A) : M A := fun w => (Ok a, w).

Definition bind {A B} (m : M A) (k : A -> M B) : M B :=
  fun w =>
    match m w with
    | (Ok a, w') => k a w'
    | (Raise e, w') => (Raise e, w')
    end.

Declare Scope py_scope.
Delimit Scope py_scope with py.
Notation "x <- m ;; k" := (bind m (fun x => k))
  (at level 100, m at next level, right associativity) : py_scope.
Notation "m ;;; k" := (bind m (fun _ => k))
  (at level 100, right associativity) : py_scope.
Open Scope py_scope.

Definition raise {A} (e : exn) : M A := fun w => (Raise e, w).

Definition lift {A} (r : result A) : M A := fun w => (r, w).

Definition lookup (w : world) (p : loc) : option pyobj := nth_error (heap w) p.

Definition load (p : loc) : M pyobj :=
  fun w =>
    match lookup w p with
    | Some o => (Ok o, w)
    | None => (Raise (RuntimeError "dangling reference"), w)
    end.

(** Allocation of a new object. *)
Definition new (o : pyobj) : M loc :=
  fun w => (Ok (length (heap w)), mk_world (heap w ++ [o]) (trace w)).

(** Assignment in place ([a[...] = v], [a -= b], an [out=] argument): the
    object at [p] is replaced, and whoever holds [p] sees the new value. *)
Fixpoint update {A} (l : list A) (p : nat) (x : A) : list A :=
  match l, p with
  | [], _ => []
  | _ :: l', O => x :: l'
  | y :: l', S p' => y :: update l' p' x
  end.

Definition store (p : loc) (o : pyobj) : M unit :=
  fun w =>
    match lookup w p with
    | Some _ => (Ok tt, mk_world (update (heap w) p o) (trace w))
    | None => (Raise (RuntimeError "dangling reference"), w)
    end.

Definition emit (c : call) : M unit :=
  fun w => (Ok tt, mk_world (heap w) (trace w ++ [c])).

(** A library function of one / two array arguments: it reads its arguments,
    and its result, if any, is a new object. *)
Definition libcall1 (c : call) (f : pyobj -> result pyobj) (p : loc) : M loc :=
  o <- load p ;;
  emit c ;;;
  r <- lift (f o) ;;
  new r.

Definition libcall2 (c : call) (f : pyobj -> pyobj -> result pyobj)
    (p q : loc) : M loc :=
  o1 <- load p ;;
  o2 <- load q ;;
  emit c ;;;
  r <- lift (f o1 o2) ;;
  new r.

(** A library function that builds an array from scalars. *)
Definition libcall0 (c : call) (r : result pyobj) : M loc :=
  emit c ;;;
  o <- lift r ;;
  new o.

(** Reading a local variable that may not have been assigned. *)
Definition local {A} (name : string) (v : option A) : M A :=
  match v with
  | Some a => ret a
  | None => raise (UnboundLocalError name)
  end.

(* ================================================================== *)
(** * Part II: the numeric libraries *)
(* ================================================================== *)

(** ** numpy, on values

    Each function is modelled by the formula numpy documents for it, on arrays
    of at most two dimensions. *)

Module Numpy.

Definition ufunc1 (f : R -> R) (o : pyobj) : result pyobj :=
  match o with
  | ArrR a => Ok (ArrR (amap f a))
  | ArrC _ => Raise (Unmodelled "real ufunc applied to a complex array")
  end.

Definition ufunc2 (f : R -> R -> R) (o1 o2 : pyobj) : result pyobj :=
  match o1, o2 with
  | ArrR a, ArrR b => rbind (broadcast2 0 0 f a b) (fun r => Ok (ArrR r))
  | _, _ => Raise (Unmodelled "real ufunc applied to a complex array")
  end.

(** [a * b]: complex as soon as one operand is. *)
Definition multiply (o1 o2 : pyobj) : result pyobj :=
  match o1, o2 with
  | ArrR a, ArrR b => rbind (broadcast2 0 0 Rmult a b) (fun r => Ok (ArrR r))
  | _, _ =>
      rbind (broadcast2 C0 C0 Cmul (as_complex o1) (as_complex o2))
            (fun r => Ok (ArrC r))
  end.

(** [np.abs]: the result is always of real dtype. *)
Definition absolute (o : pyobj) : result pyobj :=
  match o with
  | ArrR a => Ok (ArrR (amap Rabs a))
  | ArrC a => Ok (ArrR (amap Cmod a))
  end.

(** [a[np.newaxis]] and [a[:, np.newaxis]]. *)
Definition newaxis_front (o : pyobj) : result pyobj :=
  match o with
  | ArrR a => Ok (ArrR (mk_ndarray (1%nat :: shape a) (data a)))
  | ArrC a => Ok (ArrC (mk_ndarray (1%nat :: shape a) (data a)))
  end.

Definition newaxis_back (o : pyobj) : result pyobj :=
  match o with
  | ArrR a => Ok (ArrR (mk_ndarray (shape a ++ [1%nat]) (data a)))
  | ArrC a => Ok (ArrC (mk_ndarray (shape a ++ [1%nat]) (data a)))
  end.

(** [np.linspace(start, stop, num)], endpoint included. *)
Definition linspace (start stop : R) (num : nat) : result pyobj :=
  Ok (ArrR (mk_ndarray [num]
    match num with
    | O => []
    | S O => [start]
    | _ => map (fun i => start + INR i * ((stop - start) / INR (num - 1)))
               (seq 0 num)
    end)).

(** [np.mgrid[lo1:hi1, lo2:hi2]]: the two coordinate arrays.  The length of
    an axis is [hi - lo]; an axis of length 0 gives empty arrays, and a range
    that runs backwards has a negative length, which the allocation of the
    grid rejects. *)
Definition mgrid (lo1 hi1 lo2 hi2 : Z) : result (pyobj * pyobj) :=
  if ((hi1 - lo1 <? 0) || (hi2 - lo2 <? 0))%Z then
    Raise (ValueError "negative dimensions are not allowed")
  else
    let n1 := Z.to_nat (hi1 - lo1) in
    let n2 := Z.to_nat (hi2 - lo2) in
    Ok (ArrR (tabulate2 n1 n2 (fun i _ => IZR (lo1 + Z.of_nat i))),
        ArrR (tabulate2 n1 n2 (fun _ j => IZR (lo2 + Z.of_nat j)))).

(** The 2-D discrete Fourier sum with exponent sign [sgn]. *)
Definition dft2 (sgn : R) (a : ndarray C) (r c : nat) : ndarray C :=
  tabulate2 r c (fun k l =>
    Csum r (fun m => Csum c (fun n =>
      Cmul (get2 C0 a m n)
           (cis (sgn * (2 * PI * (INR (m * k) / INR r
                                  + INR (n * l) / INR c))))))).

Definition fft_shape_check (o : pyobj) : result (nat * nat) :=
  match obj_shape o with
  | [r; c] =>
      if ((r =? 0) || (c =? 0))%nat
      then Raise (ValueError "Invalid number of FFT data points (0) specified.")
      else Ok (r, c)
  | _ => Raise (Unmodelled "fft2 of an array that is not 2-D")
  end.

Definition fft2 (o : pyobj) : result pyobj :=
  rbind (fft_shape_check o) (fun '(r, c) =>
    Ok (ArrC (dft2 (-1) (as_complex o) r c))).

Definition ifft2 (o : pyobj) : result pyobj :=
  rbind (fft_shape_check o) (fun '(r, c) =>
    Ok (ArrC (amap (Cscale (/ INR (r * c))) (dft2 1 (as_complex o) r c)))).

(** [np.roll] along both axes: entry [(i, j)] moves to
    [((i + sr) mod r, (j + sc) mod c)]. *)
Definition roll2 {A} (d : A) (sr sc : nat) (a : ndarray A) : ndarray A :=
  let r := nrows a in
  let c := ncols a in
  tabulate2 r c (fun i j =>
    get2 d a ((i + (r - sr)) mod r) ((j + (c - sc)) mod c)).

Definition roll_obj (sr sc : nat -> nat) (o : pyobj) : result pyobj :=
  match o with
  | ArrR a =>
      match shape a with
      | [r; c] => Ok (ArrR (roll2 0 (sr r) (sc c) a))
      | _ => Raise (Unmodelled "shift of an array that is not 2-D")
      end
  | ArrC a =>
      match shape a with
      | [r; c] => Ok (ArrC (roll2 C0 (sr r) (sc c) a))
      | _ => Raise (Unmodelled "shift of an array that is not 2-D")
      end
  end.

(** [fftshift] rolls each axis by [n // 2], [ifftshift] by [-(n // 2)]. *)
Definition fftshift : pyobj -> result pyobj :=
  roll_obj (fun n => n / 2)%nat (fun n => n / 2)%nat.

Definition ifftshift : pyobj -> result pyobj :=
  roll_obj (fun n => n - n / 2)%nat (fun n => n - n / 2)%nat.

(** [a.max()]. *)
Definition amax (o : pyobj) : result R :=
  match o with
  | ArrR a =>
      match data a with
      | [] => Raise (ValueError
                "zero-size array to reduction operation maximum which has no identity")
      | x :: l => Ok (fold_left Rmax l x)
      end
  | ArrC _ => Raise (Unmodelled "maximum of a complex array")
  end.

End Numpy.

(** ** scipy.ndimage.median_filter, on values *)

Module Scipy.

Fixpoint insert (x : R) (l : list R) : list R :=
  match l with
  | [] => [x]
  | y :: l' => if Rle_dec x y then x :: l else y :: insert x l'
  end.

Fixpoint sort (l : list R) : list R :=
  match l with
  | [] => []
  | x :: l' => insert x (sort l')
  end.

(** The values under a [s] x [s] footprint centred on [(i, j)]: the
    footprint covers the offsets [-(s/2) .. s-1-s/2], and an index that
    falls outside the array is replaced by the nearest one inside. *)
Definition window (a : ndarray R) (s i j : nat) : list R :=
  flat_map (fun di =>
    map (fun dj =>
           get2 0 a (Nat.min (i + di - s / 2) (nrows a - 1))
                    (Nat.min (j + dj - s / 2) (ncols a - 1)))
        (seq 0 s))
    (seq 0 s).

(** The element of rank [s*s / 2] of the sorted window. *)
Definition median_at (a : ndarray R) (s i j : nat) : R :=
  nth (s * s / 2) (sort (window a s i j)) 0.

Definition median_filter (o : pyobj) (size : Z) (mode : string)
  : result pyobj :=
  match o with
  | ArrC _ => Raise (TypeError "Complex type not supported")
  | ArrR a =>
      if negb (mode =? "nearest")%string
      then Raise (Unmodelled "boundary mode other than nearest")
      else if (size <? 1)%Z
      then Raise (RuntimeError "rank not within filter footprint size")
      else
        match shape a with
        | [r; c] =>
            Ok (ArrR (tabulate2 r c (median_at a (Z.to_nat size))))
        | _ => Raise (Unmodelled "median filter of an array that is not 2-D")
        end
  end.

End Scipy.

(** ** Collaborators that are not modelled: astropy, pywt, photutils, the
    separable Gaussian filter of scipy and [frame_center] of [vip.var.shapes].

    They are taken as an interface; each function reads its arguments and
    either raises or returns a value. *)

Class Externals : Type := {
  wavelet : Type;
  coeff : Type;
  ext_convolve_fft : pyobj -> pyobj -> result pyobj;
  ext_Gaussian2DKernel : R -> result pyobj;
  ext_gaussian_filter : pyobj -> R -> Z -> string -> result pyobj;
  ext_wavedec2 : pyobj -> wavelet -> Z -> result (list coeff);
  ext_thresholding_hard : coeff -> R -> result coeff;
  ext_thresholding_soft : coeff -> R -> result coeff;
  ext_waverec2 : list coeff -> wavelet -> result pyobj;
  ext_frame_center : pyobj -> result (R * R);
  ext_aperture_sum : pyobj -> R * R -> R -> result R
}.

(** [astropy.stats.gaussian_fwhm_to_sigma], that is [1 / (8 ln 2) ** 0.5]. *)
Definition gaussian_fwhm_to_sigma : R := 1 / sqrt (8 * ln 2).

(** ** Python scalars passed to [gaussian_kernel] *)

Inductive pyval : Type :=
| PyNone
| PyBool (b : bool)
| PyInt (z : Z)
| PyFloat (x : R).

(** Truth value of a Python scalar, as tested by [not]. *)
Definition truthy (v : pyval) : bool :=
  match v with
  | PyNone => false
  | PyBool b => b
  | PyInt z => negb (z =? 0)%Z
  | PyFloat x => if Req_dec_T x 0 then false else true
  end.

(** Truncation towards zero. *)
Definition Rtrunc (x : R) : Z :=
  if Rle_dec 0 x then Int_part x else (- Int_part (- x))%Z.

(** [int(v)]. *)
Definition py_int (v : pyval) : result Z :=
  match v with
  | PyNone =>
      Raise (TypeError "int() argument must be a string or a number, not 'NoneType'")
  | PyBool b => Ok (if b then 1 else 0)%Z
  | PyInt z => Ok z
  | PyFloat x => Ok (Rtrunc x)
  end.

(* ================================================================== *)
(** * Part III: the library calls as store computations *)
(* ================================================================== *)

Notation "' pat <- m ;; k" := (bind m (fun pat => k))
  (at level 100, pat pattern, m at next level, right associativity) : py_scope.

Definition ndarray_ndim (p : loc) : M nat :=
  o <- load p ;; ret (obj_ndim o).

Definition ndarray_shape (p : loc) : M (list nat) :=
  o <- load p ;; ret (obj_shape o).

(** [rows, cols = shape]. *)
Definition unpack2 (s : list nat) : M (nat * nat) :=
  match s with
  | [r; c] => ret (r, c)
  | _ => raise (ValueError "wrong number of values to unpack")
  end.

Definition np_ufunc1 (f : R -> R) : loc -> M loc :=
  libcall1 NpUfunc (Numpy.ufunc1 f).

Definition np_ufunc2 (f : R -> R -> R) : loc -> loc -> M loc :=
  libcall2 NpUfunc (Numpy.ufunc2 f).

Definition np_multiply : loc -> loc -> M loc :=
  libcall2 NpUfunc Numpy.multiply.

(** The in-place form of a binary operator ([a -= b], or [out=a]): the
    result, which must have the shape of [a], is written over [a], and [a]
    itself is what the operation evaluates to.  The module never uses this
    form; it is what a library that worked in place would do. *)
Definition np_ufunc2_inplace (f : R -> R -> R) (p q : loc) : M loc :=
  o1 <- load p ;;
  o2 <- load q ;;
  emit NpUfunc ;;;
  r <- lift (Numpy.ufunc2 f o1 o2) ;;
  if list_eq_dec Nat.eq_dec (obj_shape r) (obj_shape o1) then
    store p r ;;; ret p
  else
    raise (ValueError "non-broadcastable output operand").

Definition np_abs : loc -> M loc := libcall1 NpUfunc Numpy.absolute.
Definition np_sqrt : loc -> M loc := np_ufunc1 sqrt.
Definition np_exp : loc -> M loc := np_ufunc1 exp.

(** Indexing with [np.newaxis] is no numeric work. *)
Definition newaxis_front (p : loc) : M loc :=
  o <- load p ;; r <- lift (Numpy.newaxis_front o) ;; new r.

Definition newaxis_back (p : loc) : M loc :=
  o <- load p ;; r <- lift (Numpy.newaxis_back o) ;; new r.

Definition np_linspace (start stop : R) (num : nat) : M loc :=
  libcall0 NpLinspace (Numpy.linspace start stop num).

Definition np_mgrid (lo1 hi1 lo2 hi2 : Z) : M (loc * loc) :=
  emit NpMgrid ;;;
  g <- lift (Numpy.mgrid lo1 hi1 lo2 hi2) ;;
  x <- new (fst g) ;;
  y <- new (snd g) ;;
  ret (x, y).

(** [np.array] of a literal 2-D list. *)
Definition np_array2 (r c : nat) (rows : list (list R)) : M loc :=
  libcall0 NpArray (Ok (ArrR (mk_ndarray [r; c] (concat rows)))).

(** [np.array] of a one-element column. *)
Definition np_array1 (v : R) : M loc :=
  libcall0 NpArray (Ok (ArrR (mk_ndarray [1%nat] [v]))).

Definition np_fft_fft2 : loc -> M loc := libcall1 NpFft2 Numpy.fft2.
Definition np_fft_ifft2 : loc -> M loc := libcall1 NpIfft2 Numpy.ifft2.
Definition np_fft_fftshift : loc -> M loc := libcall1 NpFftshift Numpy.fftshift.
Definition np_fft_ifftshift : loc -> M loc :=
  libcall1 NpIfftshift Numpy.ifftshift.

Definition ndarray_max (p : loc) : M R :=
  o <- load p ;; emit NpMax ;;; lift (Numpy.amax o).

Definition median_filter (p : loc) (size : Z) (mode : string) : M loc :=
  libcall1 ScipyMedianFilter (fun o => Scipy.median_filter o size mode) p.

Fixpoint map_M {A B} (f : A -> M B) (l : list A) : M (list B) :=
  match l with
  | [] => ret []
  | x :: l' => y <- f x ;; ys <- map_M f l' ;; ret (y :: ys)
  end.

Section WithExternals.

Context {ext : Externals}.

Definition convolve_fft : loc -> loc -> M loc :=
  libcall2 AstropyConvolveFft ext_convolve_fft.

Definition Gaussian2DKernel (stddev : R) : M loc :=
  libcall0 AstropyGaussian2DKernel (ext_Gaussian2DKernel stddev).

Definition gaussian_filter (p : loc) (sigma : R) (order : Z) (mode : string)
  : M loc :=
  libcall1 ScipyGaussianFilter
    (fun o => ext_gaussian_filter o sigma order mode) p.

Definition pywt_wavedec2 (p : loc) (wv : wavelet) (level : Z)
  : M (list coeff) :=
  o <- load p ;; emit PywtWavedec2 ;;; lift (ext_wavedec2 o wv level).

Definition pywt_thresholding_hard (x : coeff) (value : R) : M coeff :=
  emit PywtThresholding ;;; lift (ext_thresholding_hard x value).

Definition pywt_thresholding_soft (x : coeff) (value : R) : M coeff :=
  emit PywtThresholding ;;; lift (ext_thresholding_soft x value).

Definition pywt_waverec2 (cs : list coeff) (wv : wavelet) : M loc :=
  libcall0 PywtWaverec2 (ext_waverec2 cs wv).

Definition frame_center (p : loc) : M (R * R) :=
  o <- load p ;; emit VipFrameCenter ;;; lift (ext_frame_center o).

(** [photutils.aperture_photometry(g, CircularAperture(pos, r))], column
    ['aperture_sum']. *)
Definition aperture_photometry (p : loc) (pos : R * R) (r : R) : M R :=
  o <- load p ;;
  emit PhotutilsAperturePhotometry ;;;
  lift (ext_aperture_sum o pos r).

(* ================================================================ *)
(** * Part IV: the module [vip.var.filters] *)
(* ================================================================ *)

Definition fft (array : loc) : M loc :=
  t <- np_fft_fft2 array ;;
  fft_array <- np_fft_fftshift t ;;
  ret fft_array.

Definition ifft (array : loc) : M loc :=
  t1 <- np_fft_ifftshift array ;;
  t2 <- np_fft_ifft2 t1 ;;
  new_array <- np_abs t2 ;;
  ret new_array.

Definition kernel3 : list (list R) :=
  [[-1; -1; -1];
   [-1;  8; -1];
   [-1; -1; -1]].

Definition kernel5 : list (list R) :=
  [[-1; -1; -1; -1; -1];
   [-1;  1;  2;  1; -1];
   [-1;  2;  4;  2; -1];
   [-1;  1;  2;  1; -1];
   [-1; -1; -1; -1; -1]].

Definition frame_filter_gaussian2d (array : loc) (size_fwhm : R)
    (mode : string) : M loc :=
  nd <- ndarray_ndim array ;;
  if negb (nd =? 2)%nat then
    raise (TypeError "Input array is not a frame or 2d array")
  else if (mode =? "conv")%string then
    filtered <- gaussian_filter array (size_fwhm * gaussian_fwhm_to_sigma)
                  0%Z "nearest" ;;
    ret filtered
  else if (mode =? "convfft")%string then
    gaus <- Gaussian2DKernel (size_fwhm * gaussian_fwhm_to_sigma) ;;
    filtered <- convolve_fft array gaus ;;
    ret filtered
  else
    raise (TypeError "Mode not recognized").

Definition frame_filter_highpass (array : loc) (mode : string)
    (median_size kernel_size : Z) (fwhm_size : R) : M loc :=
  nd <- ndarray_ndim array ;;
  if negb (nd =? 2)%nat then
    raise (TypeError "Input array is not a frame or 2d array")
  else if (mode =? "kernel-conv")%string then
    k3 <- np_array2 3 3 kernel3 ;;
    k5 <- np_array2 5 5 kernel5 ;;
    let kernel :=
      if (kernel_size =? 3)%Z then Some k3
      else if (kernel_size =? 5)%Z then Some k5
      else None in
    k <- local "kernel" kernel ;;
    filtered <- convolve_fft array k ;;
    ret filtered
  else if (mode =? "median-subt")%string then
    medianed <- median_filter array median_size "nearest" ;;
    filtered <- np_ufunc2 Rminus array medianed ;;
    ret filtered
  else if (mode =? "gauss-subt")%string then
    gaussed <- frame_filter_gaussian2d array fwhm_size "conv" ;;
    filtered <- np_ufunc2 Rminus array gaussed ;;
    ret filtered
  else if (mode =? "fourier-butter")%string then
    let f := 0.5 in
    let pxd := 2 in
    let n := 100%nat in
    sh <- ndarray_shape array ;;
    '(rows, cols) <- unpack2 sh ;;
    lx <- np_linspace (-0.5) 0.5 cols ;;
    lx' <- np_ufunc1 (fun v => v * INR cols) lx ;;
    x <- np_ufunc1 (fun v => v / pxd) lx' ;;
    ly <- np_linspace (-0.5) 0.5 rows ;;
    ly' <- np_ufunc1 (fun v => v * INR rows) ly ;;
    y <- np_ufunc1 (fun v => v / pxd) ly' ;;
    x2 <- np_ufunc1 (fun v => v ^ 2) x ;;
    x2r <- newaxis_front x2 ;;
    y2 <- np_ufunc1 (fun v => v ^ 2) y ;;
    y2c <- newaxis_back y2 ;;
    s <- np_ufunc2 Rplus x2r y2c ;;
    radius <- np_sqrt s ;;
    q <- np_ufunc1 (fun v => v / f) radius ;;
    qn <- np_ufunc1 (fun v => v ^ (2 * n)) q ;;
    d <- np_ufunc1 (fun v => 1 + v) qn ;;
    filt <- np_ufunc1 (fun v => 1 / v) d ;;
    filt' <- np_ufunc1 (fun v => 1 - v) filt ;;
    array_fft <- fft array ;;
    fft_new <- np_multiply array_fft filt' ;;
    filtered <- ifft fft_new ;;
    ret filtered
  else
    raise (TypeError "Mode not recognized").

Definition wavelet_denoise (array : loc) (wv : wavelet) (threshold : R)
    (levels : Z) (thrmode : string) : M loc :=
  nd <- ndarray_ndim array ;;
  if negb (nd =? 2)%nat then
    raise (TypeError "Input array is not a frame or 2d array")
  else
    WC <- pywt_wavedec2 array wv levels ;;
    NWC <- (if (thrmode =? "hard")%string then
              map_M (fun x => pywt_thresholding_hard x threshold) WC
            else if (thrmode =? "soft")%string then
              map_M (fun x => pywt_thresholding_soft x threshold) WC
            else
              raise (ValueError "Threshold mode not recognized")) ;;
    array_filtered <- pywt_waverec2 NWC wv ;;
    ret array_filtered.

Definition gaussian_kernel (size size_y : pyval) : M loc :=
  size <- lift (py_int size) ;;
  size_y <- (if negb (truthy size_y) then ret size
             else lift (py_int size_y)) ;;
  '(x, y) <- np_mgrid (- size) (size + 1) (- size_y) (size_y + 1) ;;
  x2 <- np_ufunc1 (fun v => v ^ 2) x ;;
  xs <- np_ufunc1 (fun v => v / IZR size) x2 ;;
  y2 <- np_ufunc1 (fun v => v ^ 2) y ;;
  ys <- np_ufunc1 (fun v => v / IZR size_y) y2 ;;
  e <- np_ufunc2 Rplus xs ys ;;
  ne <- np_ufunc1 Ropp e ;;
  g <- np_exp ne ;;
  let fwhm := size in
  center <- frame_center g ;;
  fwhm_aper_phot <- aperture_photometry g center (IZR fwhm / 2) ;;
  aperture_sum <- np_array1 fwhm_aper_phot ;;
  g_norm <- np_ufunc2 Rdiv g aperture_sum ;;
  m <- ndarray_max g_norm ;;
  np_ufunc1 (fun v => v / m) g_norm.

End WithExternals.

(* ================================================================== *)
(** * Part IV, again: the module over libraries that act on the store

    What a call does to the objects that exist already cannot be read off
    functions on values.  Here every library entry point of the module is a
    computation on the store, free to read and to write any object and to
    return any location, and the module is its own code around these
    calls: attribute reads, tests, and the order of the calls. *)
(* ================================================================== *)

Module Effectful.

Class Library : Type := {
  wavelet : Type;
  coeff : Type;
  np_array1 : R -> M loc;
  np_array2 : nat -> nat -> list (list R) -> M loc;
  np_linspace : R -> R -> nat -> M loc;
  np_mgrid : Z -> Z -> Z -> Z -> M (loc * loc);
  np_ufunc1 : (R -> R) -> loc -> M loc;
  np_ufunc2 : (R -> R -> R) -> loc -> loc -> M loc;
  np_multiply : loc -> loc -> M loc;
  np_abs : loc -> M loc;
  np_sqrt : loc -> M loc;
  np_exp : loc -> M loc;
  newaxis_front : loc -> M loc;
  newaxis_back : loc -> M loc;
  np_fft_fft2 : loc -> M loc;
  np_fft_ifft2 : loc -> M loc;
  np_fft_fftshift : loc -> M loc;
  np_fft_ifftshift : loc -> M loc;
  ndarray_max : loc -> M R;
  median_filter : loc -> Z -> string -> M loc;
  gaussian_filter : loc -> R -> Z -> string -> M loc;
  Gaussian2DKernel : R -> M loc;
  convolve_fft : loc -> loc -> M loc;
  pywt_wavedec2 : loc -> wavelet -> Z -> M (list coeff);
  pywt_thresholding_hard : coeff -> R -> M coeff;
  pywt_thresholding_soft : coeff -> R -> M coeff;
  pywt_waverec2 : list coeff -> wavelet -> M loc;
  frame_center : loc -> M (R * R);
  aperture_photometry : loc -> R * R -> R -> M R
}.

Section Module.

Context {lib : Library}.

Definition fft (array : loc) : M loc :=
  t <- np_fft_fft2 array ;;
  fft_array <- np_fft_fftshift t ;;
  ret fft_array.

Definition ifft (array : loc) : M loc :=
  t1 <- np_fft_ifftshift array ;;
  t2 <- np_fft_ifft2 t1 ;;
  new_array <- np_abs t2 ;;
  ret new_array.

Definition frame_filter_gaussian2d (array : loc) (size_fwhm : R)
    (mode : string) : M loc :=
  nd <- ndarray_ndim array ;;
  if negb (nd =? 2)%nat then
    raise (TypeError "Input array is not a frame or 2d array")
  else if (mode =? "conv")%string then
    filtered <- gaussian_filter array (size_fwhm * gaussian_fwhm_to_sigma)
                  0%Z "nearest" ;;
    ret filtered
  else if (mode =? "convfft")%string then
    gaus <- Gaussian2DKernel (size_fwhm * gaussian_fwhm_to_sigma) ;;
    filtered <- convolve_fft array gaus ;;
    ret filtered
  else
    raise (TypeError "Mode not recognized").

Definition frame_filter_highpass (array : loc) (mode : string)
    (median_size kernel_size : Z) (fwhm_size : R) : M loc :=
  nd <- ndarray_ndim array ;;
  if negb (nd =? 2)%nat then
    raise (TypeError "Input array is not a frame or 2d array")
  else if (mode =? "kernel-conv")%string then
    k3 <- np_array2 3 3 kernel3 ;;
    k5 <- np_array2 5 5 kernel5 ;;
    let kernel :=
      if (kernel_size =? 3)%Z then Some k3
      else if (kernel_size =? 5)%Z then Some k5
      else None in
    k <- local "kernel" kernel ;;
    filtered <- convolve_fft array k ;;
    ret filtered
  else if (mode =? "median-subt")%string then
    medianed <- median_filter array median_size "nearest" ;;
    filtered <- np_ufunc2 Rminus array medianed ;;
    ret filtered
  else if (mode =? "gauss-subt")%string then
    gaussed <- frame_filter_gaussian2d array fwhm_size "conv" ;;
    filtered <- np_ufunc2 Rminus array gaussed ;;
    ret filtered
  else if (mode =? "fourier-butter")%string then
    let f := 0.5 in
    let pxd := 2 in
    let n := 100%nat in
    sh <- ndarray_shape array ;;
    '(rows, cols) <- unpack2 sh ;;
    lx <- np_linspace (-0.5) 0.5 cols ;;
    lx' <- np_ufunc1 (fun v => v * INR cols) lx ;;
    x <- np_ufunc1 (fun v => v / pxd) lx' ;;
    ly <- np_linspace (-0.5) 0.5 rows ;;
    ly' <- np_ufunc1 (fun v => v * INR rows) ly ;;
    y <- np_ufunc1 (fun v => v / pxd) ly' ;;
    x2 <- np_ufunc1 (fun v => v ^ 2) x ;;
    x2r <- newaxis_front x2 ;;
    y2 <- np_ufunc1 (fun v => v ^ 2) y ;;
    y2c <- newaxis_back y2 ;;
    s <- np_ufunc2 Rplus x2r y2c ;;
    radius <- np_sqrt s ;;
    q <- np_ufunc1 (fun v => v / f) radius ;;
    qn <- np_ufunc1 (fun v => v ^ (2 * n)) q ;;
    d <- np_ufunc1 (fun v => 1 + v) qn ;;
    filt <- np_ufunc1 (fun v => 1 / v) d ;;
    filt' <- np_ufunc1 (fun v => 1 - v) filt ;;
    array_fft <- fft array ;;
    fft_new <- np_multiply array_fft filt' ;;
    filtered <- ifft fft_new ;;
    ret filtered
  else
    raise (TypeError "Mode not recognized").

Definition wavelet_denoise (array : loc) (wv : wavelet) (threshold : R)
    (levels : Z) (thrmode : string) : M loc :=
  nd <- ndarray_ndim array ;;
  if negb (nd =? 2)%nat then
    raise (TypeError "Input array is not a frame or 2d array")
  else
    WC <- pywt_wavedec2 array wv levels ;;
    NWC <- (if (thrmode =? "hard")%string then
              map_M (fun x => pywt_thresholding_hard x threshold) WC
            else if (thrmode =? "soft")%string then
              map_M (fun x => pywt_thresholding_soft x threshold) WC
            else
              raise (ValueError "Threshold mode not recognized")) ;;
    array_filtered <- pywt_waverec2 NWC wv ;;
    ret array_filtered.

Definition gaussian_kernel (size size_y : pyval) : M loc :=
  size <- lift (py_int size) ;;
  size_y <- (if negb (truthy size_y) then ret size
             else lift (py_int size_y)) ;;
  '(x, y) <- np_mgrid (- size) (size + 1) (- size_y) (size_y + 1) ;;
  x2 <- np_ufunc1 (fun v => v ^ 2) x ;;
  xs <- np_ufunc1 (fun v => v / IZR size) x2 ;;
  y2 <- np_ufunc1 (fun v => v ^ 2) y ;;
  ys <- np_ufunc1 (fun v => v / IZR size_y) y2 ;;
  e <- np_ufunc2 Rplus xs ys ;;
  ne <- np_ufunc1 Ropp e ;;
  g <- np_exp ne ;;
  let fwhm := size in
  center <- frame_center g ;;
  fwhm_aper_phot <- aperture_photometry g center (IZR fwhm / 2) ;;
  aperture_sum <- np_array1 fwhm_aper_phot ;;
  g_norm <- np_ufunc2 Rdiv g aperture_sum ;;
  m <- ndarray_max g_norm ;;
  np_ufunc1 (fun v => v / m) g_norm.

(** The public operations of the module. *)
Inductive public_call : Type :=
| CallHighpass (array : loc) (mode : string) (median_size kernel_size : Z)
    (fwhm_size : R)
| CallGaussian2d (array : loc) (size_fwhm : R) (mode : string)
| CallWaveletDenoise (array : loc) (wv : wavelet) (threshold : R) (levels : Z)
    (thrmode : string)
| CallGaussianKernel (size size_y : pyval).

Definition run_call (c : public_call) : M loc :=
  match c with
  | CallHighpass a m ms ks fs => frame_filter_highpass a m ms ks fs
  | CallGaussian2d a s m => frame_filter_gaussian2d a s m
  | CallWaveletDenoise a wv t l m => wavelet_denoise a wv t l m
  | CallGaussianKernel s sy => gaussian_kernel s sy
  end.

End Module.

End Effectful.

(** The libraries that compute on values and allocate their result: numpy and
    scipy as modelled above, the collaborators from [Externals].  The binary
    element-wise operator is left open, to compare the operator the module
    uses with its in-place form. *)
Definition library_with {ext : Externals}
    (binary : (R -> R -> R) -> loc -> loc -> M loc) : Effectful.Library := {|
  Effectful.wavelet := wavelet;
  Effectful.coeff := coeff;
  Effectful.np_array1 := np_array1;
  Effectful.np_array2 := np_array2;
  Effectful.np_linspace := np_linspace;
  Effectful.np_mgrid := np_mgrid;
  Effectful.np_ufunc1 := np_ufunc1;
  Effectful.np_ufunc2 := binary;
  Effectful.np_multiply := np_multiply;
  Effectful.np_abs := np_abs;
  Effectful.np_sqrt := np_sqrt;
  Effectful.np_exp := np_exp;
  Effectful.newaxis_front := newaxis_front;
  Effectful.newaxis_back := newaxis_back;
  Effectful.np_fft_fft2 := np_fft_fft2;
  Effectful.np_fft_ifft2 := np_fft_ifft2;
  Effectful.np_fft_fftshift := np_fft_fftshift;
  Effectful.np_fft_ifftshift := np_fft_ifftshift;
  Effectful.ndarray_max := ndarray_max;
  Effectful.median_filter := median_filter;
  Effectful.gaussian_filter := gaussian_filter;
  Effectful.Gaussian2DKernel := Gaussian2DKernel;
  Effectful.convolve_fft := convolve_fft;
  Effectful.pywt_wavedec2 := pywt_wavedec2;
  Effectful.pywt_thresholding_hard := pywt_thresholding_hard;
  Effectful.pywt_thresholding_soft := pywt_thresholding_soft;
  Effectful.pywt_waverec2 := pywt_waverec2;
  Effectful.frame_center := frame_center;
  Effectful.aperture_photometry := aperture_photometry
|}.

(** The libraries as the rest of this development takes them. *)
Definition functional {ext : Externals} : Effectful.Library :=
  library_with np_ufunc2.

(** The same libraries, except that the binary operator works in place. *)
Definition in_place {ext : Externals} : Effectful.Library :=
  library_with np_ufunc2_inplace.

(* ================================================================== *)
(** * Part V: a small concrete implementation of the collaborators

    Simplified stand-ins for astropy, pywt, photutils and [frame_center],
    used to run the module on concrete inputs; no property of the module is
    proved from them. *)
(* ================================================================== *)

Module Toy.

Fixpoint Rsum (l : list R) : R :=
  match l with
  | [] => 0
  | x :: l' => x + Rsum l'
  end.

(** Geometric centre of a frame, in pixel coordinates. *)
Definition frame_center (o : pyobj) : result (R * R) :=
  match obj_shape o with
  | [r; c] => Ok ((INR r - 1) / 2, (INR c - 1) / 2)
  | _ => Raise (TypeError "Input array is not a frame or 2d array")
  end.

(** Sum of the pixels whose centre lies within [r] of [pos]. *)
Definition aperture_sum (o : pyobj) (pos : R * R) (r : R) : result R :=
  match o with
  | ArrR a =>
      Ok (Rsum (tab_data (nrows a) (ncols a) (fun i j =>
            if Rle_dec ((INR i - fst pos) ^ 2 + (INR j - snd pos) ^ 2) (r ^ 2)
            then get2 0 a i j else 0)))
  | ArrC _ => Raise (TypeError "complex data")
  end.

Definition hard (t x : R) : R := if Rlt_dec (Rabs x) t then 0 else x.

Definition soft (t x : R) : R :=
  if Rlt_dec x 0 then - Rmax (Rabs x - t) 0 else Rmax (Rabs x - t) 0.

(** A decomposition with zero levels keeps the frame as its only band. *)
Definition wavedec2 (o : pyobj) (wv : unit) (level : Z)
  : result (list (ndarray R)) :=
  match o with
  | ArrR a =>
      if (level =? 0)%Z then Ok [a]
      else Raise (Unmodelled "decomposition levels other than 0")
  | ArrC _ => Raise (TypeError "complex data")
  end.

Definition waverec2 (cs : list (ndarray R)) (wv : unit) : result pyobj :=
  match cs with
  | [a] => Ok (ArrR a)
  | _ => Raise (Unmodelled "decomposition levels other than 0")
  end.

(** Gaussian weight at integer offset [k - rad]. *)
Definition weight (sigma : R) (rad k : nat) : R :=
  exp (- (INR k - INR rad) ^ 2 / (2 * sigma ^ 2)).

(** Smoothing with the normalised Gaussian weights truncated at four standard
    deviations, along both axes, the border being extended by the nearest
    pixel. *)
Definition gaussian_filter (o : pyobj) (sigma : R) (order : Z) (mode : string)
  : result pyobj :=
  match o with
  | ArrR a =>
      if negb ((order =? 0)%Z && (mode =? "nearest")%string) then
        Raise (Unmodelled "derivative order or boundary mode")
      else
        let rad := Z.to_nat (Rtrunc (4 * sigma + 0.5)) in
        let n := (2 * rad + 1)%nat in
        let norm := Rsum (map (weight sigma rad) (seq 0 n)) in
        Ok (ArrR (tabulate2 (nrows a) (ncols a) (fun i j =>
              Rsum (tab_data n n (fun u v =>
                weight sigma rad u / norm * (weight sigma rad v / norm)
                * get2 0 a (Nat.min (i + u - rad) (nrows a - 1))
                           (Nat.min (j + v - rad) (ncols a - 1)))))))
  | ArrC _ => Raise (TypeError "Complex type not supported")
  end.

(** A square Gaussian kernel of side [2 * trunc (4 stddev) + 1]. *)
Definition Gaussian2DKernel (stddev : R) : result pyobj :=
  let rad := Z.to_nat (Rtrunc (4 * stddev)) in
  let n := (2 * rad + 1)%nat in
  Ok (ArrR (tabulate2 n n (fun i j =>
        weight stddev rad i * weight stddev rad j
        / (2 * PI * stddev ^ 2)))).

(** Same-size convolution, the frame being padded with zeros. *)
Definition convolve_fft (o k : pyobj) : result pyobj :=
  match o, k with
  | ArrR a, ArrR ker =>
      Ok (ArrR (tabulate2 (nrows a) (ncols a) (fun i j =>
            Rsum (tab_data (nrows ker) (ncols ker) (fun u v =>
              if ((u <=? i + nrows ker / 2) && (v <=? j + ncols ker / 2)
                  && (i + nrows ker / 2 - u <? nrows a)
                  && (j + ncols ker / 2 - v <? ncols a))%nat
              then get2 0 ker u v
                   * get2 0 a (i + nrows ker / 2 - u) (j + ncols ker / 2 - v)
              else 0)))))
  | _, _ => Raise (TypeError "complex data")
  end.

Definition externals : Externals := {|
  wavelet := unit;
  coeff := ndarray R;
  ext_convolve_fft := convolve_fft;
  ext_Gaussian2DKernel := Gaussian2DKernel;
  ext_gaussian_filter := gaussian_filter;
  ext_wavedec2 := wavedec2;
  ext_thresholding_hard := fun c t => Ok (amap (hard t) c);
  ext_thresholding_soft := fun c t => Ok (amap (soft t) c);
  ext_waverec2 := waverec2;
  ext_frame_center := frame_center;
  ext_aperture_sum := aperture_sum
|}.

(** A 2 x 2 frame and a 1-D array, and stores holding them at location 0. *)
Definition frame22 : pyobj := ArrR (mk_ndarray [2%nat; 2%nat] [1; 2; 3; 4]).
Definition vector3 : pyobj := ArrR (mk_ndarray [3%nat] [1; 2; 3]).
Definition w22 : world := mk_world [frame22] [].
Definition wvec : world := mk_world [vector3] [].

End Toy.

(* ================================================================== *)
(** * Part VI: what the specification says, as definitions *)
(* ================================================================== *)

Definition shape_error : exn :=
  TypeError "Input array is not a frame or 2d array".

Definition mode_error : exn := TypeError "Mode not recognized".

Definition thrmode_error : exn := ValueError "Threshold mode not recognized".

(** The four documented modes of the high-pass dispatcher. *)
Definition highpass_modes : list string :=
  ["kernel-conv"; "median-subt"; "gauss-subt"; "fourier-butter"]%string.

(** [w'] holds every object of [w], unchanged and at the same place. *)
Definition preserves (w w' : world) : Prop :=
  forall p o, lookup w p = Some o -> lookup w' p = Some o.

(** [r] is a new object of [w']: it did not exist in [w]. *)
Definition fresh_in (w w' : world) (r : loc) : Prop :=
  lookup w r = None /\ exists o, lookup w' r = Some o.

(** The public operations of the module. *)
Inductive public_call {ext : Externals} : Type :=
| CallHighpass (array : loc) (mode : string) (median_size kernel_size : Z)
    (fwhm_size : R)
| CallGaussian2d (array : loc) (size_fwhm : R) (mode : string)
| CallWaveletDenoise (array : loc) (wv : wavelet) (threshold : R) (levels : Z)
    (thrmode : string)
| CallGaussianKernel (size size_y : pyval).

Definition run_call {ext : Externals} (c : public_call) : M loc :=
  match c with
  | CallHighpass a m ms ks fs => frame_filter_highpass a m ms ks fs
  | CallGaussian2d a s m => frame_filter_gaussian2d a s m
  | CallWaveletDenoise a wv t l m => wavelet_denoise a wv t l m
  | CallGaussianKernel s sy => gaussian_kernel s sy
  end.

(** What [gaussian_kernel] does once both extents are integers. *)
Definition kernel_on_grid {ext : Externals} (size size_y : Z) : M loc :=
  '(x, y) <- np_mgrid (- size) (size + 1) (- size_y) (size_y + 1) ;;
  x2 <- np_ufunc1 (fun v => v ^ 2) x ;;
  xs <- np_ufunc1 (fun v => v / IZR size) x2 ;;
  y2 <- np_ufunc1 (fun v => v ^ 2) y ;;
  ys <- np_ufunc1 (fun v => v / IZR size_y) y2 ;;
  e <- np_ufunc2 Rplus xs ys ;;
  ne <- np_ufunc1 Ropp e ;;
  g <- np_exp ne ;;
  center <- frame_center g ;;
  fwhm_aper_phot <- aperture_photometry g center (IZR size / 2) ;;
  aperture_sum <- np_array1 fwhm_aper_phot ;;
  g_norm <- np_ufunc2 Rdiv g aperture_sum ;;
  m <- ndarray_max g_norm ;;
  np_ufunc1 (fun v => v / m) g_norm.

(** The two kernels of the [kernel-conv] mode, as array objects. *)
Definition kernel3_obj : pyobj := ArrR (mk_ndarray [3%nat; 3%nat] (concat kernel3)).
Definition kernel5_obj : pyobj := ArrR (mk_ndarray [5%nat; 5%nat] (concat kernel5)).

(** [w'] is [w] with new objects appended. *)
Definition extends (w w' : world) : Prop :=
  exists l, heap w' = heap w ++ l.

(** A computation that never touches an existing object. *)
Definition allocates_only {A} (m : M A) : Prop :=
  forall w, extends w (snd (m w)).

(** A computation whose result, if any, was allocated while it ran. *)
Definition returns_new (m : M loc) : Prop :=
  forall w r w', m w = (Ok r, w') ->
    (length (heap w) <= r < length (heap w'))%nat.

(** What numpy, scipy, astropy, pywt and photutils document of the functions
    the module calls, as far as the store goes: none of them writes to an
    object that exists, and those whose result a public operation hands back
    return an object of their own making. *)
Record nonmutating (lib : Effectful.Library) : Prop := {
  nm_array1 : forall v, allocates_only (Effectful.np_array1 v);
  nm_array2 : forall r c l, allocates_only (Effectful.np_array2 r c l);
  nm_linspace : forall a b n, allocates_only (Effectful.np_linspace a b n);
  nm_mgrid : forall a b c d, allocates_only (Effectful.np_mgrid a b c d);
  nm_ufunc1 : forall f p, allocates_only (Effectful.np_ufunc1 f p);
  nm_ufunc2 : forall f p q, allocates_only (Effectful.np_ufunc2 f p q);
  nm_multiply : forall p q, allocates_only (Effectful.np_multiply p q);
  nm_abs : forall p, allocates_only (Effectful.np_abs p);
  nm_sqrt : forall p, allocates_only (Effectful.np_sqrt p);
  nm_exp : forall p, allocates_only (Effectful.np_exp p);
  nm_newaxis_front : forall p, allocates_only (Effectful.newaxis_front p);
  nm_newaxis_back : forall p, allocates_only (Effectful.newaxis_back p);
  nm_fft2 : forall p, allocates_only (Effectful.np_fft_fft2 p);
  nm_ifft2 : forall p, allocates_only (Effectful.np_fft_ifft2 p);
  nm_fftshift : forall p, allocates_only (Effectful.np_fft_fftshift p);
  nm_ifftshift : forall p, allocates_only (Effectful.np_fft_ifftshift p);
  nm_max : forall p, allocates_only (Effectful.ndarray_max p);
  nm_median_filter :
    forall p s m, allocates_only (Effectful.median_filter p s m);
  nm_gaussian_filter :
    forall p s o m, allocates_only (Effectful.gaussian_filter p s o m);
  nm_Gaussian2DKernel : forall s, allocates_only (Effectful.Gaussian2DKernel s);
  nm_convolve_fft : forall p q, allocates_only (Effectful.convolve_fft p q);
  nm_wavedec2 :
    forall p wv l, allocates_only (Effectful.pywt_wavedec2 p wv l);
  nm_thresholding_hard :
    forall x t, allocates_only (Effectful.pywt_thresholding_hard x t);
  nm_thresholding_soft :
    forall x t, allocates_only (Effectful.pywt_thresholding_soft x t);
  nm_waverec2 : forall cs wv, allocates_only (Effectful.pywt_waverec2 cs wv);
  nm_frame_center : forall p, allocates_only (Effectful.frame_center p);
  nm_aperture_photometry :
    forall p pos r, allocates_only (Effectful.aperture_photometry p pos r);
  new_ufunc1 : forall f p, returns_new (Effectful.np_ufunc1 f p);
  new_ufunc2 : forall f p q, returns_new (Effectful.np_ufunc2 f p q);
  new_abs : forall p, returns_new (Effectful.np_abs p);
  new_gaussian_filter :
    forall p s o m, returns_new (Effectful.gaussian_filter p s o m);
  new_convolve_fft : forall p q, returns_new (Effectful.convolve_fft p q);
  new_waverec2 : forall cs wv, returns_new (Effectful.pywt_waverec2 cs wv)
}.

(** The square neighbourhood of side [s] around pixel [(i, j)] of an [r] x [c]
    frame, with "nearest" handling of the border: the pixel at offset
    [(di - s/2, dj - s/2)], each coordinate being clamped into the frame. *)
Definition clamp (lo hi z : Z) : Z := Z.max lo (Z.min z hi).

Definition neighbourhood (a : ndarray R) (r c s i j : nat) : list R :=
  tab_data s s (fun di dj =>
    get2 0 a
      (Z.to_nat (clamp 0 (Z.of_nat r - 1)
                   (Z.of_nat i + Z.of_nat di - Z.of_nat s / 2)))
      (Z.to_nat (clamp 0 (Z.of_nat c - 1)
                   (Z.of_nat j + Z.of_nat dj - Z.of_nat s / 2)))).

(** [m] is the median of [l]: the element of rank [length l / 2] once [l] is
    put in increasing order. *)
Definition is_median (l : list R) (m : R) : Prop :=
  exists l', Permutation l l' /\ Sorted Rle l' /\ m = nth (length l / 2) l' 0.

(** The largest element of a list ([0] for the empty list). *)
Definition list_max (l : list R) : R :=
  match l with
  | [] => 0
  | x :: l' => fold_left Rmax l' x
  end.

(** The unnormalised kernel: [exp (-(x^2 / size + y^2 / size_y))] on the
    integer grid [-size .. size] x [-size_y .. size_y]. *)
Definition gaussian_value (size size_y : Z) (i j : nat) : R :=
  exp (- (IZR (- size + Z.of_nat i) ^ 2 / IZR size
          + IZR (- size_y + Z.of_nat j) ^ 2 / IZR size_y)).

Definition gaussian_grid (size size_y : Z) : ndarray R :=
  tabulate2 (Z.to_nat (2 * size + 1)) (Z.to_nat (2 * size_y + 1))
    (gaussian_value size size_y).

(** The largest entry of a 2-D array is [m]. *)
Definition max_entry_is (a : ndarray R) (m : R) : Prop :=
  (forall i j, (i < nrows a)%nat -> (j < ncols a)%nat -> get2 0 a i j <= m) /\
  (exists i j, (i < nrows a)%nat /\ (j < ncols a)%nat /\ get2 0 a i j = m).

(** The centred spectrum of a real frame (the specification's forward
    transform) and the way back from a centred spectrum (its inverse
    transform): shift back, inverse Fourier sum, magnitude. *)
Definition centred_spectrum (a : ndarray R) (r c : nat) : ndarray C :=
  Numpy.roll2 C0 (r / 2) (c / 2) (Numpy.dft2 (-1) (amap RtoC a) r c).

Definition from_centred_spectrum (s : ndarray C) (r c : nat) : ndarray R :=
  amap Cmod
    (amap (Cscale (/ INR (r * c)))
       (Numpy.dft2 1 (Numpy.roll2 C0 (r - r / 2) (c - c / 2) s) r c)).

(** Coordinate of sample [k] on an axis of [n] samples of the normalized
    frequency grid: the samples are spread evenly over [-1/2, 1/2] and
    scaled by [n / pxd]. *)
Definition grid_coord (pxd : R) (n k : nat) : R :=
  (INR k / INR (n - 1) - 1 / 2) * (INR n / pxd).

(** The Butterworth high-pass transfer function of order [n] and cut-in
    frequency [f], at distance [radius] from the centre. *)
Definition butterworth_highpass (f : R) (n : nat) (radius : R) : R :=
  1 - 1 / (1 + (radius / f) ^ (2 * n)).

(** Its value at pixel [(i, j)] of a [rows] x [cols] grid, with the constants
    of the module. *)
Definition butter_filter (rows cols i j : nat) : R :=
  butterworth_highpass 0.5 100
    (sqrt (grid_coord 2 cols j ^ 2 + grid_coord 2 rows i ^ 2)).

(** Repeated squaring of a fixed-point number [n / 2^m], rounding down at
    each step; used to bound the exponential from below. *)
Definition sq_down (m n : Z) : Z := (n * n / 2 ^ m)%Z.

Fixpoint sq_chain (k : nat) (m n : Z) : Z :=
  match k with
  | O => n
  | S k' => sq_chain k' m (sq_down m n)
  end.

(** Finite real sums [f 0 + ... + f (n-1)]. *)
Fixpoint Rsum_n (n : nat) (f : nat -> R) : R :=
  match n with
  | O => 0
  | S k => Rsum_n k f + f k
  end.

(** [map] with a function that may raise: the first exception wins. *)
Fixpoint map_result {A B} (f : A -> result B) (l : list A) : result (list B) :=
  match l with
  | [] => Ok []
  | x :: l' =>
      rbind (f x) (fun y => rbind (map_result f l') (fun ys => Ok (y :: ys)))
  end.

(* ================================================================== *)
(** * Part VII: running computations *)
(* ================================================================== *)

Lemma bind_ok {A B} (m : M A) (k : A -> M B) w a w' :
  m w = (Ok a, w') -> bind m k w = k a w'.
Proof. unfold bind; intros ->; reflexivity. Qed.

Lemma bind_raise {A B} (m : M A) (k : A -> M B) w e w' :
  m w = (Raise e, w') -> bind m k w = (Raise e, w').
Proof. unfold bind; intros ->; reflexivity. Qed.

Lemma load_ok w p o : lookup w p = Some o -> load p w = (Ok o, w).
Proof. unfold load; intros ->; reflexivity. Qed.

Lemma ndarray_ndim_ok w p o :
  lookup w p = Some o -> ndarray_ndim p w = (Ok (obj_ndim o), w).
Proof.
  intros H; unfold ndarray_ndim.
  rewrite (bind_ok _ _ _ _ _ (load_ok _ _ _ H)); reflexivity.
Qed.

Lemma libcall0_ok c r o w :
  r = Ok o ->
  libcall0 c r w
  = (Ok (length (heap w)), mk_world (heap w ++ [o]) (trace w ++ [c])).
Proof. intros ->; reflexivity. Qed.

Lemma libcall1_ok c f p o r w :
  lookup w p = Some o -> f o = Ok r ->
  libcall1 c f p w
  = (Ok (length (heap w)), mk_world (heap w ++ [r]) (trace w ++ [c])).
Proof.
  intros Hp Hf; unfold libcall1.
  rewrite (bind_ok _ _ _ _ _ (load_ok _ _ _ Hp)).
  unfold bind, emit, lift, new; simpl; rewrite Hf; reflexivity.
Qed.

Lemma libcall1_raise c f p o e w :
  lookup w p = Some o -> f o = Raise e ->
  libcall1 c f p w = (Raise e, mk_world (heap w) (trace w ++ [c])).
Proof.
  intros Hp Hf; unfold libcall1.
  rewrite (bind_ok _ _ _ _ _ (load_ok _ _ _ Hp)).
  unfold bind, emit, lift, new; simpl; rewrite Hf; reflexivity.
Qed.

Lemma libcall2_ok c f p q o1 o2 r w :
  lookup w p = Some o1 -> lookup w q = Some o2 -> f o1 o2 = Ok r ->
  libcall2 c f p q w
  = (Ok (length (heap w)), mk_world (heap w ++ [r]) (trace w ++ [c])).
Proof.
  intros Hp Hq Hf; unfold libcall2.
  rewrite (bind_ok _ _ _ _ _ (load_ok _ _ _ Hp)).
  rewrite (bind_ok _ _ _ _ _ (load_ok _ _ _ Hq)).
  unfold bind, emit, lift, new; simpl; rewrite Hf; reflexivity.
Qed.

Lemma lookup_last h t o : lookup (mk_world (h ++ [o]) t) (length h) = Some o.
Proof.
  unfold lookup; simpl.
  rewrite nth_error_app2 by lia. rewrite Nat.sub_diag; reflexivity.
Qed.

Lemma lookup_weaken h t l p o :
  lookup (mk_world h t) p = Some o -> lookup (mk_world (h ++ l) t) p = Some o.
Proof.
  unfold lookup; simpl; intros H.
  rewrite nth_error_app1; [exact H|].
  apply nth_error_Some; congruence.
Qed.

Lemma string_eqb_neq (s t : string) : s <> t -> (s =? t)%string = false.
Proof. intros H; apply String.eqb_neq; exact H. Qed.

(* ================================================================== *)
(** * Part VIII: validation of the arguments *)
(* ================================================================== *)

Section Validation.

Context {ext : Externals}.

Lemma highpass_not_2d w array o mode ms ks fs :
  lookup w array = Some o -> obj_ndim o <> 2%nat ->
  frame_filter_highpass array mode ms ks fs w = (Raise shape_error, w).
Proof.
  intros Hl Hn; unfold frame_filter_highpass.
  rewrite (bind_ok _ _ _ _ _ (ndarray_ndim_ok _ _ _ Hl)).
  apply Nat.eqb_neq in Hn; rewrite Hn; reflexivity.
Qed.

Lemma highpass_2d_step w array o mode ms ks fs :
  lookup w array = Some o -> obj_ndim o = 2%nat ->
  frame_filter_highpass array mode ms ks fs w
  = (if (mode =? "kernel-conv")%string then
       k3 <- np_array2 3 3 kernel3 ;;
       k5 <- np_array2 5 5 kernel5 ;;
       k <- local "kernel"
              (if (ks =? 3)%Z then Some k3
               else if (ks =? 5)%Z then Some k5 else None) ;;
       filtered <- convolve_fft array k ;;
       ret filtered
     else if (mode =? "median-subt")%string then
       medianed <- median_filter array ms "nearest" ;;
       filtered <- np_ufunc2 Rminus array medianed ;;
       ret filtered
     else if (mode =? "gauss-subt")%string then
       gaussed <- frame_filter_gaussian2d array fs "conv" ;;
       filtered <- np_ufunc2 Rminus array gaussed ;;
       ret filtered
     else if (mode =? "fourier-butter")%string then
       sh <- ndarray_shape array ;;
       '(rows, cols) <- unpack2 sh ;;
       lx <- np_linspace (-0.5) 0.5 cols ;;
       lx' <- np_ufunc1 (fun v => v * INR cols) lx ;;
       x <- np_ufunc1 (fun v => v / 2) lx' ;;
       ly <- np_linspace (-0.5) 0.5 rows ;;
       ly' <- np_ufunc1 (fun v => v * INR rows) ly ;;
       y <- np_ufunc1 (fun v => v / 2) ly' ;;
       x2 <- np_ufunc1 (fun v => v ^ 2) x ;;
       x2r <- newaxis_front x2 ;;
       y2 <- np_ufunc1 (fun v => v ^ 2) y ;;
       y2c <- newaxis_back y2 ;;
       s <- np_ufunc2 Rplus x2r y2c ;;
       radius <- np_sqrt s ;;
       q <- np_ufunc1 (fun v => v / 0.5) radius ;;
       qn <- np_ufunc1 (fun v => v ^ (2 * 100)) q ;;
       d <- np_ufunc1 (fun v => 1 + v) qn ;;
       filt <- np_ufunc1 (fun v => 1 / v) d ;;
       filt' <- np_ufunc1 (fun v => 1 - v) filt ;;
       array_fft <- fft array ;;
       fft_new <- np_multiply array_fft filt' ;;
       filtered <- ifft fft_new ;;
       ret filtered
     else raise mode_error) w.
Proof.
  intros Hl Hn; unfold frame_filter_highpass.
  rewrite (bind_ok _ _ _ _ _ (ndarray_ndim_ok _ _ _ Hl)).
  rewrite Hn; reflexivity.
Qed.

Lemma highpass_bad_mode w array o mode ms ks fs :
  lookup w array = Some o -> obj_ndim o = 2%nat ->
  ~ In mode highpass_modes ->
  frame_filter_highpass array mode ms ks fs w = (Raise mode_error, w).
Proof.
  intros Hl Hn Hm.
  rewrite (highpass_2d_step _ _ _ _ _ _ _ Hl Hn).
  unfold highpass_modes in Hm; simpl in Hm.
  rewrite !string_eqb_neq by (intros ->; tauto).
  reflexivity.
Qed.

End Validation.

Section ValidationClaims.

Context {ext : Externals}.

(** C2: [frame_filter_highpass] raises the input-shape error for every array
    that is not 2-dimensional, whatever the mode and before any library call
    or allocation (the store and the trace are those of the call), and raises
    the unrecognized-mode error, again before any library call, for every
    2-D array and every mode outside the four documented ones. *)
Theorem highpass_validation w array o ms ks fs :
  lookup w array = Some o ->
  (obj_ndim o <> 2%nat ->
   forall mode,
     frame_filter_highpass array mode ms ks fs w = (Raise shape_error, w)) /\
  (obj_ndim o = 2%nat ->
   forall mode, ~ In mode highpass_modes ->
     frame_filter_highpass array mode ms ks fs w = (Raise mode_error, w)).
Proof.
  intros Hl; split; intros Hn mode.
  - eapply highpass_not_2d; eauto.
  - intros Hm; eapply highpass_bad_mode; eauto.
Qed.

(** C9: with a 2-D array, mode ['kernel-conv'] and a [kernel_size] other than
    3 and 5, the local variable [kernel] is never assigned: the call stops
    with [UnboundLocalError] once the two kernel constants are built, the
    convolution is never called, and the outcome is neither a filtered frame
    nor the unrecognized-mode error. *)
Theorem highpass_kernel_size_unhandled w array o ms ks fs :
  lookup w array = Some o -> obj_ndim o = 2%nat ->
  ks <> 3%Z -> ks <> 5%Z ->
  let out := frame_filter_highpass array "kernel-conv" ms ks fs w in
  out = (Raise (UnboundLocalError "kernel"),
         mk_world (heap w ++ [kernel3_obj; kernel5_obj])
                  (trace w ++ [NpArray; NpArray])) /\
  (forall r, fst out <> Ok r) /\
  fst out <> Raise mode_error.
Proof.
  intros Hl Hn H3 H5 out.
  assert (E : out = (Raise (UnboundLocalError "kernel"),
         mk_world (heap w ++ [kernel3_obj; kernel5_obj])
                  (trace w ++ [NpArray; NpArray]))).
  { unfold out. rewrite (highpass_2d_step _ _ _ _ _ _ _ Hl Hn).
    simpl. unfold np_array2.
    erewrite bind_ok by (apply libcall0_ok; reflexivity).
    erewrite bind_ok by (apply libcall0_ok; reflexivity).
    apply Z.eqb_neq in H3, H5. rewrite H3, H5. simpl.
    rewrite <- !app_assoc. reflexivity. }
  rewrite E; simpl; repeat split; intros; discriminate.
Qed.

(** Thresholding every band only ever adds calls to the trace, and adds at
    least one when it fails. *)
Lemma map_M_thresholding_trace (thr : coeff -> R -> result coeff) t l :
  forall w,
    let out := map_M (fun x => emit PywtThresholding ;;; lift (thr x t)) l w in
    heap (snd out) = heap w /\
    (length (trace w) <= length (trace (snd out)))%nat /\
    (forall e, fst out = Raise e ->
               (length (trace w) < length (trace (snd out)))%nat).
Proof.
  induction l as [|x l IH]; intros w; simpl.
  - repeat split; auto; intros; discriminate.
  - unfold bind at 1. unfold bind at 1. unfold emit, lift; simpl.
    destruct (thr x t) as [y|e]; simpl.
    + specialize (IH (mk_world (heap w) (trace w ++ [PywtThresholding]))).
      simpl in IH. unfold bind.
      destruct (map_M _ l _) as [[ys|e] w']; simpl in *;
        rewrite length_app in IH; simpl in IH;
        destruct IH as (Hh & Hle & Hlt); repeat split; auto; try lia;
        intros; lia.
    + rewrite length_app; simpl; repeat split; auto; try lia; intros; lia.
Qed.

Lemma wavelet_denoise_2d_step w array o wv thr lv thrmode WC :
  lookup w array = Some o -> obj_ndim o = 2%nat ->
  ext_wavedec2 o wv lv = Ok WC ->
  wavelet_denoise array wv thr lv thrmode w
  = (NWC <- (if (thrmode =? "hard")%string then
               map_M (fun x => pywt_thresholding_hard x thr) WC
             else if (thrmode =? "soft")%string then
               map_M (fun x => pywt_thresholding_soft x thr) WC
             else raise thrmode_error) ;;
     array_filtered <- pywt_waverec2 NWC wv ;;
     ret array_filtered)
    (mk_world (heap w) (trace w ++ [PywtWavedec2])).
Proof.
  intros Hl Hn Hd; unfold wavelet_denoise.
  rewrite (bind_ok _ _ _ _ _ (ndarray_ndim_ok _ _ _ Hl)).
  rewrite Hn; simpl.
  rewrite (bind_ok (pywt_wavedec2 array wv lv) _ w WC
             (mk_world (heap w) (trace w ++ [PywtWavedec2]))); [reflexivity|].
  unfold pywt_wavedec2.
  rewrite (bind_ok _ _ _ _ _ (load_ok _ _ _ Hl)).
  unfold bind, emit, lift; simpl. rewrite Hd; reflexivity.
Qed.

Lemma thresholded_run_differs (thr : coeff -> R -> result coeff) t WC wv h tr :
  (NWC <- map_M (fun x => emit PywtThresholding ;;; lift (thr x t)) WC ;;
   array_filtered <- pywt_waverec2 NWC wv ;;
   ret array_filtered) (mk_world h tr)
  <> (Raise thrmode_error, mk_world h tr).
Proof.
  intros H.
  pose proof (map_M_thresholding_trace thr t WC (mk_world h tr)) as P.
  simpl in P. unfold bind at 1 in H.
  destruct (map_M _ WC _) as [[NWC|e] w1]; simpl in P;
    destruct P as (Hh & Hle & Hlt).
  - unfold pywt_waverec2, libcall0 in H.
    unfold bind, emit, lift, new, ret in H; simpl in H.
    destruct (ext_waverec2 NWC wv); simpl in H;
      apply (f_equal (fun x => length (trace (snd x)))) in H; simpl in H;
      rewrite length_app in H; simpl in H; lia.
  - specialize (Hlt _ eq_refl).
    apply (f_equal (fun x => length (trace (snd x)))) in H; simpl in H; lia.
Qed.

(** C3 (as amended): on an array that is not 2-D [wavelet_denoise] raises the
    input-shape error before any library call; on a 2-D array whose
    decomposition succeeds it stops with the value error, having called the
    wavelet decomposition and nothing after it, if and only if [thrmode] is
    neither ['hard'] nor ['soft']; that error is a [ValueError], not one of
    the [TypeError]s of shape and mode validation. *)
Theorem wavelet_denoise_thrmode_error w array o wv thr lv thrmode :
  lookup w array = Some o ->
  (obj_ndim o <> 2%nat ->
   wavelet_denoise array wv thr lv thrmode w = (Raise shape_error, w)) /\
  (obj_ndim o = 2%nat ->
   forall WC, ext_wavedec2 o wv lv = Ok WC ->
     (wavelet_denoise array wv thr lv thrmode w
      = (Raise thrmode_error, mk_world (heap w) (trace w ++ [PywtWavedec2]))
      <-> thrmode <> "hard"%string /\ thrmode <> "soft"%string)) /\
  (forall msg, thrmode_error <> TypeError msg).
Proof.
  intros Hl; split; [|split; [|intros msg; discriminate]].
  - intros Hn; unfold wavelet_denoise.
    rewrite (bind_ok _ _ _ _ _ (ndarray_ndim_ok _ _ _ Hl)).
    apply Nat.eqb_neq in Hn; rewrite Hn; reflexivity.
  - intros Hn WC Hd.
    rewrite (wavelet_denoise_2d_step _ _ _ _ _ _ _ _ Hl Hn Hd).
    split.
    + intros H; split; intros ->; simpl in H;
        eapply thresholded_run_differs; exact H.
    + intros [Hh Hs].
      rewrite (string_eqb_neq _ _ Hh), (string_eqb_neq _ _ Hs).
      reflexivity.
Qed.

End ValidationClaims.

(** C2, at a 1-D array with a documented mode and at a 2-D array with mode
    ['bogus']. *)
Lemma highpass_validation_witness :
  frame_filter_highpass (ext := Toy.externals) 0%nat "fourier-butter" 5%Z 5%Z 5 Toy.wvec
  = (Raise shape_error, Toy.wvec) /\
  frame_filter_highpass (ext := Toy.externals) 0%nat "bogus" 5%Z 5%Z 5 Toy.w22
  = (Raise mode_error, Toy.w22).
Proof.
  split.
  - apply (proj1 (highpass_validation (ext := Toy.externals)
                    Toy.wvec 0%nat Toy.vector3 5%Z 5%Z 5 eq_refl)).
    simpl; discriminate.
  - apply (proj2 (highpass_validation (ext := Toy.externals)
                    Toy.w22 0%nat Toy.frame22 5%Z 5%Z 5 eq_refl)).
    + reflexivity.
    + simpl. intros [H|[H|[H|[H|[]]]]]; discriminate.
Defined.

(** C9, at a 2 x 2 frame with [kernel_size = 4]. *)
Lemma highpass_kernel_size_unhandled_witness :
  fst (frame_filter_highpass (ext := Toy.externals) 0%nat "kernel-conv" 5%Z 4%Z 5
       Toy.w22)
  = Raise (UnboundLocalError "kernel").
Proof.
  pose proof (highpass_kernel_size_unhandled (ext := Toy.externals)
                Toy.w22 0%nat Toy.frame22 5%Z 4%Z 5 eq_refl eq_refl) as H.
  simpl in H.
  destruct H as (E & _); [discriminate | discriminate |].
  rewrite E; reflexivity.
Defined.

(** C3, as the specification states it, fails: on a 2-D frame with
    [thrmode = 'bogus'] the wavelet decomposition has been called by the time
    the value error is raised. *)
Lemma wavelet_denoise_rejects_late :
  wavelet_denoise (ext := Toy.externals) 0%nat tt 1 0%Z "bogus" Toy.w22
  = (Raise thrmode_error, mk_world [Toy.frame22] [PywtWavedec2]) /\
  trace (snd (wavelet_denoise (ext := Toy.externals) 0%nat tt 1 0%Z "bogus" Toy.w22))
  <> trace Toy.w22.
Proof.
  split.
  - reflexivity.
  - simpl; discriminate.
Qed.

(** C3 (amended), at a 2 x 2 frame with [thrmode = 'bogus']. *)
Lemma wavelet_denoise_thrmode_error_witness :
  wavelet_denoise (ext := Toy.externals) 0%nat tt 1 0%Z "bogus" Toy.w22
  = (Raise thrmode_error, mk_world [Toy.frame22] [PywtWavedec2]).
Proof.
  apply (proj1 (proj2 (wavelet_denoise_thrmode_error (ext := Toy.externals)
                  Toy.w22 0%nat Toy.frame22 tt 1 0%Z "bogus"%string eq_refl))
           eq_refl [mk_ndarray [2%nat; 2%nat] [1; 2; 3; 4]] eq_refl).
  split; discriminate.
Defined.

(* ================================================================== *)
(** * Part IX: the falsy [size_y] of [gaussian_kernel] *)
(* ================================================================== *)

Section KernelArguments.

Context {ext : Externals}.

Lemma gaussian_kernel_resolved w size v n ny :
  py_int size = Ok n ->
  (if negb (truthy v) then Ok n else py_int v) = Ok ny ->
  gaussian_kernel size v w = kernel_on_grid n ny w.
Proof.
  intros Hn Hy; unfold gaussian_kernel.
  unfold bind at 1; unfold lift at 1; rewrite Hn.
  unfold bind at 1.
  destruct (negb (truthy v)).
  - injection Hy as <-. reflexivity.
  - unfold lift at 1; rewrite Hy. reflexivity.
Qed.

(** A truthy [size_y] is used as the extent of the second axis. *)
Lemma gaussian_kernel_truthy_size_y w size v n ny :
  truthy v = true -> py_int size = Ok n -> py_int v = Ok ny ->
  gaussian_kernel size v w = kernel_on_grid n ny w.
Proof.
  intros Ht Hn Hy; apply gaussian_kernel_resolved; auto.
  rewrite Ht; exact Hy.
Qed.

(** C10: [size_y] is tested for truthiness, so any falsy [size_y] (such as
    [0]) behaves exactly like the default [None]: the second extent is taken
    to be [size], and the grid is the square one of [gaussian_kernel(size)],
    not one of y-extent zero. *)
Theorem gaussian_kernel_falsy_size_y w size v :
  truthy v = false ->
  gaussian_kernel size v w = gaussian_kernel size PyNone w /\
  (forall n, py_int size = Ok n ->
     gaussian_kernel size v w = kernel_on_grid n n w).
Proof.
  intros Ht; split.
  - unfold gaussian_kernel; rewrite Ht; reflexivity.
  - intros n Hn; apply gaussian_kernel_resolved; auto.
    rewrite Ht; reflexivity.
Qed.

End KernelArguments.

(** C10, at [gaussian_kernel(2, 0)]. *)
Lemma gaussian_kernel_falsy_size_y_witness :
  gaussian_kernel (ext := Toy.externals) (PyInt 2) (PyInt 0) (mk_world [] [])
  = kernel_on_grid (ext := Toy.externals) 2 2 (mk_world [] []).
Proof.
  apply (proj2 (gaussian_kernel_falsy_size_y (ext := Toy.externals)
                  (mk_world [] []) (PyInt 2) (PyInt 0) eq_refl)).
  reflexivity.
Defined.

(* ================================================================== *)
(** * Part X: no operation writes to an existing object *)
(* ================================================================== *)

Lemma extends_refl w : extends w w.
Proof. exists []; rewrite app_nil_r; reflexivity. Qed.

Lemma extends_trans w1 w2 w3 : extends w1 w2 -> extends w2 w3 -> extends w1 w3.
Proof.
  intros [l1 H1] [l2 H2]; exists (l1 ++ l2).
  rewrite H2, H1, app_assoc; reflexivity.
Qed.

Lemma extends_preserves w w' : extends w w' -> preserves w w'.
Proof.
  intros [l H] p o Hp; unfold lookup in *; rewrite H.
  rewrite nth_error_app1; [exact Hp|].
  apply nth_error_Some; congruence.
Qed.

Lemma extends_length w w' :
  extends w w' -> (length (heap w) <= length (heap w'))%nat.
Proof. intros [l H]; rewrite H, length_app; lia. Qed.

Lemma ao_ret {A} (a : A) : allocates_only (ret a).
Proof. intros w; apply extends_refl. Qed.

Lemma ao_raise {A} e : allocates_only (@raise A e).
Proof. intros w; apply extends_refl. Qed.

Lemma ao_lift {A} (r : result A) : allocates_only (lift r).
Proof. intros w; apply extends_refl. Qed.

Lemma ao_emit c : allocates_only (emit c).
Proof. intros w; exists []; simpl; rewrite app_nil_r; reflexivity. Qed.

Lemma ao_load p : allocates_only (load p).
Proof.
  intros w; unfold load; destruct (lookup w p); apply extends_refl.
Qed.

Lemma ao_new o : allocates_only (new o).
Proof. intros w; exists [o]; reflexivity. Qed.

Lemma ao_bind {A B} (m : M A) (k : A -> M B) :
  allocates_only m -> (forall a, allocates_only (k a)) ->
  allocates_only (bind m k).
Proof.
  intros Hm Hk w; unfold bind. specialize (Hm w).
  destruct (m w) as [[a|e] w1]; simpl in *; auto.
  eapply extends_trans; [exact Hm | apply Hk].
Qed.

Lemma ao_local {A} name (v : option A) : allocates_only (local name v).
Proof. destruct v; [apply ao_ret | apply ao_raise]. Qed.

Lemma ao_unpack2 s : allocates_only (unpack2 s).
Proof.
  destruct s as [|r [|c [|x s]]]; simpl;
    first [apply ao_ret | apply ao_raise].
Qed.

Create HintDb alloc.

#[local] Hint Resolve ao_ret ao_raise ao_lift ao_emit ao_load ao_new ao_local
  ao_unpack2 : alloc.

Ltac alloc_step :=
  match goal with
  | |- allocates_only (bind _ _) => apply ao_bind; [| intros ?]
  | |- allocates_only (if ?b then _ else _) => destruct b
  | |- allocates_only (match ?p with (_, _) => _ end) => destruct p
  | |- allocates_only _ => solve [auto with alloc]
  end.

Ltac alloc_only := repeat alloc_step.

Lemma ao_libcall0 c r : allocates_only (libcall0 c r).
Proof. unfold libcall0; alloc_only. Qed.

Lemma ao_libcall1 c f p : allocates_only (libcall1 c f p).
Proof. unfold libcall1; alloc_only. Qed.

Lemma ao_libcall2 c f p q : allocates_only (libcall2 c f p q).
Proof. unfold libcall2; alloc_only. Qed.

#[local] Hint Resolve ao_libcall0 ao_libcall1 ao_libcall2 : alloc.

Lemma ao_map_M {A B} (f : A -> M B) l :
  (forall x, allocates_only (f x)) -> allocates_only (map_M f l).
Proof.
  intros Hf; induction l; simpl; alloc_only.
Qed.

Lemma rn_new o : returns_new (new o).
Proof.
  intros w r w' H; unfold new in H; injection H as <- <-; simpl.
  rewrite length_app; simpl; lia.
Qed.

Lemma rn_raise e : returns_new (raise e).
Proof. intros w r w' H; discriminate. Qed.

Lemma rn_bind {A} (m : M A) (k : A -> M loc) :
  allocates_only m -> (forall a, returns_new (k a)) ->
  returns_new (bind m k).
Proof.
  intros Hm Hk w r w' H; unfold bind in H.
  specialize (Hm w). destruct (m w) as [[a|e] w1]; simpl in *; [|discriminate].
  apply Hk in H. apply extends_length in Hm. lia.
Qed.

Lemma rn_bind_ret (m : M loc) :
  returns_new m -> returns_new (bind m (fun x => ret x)).
Proof.
  intros Hm w r w' H; unfold bind, ret in H.
  destruct (m w) as [[a|e] w1] eqn:E; [|discriminate].
  injection H as <- <-. eapply Hm; eauto.
Qed.

Ltac new_step :=
  match goal with
  | |- returns_new (bind _ (fun x => ret x)) => apply rn_bind_ret
  | |- returns_new (bind _ _) => apply rn_bind; [alloc_only | intros ?]
  | |- returns_new (if ?b then _ else _) => destruct b
  | |- returns_new (match ?p with (_, _) => _ end) => destruct p
  | |- returns_new (new _) => apply rn_new
  | |- returns_new (raise _) => apply rn_raise
  end.

Lemma rn_libcall0 c r : returns_new (libcall0 c r).
Proof. unfold libcall0; repeat new_step. Qed.

Lemma rn_libcall1 c f p : returns_new (libcall1 c f p).
Proof. unfold libcall1; repeat new_step. Qed.

Lemma rn_libcall2 c f p q : returns_new (libcall2 c f p q).
Proof. unfold libcall2; repeat new_step. Qed.

Section Frame.

Context {lib : Effectful.Library}.

Hypothesis Hlib : nonmutating lib.

#[local] Hint Resolve nm_array1 nm_array2 nm_linspace nm_mgrid nm_ufunc1
  nm_ufunc2 nm_multiply nm_abs nm_sqrt nm_exp nm_newaxis_front nm_newaxis_back
  nm_fft2 nm_ifft2 nm_fftshift nm_ifftshift nm_max nm_median_filter
  nm_gaussian_filter nm_Gaussian2DKernel nm_convolve_fft nm_wavedec2
  nm_thresholding_hard nm_thresholding_soft nm_waverec2 nm_frame_center
  nm_aperture_photometry : alloc.

Lemma ao_ndarray_ndim p : allocates_only (ndarray_ndim p).
Proof. unfold ndarray_ndim; alloc_only. Qed.

Lemma ao_ndarray_shape p : allocates_only (ndarray_shape p).
Proof. unfold ndarray_shape; alloc_only. Qed.

#[local] Hint Resolve ao_ndarray_ndim ao_ndarray_shape : alloc.

Lemma ao_fft array : allocates_only (Effectful.fft array).
Proof. unfold Effectful.fft; alloc_only. Qed.

Lemma ao_ifft array : allocates_only (Effectful.ifft array).
Proof. unfold Effectful.ifft; alloc_only. Qed.

Lemma rn_ifft array : returns_new (Effectful.ifft array).
Proof.
  unfold Effectful.ifft.
  do 2 (apply rn_bind; [alloc_only | intros ?]).
  apply rn_bind_ret, new_abs, Hlib.
Qed.

Lemma ao_frame_filter_gaussian2d array s mode :
  allocates_only (Effectful.frame_filter_gaussian2d array s mode).
Proof. unfold Effectful.frame_filter_gaussian2d; alloc_only. Qed.

Lemma rn_frame_filter_gaussian2d array s mode :
  returns_new (Effectful.frame_filter_gaussian2d array s mode).
Proof.
  unfold Effectful.frame_filter_gaussian2d.
  apply rn_bind; [alloc_only | intros nd].
  destruct (negb (nd =? 2)%nat); [apply rn_raise|].
  destruct (mode =? "conv")%string.
  { apply rn_bind_ret, new_gaussian_filter, Hlib. }
  destruct (mode =? "convfft")%string; [|apply rn_raise].
  apply rn_bind; [alloc_only | intros gaus].
  apply rn_bind_ret, new_convolve_fft, Hlib.
Qed.

#[local] Hint Resolve ao_fft ao_ifft ao_frame_filter_gaussian2d : alloc.

Lemma ao_frame_filter_highpass array mode ms ks fs :
  allocates_only (Effectful.frame_filter_highpass array mode ms ks fs).
Proof. unfold Effectful.frame_filter_highpass; cbv zeta; alloc_only. Qed.

Lemma rn_frame_filter_highpass array mode ms ks fs :
  returns_new (Effectful.frame_filter_highpass array mode ms ks fs).
Proof.
  unfold Effectful.frame_filter_highpass.
  apply rn_bind; [alloc_only | intros nd].
  destruct (negb (nd =? 2)%nat); [apply rn_raise|].
  destruct (mode =? "kernel-conv")%string.
  { cbv zeta. do 3 (apply rn_bind; [alloc_only | intros ?]).
    apply rn_bind_ret, new_convolve_fft, Hlib. }
  destruct (mode =? "median-subt")%string.
  { apply rn_bind; [alloc_only | intros medianed].
    apply rn_bind_ret, new_ufunc2, Hlib. }
  destruct (mode =? "gauss-subt")%string.
  { apply rn_bind; [alloc_only | intros gaussed].
    apply rn_bind_ret, new_ufunc2, Hlib. }
  destruct (mode =? "fourier-butter")%string; [|apply rn_raise].
  cbv zeta.
  repeat first [ apply rn_bind_ret, rn_ifft
               | apply rn_bind; [alloc_only | intros ?]
               | match goal with
                 | |- returns_new (match ?p with (_, _) => _ end) => destruct p
                 end ].
Qed.

Lemma ao_wavelet_denoise array wv thr lv thrmode :
  allocates_only (Effectful.wavelet_denoise array wv thr lv thrmode).
Proof.
  unfold Effectful.wavelet_denoise.
  repeat first [ apply ao_map_M; intros ? | alloc_step ].
Qed.

Lemma rn_wavelet_denoise array wv thr lv thrmode :
  returns_new (Effectful.wavelet_denoise array wv thr lv thrmode).
Proof.
  unfold Effectful.wavelet_denoise.
  apply rn_bind; [alloc_only | intros nd].
  destruct (negb (nd =? 2)%nat); [apply rn_raise|].
  apply rn_bind; [alloc_only | intros WC].
  apply rn_bind; [| intros NWC; apply rn_bind_ret, new_waverec2, Hlib].
  repeat first [ apply ao_map_M; intros ? | alloc_step ].
Qed.

Lemma ao_gaussian_kernel size size_y :
  allocates_only (Effectful.gaussian_kernel size size_y).
Proof. unfold Effectful.gaussian_kernel; cbv zeta; alloc_only. Qed.

Lemma rn_gaussian_kernel size size_y :
  returns_new (Effectful.gaussian_kernel size size_y).
Proof.
  unfold Effectful.gaussian_kernel; cbv zeta.
  repeat first [ apply new_ufunc1, Hlib
               | apply rn_bind; [alloc_only | intros ?]
               | match goal with
                 | |- returns_new (match ?p with (_, _) => _ end) => destruct p
                 end ].
Qed.

Lemma ao_run_call c : allocates_only (Effectful.run_call c).
Proof.
  destruct c; simpl.
  - apply ao_frame_filter_highpass.
  - apply ao_frame_filter_gaussian2d.
  - apply ao_wavelet_denoise.
  - apply ao_gaussian_kernel.
Qed.

Lemma rn_run_call c : returns_new (Effectful.run_call c).
Proof.
  destruct c; simpl.
  - apply rn_frame_filter_highpass.
  - apply rn_frame_filter_gaussian2d.
  - apply rn_wavelet_denoise.
  - apply rn_gaussian_kernel.
Qed.

End Frame.

(** The libraries that compute on values keep the contract. *)
Lemma functional_nonmutating {ext : Externals} : nonmutating functional.
Proof.
  split; intros; cbn;
    first
      [ apply rn_libcall1 | apply rn_libcall2 | apply rn_libcall0
      | cbv beta delta
          [np_array1 np_array2 np_linspace np_mgrid np_ufunc1 np_ufunc2
           np_multiply np_abs np_sqrt np_exp newaxis_front newaxis_back
           np_fft_fft2 np_fft_ifft2 np_fft_fftshift np_fft_ifftshift
           ndarray_max median_filter gaussian_filter Gaussian2DKernel
           convolve_fft pywt_wavedec2 pywt_thresholding_hard
           pywt_thresholding_soft pywt_waverec2 frame_center
           aperture_photometry];
        alloc_only ].
Qed.

(** With them the module is the one of Part IV. *)
Lemma functional_fft {ext : Externals} array :
  Effectful.fft (lib := functional) array = fft array.
Proof. reflexivity. Qed.

Lemma functional_ifft {ext : Externals} array :
  Effectful.ifft (lib := functional) array = ifft array.
Proof. reflexivity. Qed.

Lemma functional_frame_filter_highpass {ext : Externals} array mode ms ks fs :
  Effectful.frame_filter_highpass (lib := functional) array mode ms ks fs
  = frame_filter_highpass array mode ms ks fs.
Proof. reflexivity. Qed.

Lemma functional_frame_filter_gaussian2d {ext : Externals} array s mode :
  Effectful.frame_filter_gaussian2d (lib := functional) array s mode
  = frame_filter_gaussian2d array s mode.
Proof. reflexivity. Qed.

Lemma functional_wavelet_denoise {ext : Externals} array wv thr lv thrmode :
  Effectful.wavelet_denoise (lib := functional) array wv thr lv thrmode
  = wavelet_denoise array wv thr lv thrmode.
Proof. reflexivity. Qed.

Lemma functional_gaussian_kernel {ext : Externals} size size_y :
  Effectful.gaussian_kernel (lib := functional) size size_y
  = gaussian_kernel size size_y.
Proof. reflexivity. Qed.

(** C8: no public operation changes an object of the store it is called in,
    provided the library functions it calls do not: after the call, whether it
    returned or raised, every object that existed before (the input array
    among them) is found unchanged at its place, and a returned result is an
    object that did not exist before the call.  The module adds no write of
    its own and hands back no object it was given. *)
Theorem public_calls_do_not_mutate {lib : Effectful.Library}
    (c : Effectful.public_call) (w : world) :
  nonmutating lib ->
  preserves w (snd (Effectful.run_call c w)) /\
  (forall r, fst (Effectful.run_call c w) = Ok r ->
     fresh_in w (snd (Effectful.run_call c w)) r).
Proof.
  intros Hlib; split.
  - apply extends_preserves, ao_run_call, Hlib.
  - intros r Hr.
    destruct (Effectful.run_call c w) as [res w'] eqn:E; simpl in *; subst res.
    apply (rn_run_call Hlib) in E. unfold fresh_in, lookup. split.
    + apply nth_error_None; lia.
    + destruct (nth_error (heap w') r) eqn:F; [eauto|].
      apply nth_error_None in F; lia.
Qed.

(** C8, at the Gaussian filter of the 2 x 2 frame [[1, 2], [3, 4]], with the
    libraries that compute on values. *)
Lemma public_calls_do_not_mutate_witness :
  let run :=
    frame_filter_gaussian2d (ext := Toy.externals) 0%nat 3 "conv" Toy.w22 in
  preserves Toy.w22 (snd run) /\
  (forall r, fst run = Ok r -> fresh_in Toy.w22 (snd run) r).
Proof.
  exact (public_calls_do_not_mutate
           (lib := functional (ext := Toy.externals))
           (Effectful.CallGaussian2d 0%nat 3 "conv") Toy.w22
           functional_nonmutating).
Defined.

(** The contract is needed: with a library whose subtraction works in place,
    the [median-subt] mode hands back the very object it was given, and the
    caller's frame [[1, 2], [3, 4]] is no longer what it was. *)
Lemma in_place_library_mutates :
  let run :=
    Effectful.frame_filter_highpass (lib := in_place (ext := Toy.externals))
      0%nat "median-subt" 1 5 5 Toy.w22 in
  fst run = Ok 0%nat /\
  lookup (snd run) 0%nat
  = Some (ArrR (mk_ndarray [2%nat; 2%nat] [1 - 1; 2 - 2; 3 - 3; 4 - 4])) /\
  lookup (snd run) 0%nat <> lookup Toy.w22 0%nat.
Proof.
  cbv zeta.
  assert (E : Effectful.frame_filter_highpass
                (lib := in_place (ext := Toy.externals))
                0%nat "median-subt" 1 5 5 Toy.w22
              = (Ok 0%nat,
                 mk_world
                   [ArrR (mk_ndarray [2%nat; 2%nat]
                            [1 - 1; 2 - 2; 3 - 3; 4 - 4]);
                    ArrR (mk_ndarray [2%nat; 2%nat] [1; 2; 3; 4])]
                   [ScipyMedianFilter; NpUfunc])).
  { reflexivity. }
  rewrite E; cbn [fst snd]. split; [reflexivity|]. split; [reflexivity|].
  unfold lookup, Toy.w22, Toy.frame22; cbn [heap nth_error].
  intros H.
  apply (f_equal (fun o => match o with
                           | Some (ArrR a) => nth 0 (data a) 0
                           | _ => 0
                           end)) in H.
  cbn [nth data] in H. lra.
Qed.

Lemma in_place_breaks_contract : ~ nonmutating (in_place (ext := Toy.externals)).
Proof.
  intros H.
  destruct in_place_library_mutates as (_ & _ & Hne). apply Hne.
  apply (extends_preserves _ _
           (ao_frame_filter_highpass H 0%nat "median-subt" 1%Z 5%Z 5 Toy.w22)).
  reflexivity.
Qed.

(* ================================================================== *)
(** * Part XI: arrays *)
(* ================================================================== *)

Lemma length_tab_data {A} r c (f : nat -> nat -> A) :
  length (tab_data r c f) = (r * c)%nat.
Proof.
  unfold tab_data. generalize 0%nat at 2.
  induction r as [|r IH]; intros s; simpl; [reflexivity|].
  rewrite length_app, length_map, length_seq, IH; reflexivity.
Qed.

Lemma nth_tab_data_from {A} (d : A) c (f : nat -> nat -> A) r :
  forall s i j, (i < r)%nat -> (j < c)%nat ->
    nth (i * c + j) (flat_map (fun i => map (f i) (seq 0 c)) (seq s r)) d
    = f (s + i)%nat j.
Proof.
  induction r as [|r IH]; intros s i j Hi Hj; [lia|].
  simpl. destruct i as [|i].
  - simpl. rewrite app_nth1 by (rewrite length_map, length_seq; lia).
    rewrite (nth_indep _ d (f s 0%nat))
      by (rewrite length_map, length_seq; lia).
    rewrite map_nth, seq_nth by lia. f_equal; lia.
  - rewrite app_nth2 by (rewrite length_map, length_seq; simpl; lia).
    rewrite length_map, length_seq.
    replace (S i * c + j - c)%nat with (i * c + j)%nat by (simpl; lia).
    rewrite IH by lia. f_equal; lia.
Qed.

Lemma nth_tab_data {A} (d : A) r c (f : nat -> nat -> A) i j :
  (i < r)%nat -> (j < c)%nat -> nth (i * c + j) (tab_data r c f) d = f i j.
Proof. intros; unfold tab_data; rewrite nth_tab_data_from; auto. Qed.

Lemma get2_tabulate2 {A} (d : A) r c (f : nat -> nat -> A) i j :
  (i < r)%nat -> (j < c)%nat -> get2 d (tabulate2 r c f) i j = f i j.
Proof. intros; unfold get2; simpl; apply nth_tab_data; auto. Qed.

Lemma tab_data_ext {A} r c (f g : nat -> nat -> A) :
  (forall i j, (i < r)%nat -> (j < c)%nat -> f i j = g i j) ->
  tab_data r c f = tab_data r c g.
Proof.
  intros H; unfold tab_data.
  assert (E : forall s n, (s + n <= r)%nat ->
            flat_map (fun i => map (f i) (seq 0 c)) (seq s n)
            = flat_map (fun i => map (g i) (seq 0 c)) (seq s n)).
  { intros s n; revert s; induction n as [|n IH]; intros s Hs; simpl; auto.
    rewrite IH by lia. f_equal.
    apply map_ext_in; intros j Hj; apply in_seq in Hj; apply H; lia. }
  apply E; lia.
Qed.

Lemma tabulate2_ext {A} r c (f g : nat -> nat -> A) :
  (forall i j, (i < r)%nat -> (j < c)%nat -> f i j = g i j) ->
  tabulate2 r c f = tabulate2 r c g.
Proof. intros H; unfold tabulate2; f_equal; apply tab_data_ext; auto. Qed.

Lemma map_tab_data {A B} (h : A -> B) r c (f : nat -> nat -> A) :
  map h (tab_data r c f) = tab_data r c (fun i j => h (f i j)).
Proof.
  unfold tab_data. generalize 0%nat at 2 4.
  induction r as [|r IH]; intros s; simpl; [reflexivity|].
  rewrite map_app, map_map, IH; reflexivity.
Qed.

Lemma amap_tabulate2 {A B} (h : A -> B) r c (f : nat -> nat -> A) :
  amap h (tabulate2 r c f) = tabulate2 r c (fun i j => h (f i j)).
Proof. unfold amap, tabulate2; simpl; rewrite map_tab_data; reflexivity. Qed.

Lemma In_tab_data {A} r c (f : nat -> nat -> A) x :
  In x (tab_data r c f) ->
  exists i j, (i < r)%nat /\ (j < c)%nat /\ x = f i j.
Proof.
  unfold tab_data; intros H. apply in_flat_map in H.
  destruct H as (i & Hi & H). apply in_map_iff in H.
  destruct H as (j & <- & Hj). apply in_seq in Hi, Hj.
  exists i, j; repeat split; lia.
Qed.

(** Stretching does nothing inside a 2-D array. *)
Lemma bget_get2 {A} (d : A) (a : ndarray A) r c i j :
  shape a = [r; c] -> (i < r)%nat -> (j < c)%nat ->
  bget d a i j = get2 d a i j.
Proof.
  intros Hs Hi Hj; unfold bget, get2, ncols; rewrite Hs; simpl.
  destruct (r =? 1)%nat eqn:Er; destruct (c =? 1)%nat eqn:Ec;
    try apply Nat.eqb_eq in Er; try apply Nat.eqb_eq in Ec;
    f_equal; lia.
Qed.

Lemma bdim_same d : bdim d d = Some d.
Proof. unfold bdim; rewrite Nat.eqb_refl; reflexivity. Qed.

Lemma broadcast2_same_shape {A B D} (da : A) (db : B) (f : A -> B -> D)
    a b r c :
  shape a = [r; c] -> shape b = [r; c] ->
  broadcast2 da db f a b
  = Ok (tabulate2 r c (fun i j => f (get2 da a i j) (get2 db b i j))).
Proof.
  intros Ha Hb; unfold broadcast2, ndim; rewrite Ha, Hb; simpl.
  rewrite !bdim_same; simpl. unfold tabulate2; do 2 f_equal.
  apply tab_data_ext; intros i j Hi Hj.
  rewrite (bget_get2 da a r c), (bget_get2 db b r c) by auto; reflexivity.
Qed.

Lemma ufunc2_same_shape f a b r c :
  shape a = [r; c] -> shape b = [r; c] ->
  Numpy.ufunc2 f (ArrR a) (ArrR b)
  = Ok (ArrR (tabulate2 r c (fun i j => f (get2 0 a i j) (get2 0 b i j)))).
Proof.
  intros Ha Hb; unfold Numpy.ufunc2.
  rewrite (broadcast2_same_shape 0 0 f a b r c Ha Hb); reflexivity.
Qed.

(* ================================================================== *)
(** * Part XII: the median filter and the [median-subt] mode *)
(* ================================================================== *)

Lemma insert_perm x l : Permutation (x :: l) (Scipy.insert x l).
Proof.
  induction l as [|y l IH]; simpl; [reflexivity|].
  destruct (Rle_dec x y); [reflexivity|].
  rewrite perm_swap; apply perm_skip; exact IH.
Qed.

Lemma sort_perm l : Permutation l (Scipy.sort l).
Proof.
  induction l as [|x l IH]; simpl; [constructor|].
  rewrite <- insert_perm; apply perm_skip; exact IH.
Qed.

Lemma insert_sorted x l : Sorted Rle l -> Sorted Rle (Scipy.insert x l).
Proof.
  induction l as [|y l IH]; intros Hs; simpl.
  - repeat constructor.
  - destruct (Rle_dec x y) as [Hxy|Hxy].
    + constructor; [exact Hs | constructor; exact Hxy].
    + inversion Hs as [|? ? Hs' Hd]; subst.
      constructor; [apply IH; exact Hs'|].
      destruct l as [|z l]; simpl.
      * constructor; lra.
      * destruct (Rle_dec x z); constructor; try lra.
        inversion Hd; subst; assumption.
Qed.

Lemma sort_sorted l : Sorted Rle (Scipy.sort l).
Proof.
  induction l as [|x l IH]; simpl; [constructor | apply insert_sorted, IH].
Qed.

Lemma length_window a s i j :
  length (Scipy.window a s i j) = (s * s)%nat.
Proof. apply (length_tab_data s s). Qed.

(** The window of the filter is the clamped neighbourhood. *)
Lemma window_neighbourhood a r c s i j :
  shape a = [r; c] -> (i < r)%nat -> (j < c)%nat ->
  Scipy.window a s i j = neighbourhood a r c s i j.
Proof.
  intros Hs Hi Hj; unfold Scipy.window, neighbourhood.
  apply (tab_data_ext s s); intros di dj Hdi Hdj.
  unfold nrows, ncols, clamp; rewrite Hs; cbn [nth].
  assert (Z.of_nat (s / 2) = (Z.of_nat s / 2)%Z) as E
    by (rewrite Nat2Z.inj_div; reflexivity).
  rewrite <- E. f_equal; lia.
Qed.

Lemma median_at_is_median a r c s i j :
  shape a = [r; c] -> (i < r)%nat -> (j < c)%nat ->
  is_median (neighbourhood a r c s i j) (Scipy.median_at a s i j).
Proof.
  intros Hs Hi Hj.
  rewrite <- (window_neighbourhood a r c s i j Hs Hi Hj).
  exists (Scipy.sort (Scipy.window a s i j)); repeat split.
  - apply sort_perm.
  - apply sort_sorted.
  - unfold Scipy.median_at; rewrite length_window; reflexivity.
Qed.

Lemma median_at_constant a r c s i j v :
  shape a = [r; c] -> (0 < s)%nat -> (i < r)%nat -> (j < c)%nat ->
  (forall i' j', (i' < r)%nat -> (j' < c)%nat -> get2 0 a i' j' = v) ->
  Scipy.median_at a s i j = v.
Proof.
  intros Hs Hpos Hi Hj Hv; unfold Scipy.median_at.
  assert (F : Forall (fun x => x = v) (Scipy.sort (Scipy.window a s i j))).
  { eapply Permutation_Forall; [apply sort_perm|].
    apply Forall_forall; intros x Hx.
    apply (In_tab_data s s) in Hx. destruct Hx as (di & dj & _ & _ & ->).
    unfold nrows, ncols; rewrite Hs; simpl. apply Hv; lia. }
  rewrite Forall_forall in F. apply F, nth_In.
  rewrite <- (Permutation_length (sort_perm _)), length_window.
  apply Nat.Div0.div_lt_upper_bound; nia.
Qed.

Lemma median_filter_value a r c ms :
  shape a = [r; c] -> (1 <= ms)%Z ->
  Scipy.median_filter (ArrR a) ms "nearest"
  = Ok (ArrR (tabulate2 r c (Scipy.median_at a (Z.to_nat ms)))).
Proof.
  intros Hs Hm; unfold Scipy.median_filter.
  replace (ms <? 1)%Z with false by (symmetry; apply Z.ltb_ge; lia).
  rewrite Hs; reflexivity.
Qed.

Section MedianSubt.

Context {ext : Externals}.

Lemma highpass_median_subt_run h t array a r c ms ks fs :
  lookup (mk_world h t) array = Some (ArrR a) ->
  shape a = [r; c] -> (1 <= ms)%Z ->
  let medianed := tabulate2 r c (Scipy.median_at a (Z.to_nat ms)) in
  let filtered :=
    tabulate2 r c (fun i j => get2 0 a i j - get2 0 medianed i j) in
  frame_filter_highpass array "median-subt" ms ks fs (mk_world h t)
  = (Ok (S (length h)),
     mk_world (h ++ [ArrR medianed; ArrR filtered])
              (t ++ [ScipyMedianFilter; NpUfunc])).
Proof.
  intros Hl Hs Hm medianed filtered.
  rewrite (highpass_2d_step _ _ _ _ _ _ _ Hl)
    by (unfold obj_ndim; simpl; rewrite Hs; reflexivity).
  cbn [String.eqb Ascii.eqb Bool.eqb].
  unfold median_filter.
  erewrite bind_ok
    by (eapply libcall1_ok; [exact Hl | apply median_filter_value; eauto]).
  unfold np_ufunc2.
  erewrite bind_ok.
  2:{ eapply libcall2_ok.
      - eapply lookup_weaken; exact Hl.
      - apply lookup_last.
      - apply (ufunc2_same_shape Rminus a medianed r c Hs); reflexivity. }
  unfold ret; cbn [heap trace].
  rewrite length_app, <- !app_assoc; simpl.
  rewrite Nat.add_1_r; reflexivity.
Qed.

(** C5: on a 2-D array, mode ['median-subt'] returns the array minus its
    median-filtered version, each pixel of the latter being the median of the
    square neighbourhood of side [median_size] with nearest-pixel handling of
    the border; on a constant frame (the 10 x 10 frame with [median_size = 3]
    in particular) the result is zero everywhere. *)
Theorem highpass_median_subt w array a r c ms ks fs :
  lookup w array = Some (ArrR a) ->
  shape a = [r; c] -> (1 <= ms)%Z ->
  let s := Z.to_nat ms in
  let medianed := tabulate2 r c (Scipy.median_at a s) in
  let filtered :=
    tabulate2 r c (fun i j => get2 0 a i j - get2 0 medianed i j) in
  frame_filter_highpass array "median-subt" ms ks fs w
  = (Ok (S (length (heap w))),
     mk_world (heap w ++ [ArrR medianed; ArrR filtered])
              (trace w ++ [ScipyMedianFilter; NpUfunc])) /\
  (forall i j, (i < r)%nat -> (j < c)%nat ->
     is_median (neighbourhood a r c s i j) (get2 0 medianed i j)) /\
  (forall v,
     (forall i j, (i < r)%nat -> (j < c)%nat -> get2 0 a i j = v) ->
     filtered = tabulate2 r c (fun _ _ => 0)).
Proof.
  intros Hl Hs Hm s medianed filtered. split; [|split].
  - destruct w as [h t]; apply highpass_median_subt_run; auto.
  - intros i j Hi Hj. unfold medianed.
    rewrite get2_tabulate2 by auto.
    apply median_at_is_median; auto.
  - intros v Hv. apply tabulate2_ext; intros i j Hi Hj.
    unfold medianed. rewrite get2_tabulate2 by auto.
    rewrite Hv by auto.
    rewrite (median_at_constant a r c s i j v) by (auto; unfold s; lia).
    lra.
Qed.

End MedianSubt.

(** C5, at the 10 x 10 frame that is 7 everywhere, with [median_size = 3]. *)
Lemma highpass_median_subt_witness :
  let a := tabulate2 10 10 (fun _ _ => 7) in
  let w := mk_world [ArrR a] [] in
  exists medianed,
    frame_filter_highpass (ext := Toy.externals) 0%nat "median-subt" 3%Z 5%Z 5 w
    = (Ok 2%nat,
       mk_world [ArrR a; ArrR medianed; ArrR (tabulate2 10 10 (fun _ _ => 0))]
                [ScipyMedianFilter; NpUfunc]).
Proof.
  intros a w.
  destruct (highpass_median_subt (ext := Toy.externals) w 0%nat a 10 10 3%Z 5%Z 5
              eq_refl eq_refl ltac:(lia)) as (Hrun & _ & Hconst).
  rewrite <- (Hconst 7).
  - eexists; exact Hrun.
  - intros i j Hi Hj; unfold a; apply get2_tabulate2; auto.
Defined.

(* ================================================================== *)
(** * Part XIII: the Gaussian kernel *)
(* ================================================================== *)

Ltac solve_lookup :=
  first [ apply lookup_last
        | match goal with
          | H : lookup _ ?p = Some _ |- lookup _ ?p = Some _ => exact H
          end
        | apply lookup_weaken; solve_lookup ].

Lemma np_ufunc1_ok f p a w :
  lookup w p = Some (ArrR a) ->
  np_ufunc1 f p w
  = (Ok (length (heap w)),
     mk_world (heap w ++ [ArrR (amap f a)]) (trace w ++ [NpUfunc])).
Proof. intros H; eapply libcall1_ok; eauto. Qed.

Lemma mgrid_ok lo1 hi1 lo2 hi2 :
  (lo1 <= hi1)%Z -> (lo2 <= hi2)%Z ->
  Numpy.mgrid lo1 hi1 lo2 hi2
  = Ok (ArrR (tabulate2 (Z.to_nat (hi1 - lo1)) (Z.to_nat (hi2 - lo2))
                (fun i _ => IZR (lo1 + Z.of_nat i))),
        ArrR (tabulate2 (Z.to_nat (hi1 - lo1)) (Z.to_nat (hi2 - lo2))
                (fun _ j => IZR (lo2 + Z.of_nat j)))).
Proof.
  intros H1 H2; unfold Numpy.mgrid.
  replace (hi1 - lo1 <? 0)%Z with false by (symmetry; apply Z.ltb_ge; lia).
  replace (hi2 - lo2 <? 0)%Z with false by (symmetry; apply Z.ltb_ge; lia).
  reflexivity.
Qed.

Lemma mgrid_negative lo1 hi1 lo2 hi2 :
  (hi1 < lo1 \/ hi2 < lo2)%Z ->
  Numpy.mgrid lo1 hi1 lo2 hi2
  = Raise (ValueError "negative dimensions are not allowed").
Proof.
  intros H; unfold Numpy.mgrid.
  replace ((hi1 - lo1 <? 0) || (hi2 - lo2 <? 0))%Z with true; [reflexivity|].
  symmetry; apply orb_true_iff.
  destruct H; [left | right]; apply Z.ltb_lt; lia.
Qed.

Lemma np_mgrid_ok lo1 hi1 lo2 hi2 h t :
  (lo1 <= hi1)%Z -> (lo2 <= hi2)%Z ->
  np_mgrid lo1 hi1 lo2 hi2 (mk_world h t)
  = (Ok (length h,
         length
           (h ++ [ArrR (tabulate2 (Z.to_nat (hi1 - lo1)) (Z.to_nat (hi2 - lo2))
                          (fun i _ => IZR (lo1 + Z.of_nat i)))])),
     mk_world
       ((h ++ [ArrR (tabulate2 (Z.to_nat (hi1 - lo1)) (Z.to_nat (hi2 - lo2))
                       (fun i _ => IZR (lo1 + Z.of_nat i)))])
          ++ [ArrR (tabulate2 (Z.to_nat (hi1 - lo1)) (Z.to_nat (hi2 - lo2))
                      (fun _ j => IZR (lo2 + Z.of_nat j)))])
       (t ++ [NpMgrid])).
Proof.
  intros H1 H2; unfold np_mgrid, bind, emit, lift, new, ret; cbn [heap trace].
  rewrite (mgrid_ok _ _ _ _ H1 H2); reflexivity.
Qed.

Lemma np_mgrid_negative lo1 hi1 lo2 hi2 w :
  (hi1 < lo1 \/ hi2 < lo2)%Z ->
  np_mgrid lo1 hi1 lo2 hi2 w
  = (Raise (ValueError "negative dimensions are not allowed"),
     mk_world (heap w) (trace w ++ [NpMgrid])).
Proof.
  intros H; unfold np_mgrid, bind, emit, lift; cbn [heap trace].
  rewrite (mgrid_negative _ _ _ _ H); reflexivity.
Qed.

Lemma ndarray_max_ok p a w :
  lookup w p = Some (ArrR a) -> data a <> [] ->
  ndarray_max p w
  = (Ok (list_max (data a)), mk_world (heap w) (trace w ++ [NpMax])).
Proof.
  intros Hl Hd; unfold ndarray_max.
  rewrite (bind_ok _ _ _ _ _ (load_ok _ _ _ Hl)).
  unfold bind, emit, lift; simpl.
  destruct (data a); [congruence | reflexivity].
Qed.

Lemma fold_left_Rmax_ge l : forall x, x <= fold_left Rmax l x.
Proof.
  induction l as [|y l IH]; intros x; simpl; [lra|].
  eapply Rle_trans; [apply (Rmax_l x y) | apply IH].
Qed.

Lemma fold_left_Rmax_upper l :
  forall x y, In y (x :: l) -> y <= fold_left Rmax l x.
Proof.
  induction l as [|z l IH]; intros x y Hy; simpl.
  - destruct Hy as [->|[]]; lra.
  - destruct Hy as [->|[->|Hy]].
    + eapply Rle_trans; [apply (Rmax_l y z) | apply fold_left_Rmax_ge].
    + eapply Rle_trans; [apply (Rmax_r x y) | apply fold_left_Rmax_ge].
    + apply IH; right; exact Hy.
Qed.

Lemma fold_left_Rmax_in l : forall x, In (fold_left Rmax l x) (x :: l).
Proof.
  induction l as [|z l IH]; intros x; simpl; [auto|].
  destruct (IH (Rmax x z)) as [H|H].
  - rewrite <- H. destruct (Rmax_case x z (fun m => m = x \/ m = z));
      auto.
  - right; right; exact H.
Qed.

Lemma list_max_upper l y : In y l -> y <= list_max l.
Proof.
  destruct l as [|x l]; [intros []|]. apply fold_left_Rmax_upper.
Qed.

Lemma list_max_in l : l <> [] -> In (list_max l) l.
Proof.
  destruct l as [|x l]; [congruence|]. intros _; apply fold_left_Rmax_in.
Qed.

Lemma tab_data_nonempty {A} r c (f : nat -> nat -> A) :
  (0 < r)%nat -> (0 < c)%nat -> tab_data r c f <> [].
Proof.
  intros Hr Hc E. apply (f_equal (@length A)) in E.
  rewrite length_tab_data in E; simpl in E. nia.
Qed.

Lemma In_tab_data_intro {A} r c (f : nat -> nat -> A) i j :
  (i < r)%nat -> (j < c)%nat -> In (f i j) (tab_data r c f).
Proof.
  intros Hi Hj; unfold tab_data. apply in_flat_map.
  exists i; split; [apply in_seq; lia|].
  apply in_map, in_seq; lia.
Qed.

(** The largest entry of a non-empty table. *)
Lemma list_max_tabulate2 r c f :
  (0 < r)%nat -> (0 < c)%nat ->
  max_entry_is (tabulate2 r c f) (list_max (tab_data r c f)).
Proof.
  intros Hr Hc; split.
  - intros i j Hi Hj. unfold nrows, ncols in *; simpl in *.
    rewrite get2_tabulate2 by auto.
    apply list_max_upper, In_tab_data_intro; auto.
  - destruct (In_tab_data r c f _
                (list_max_in _ (tab_data_nonempty r c f Hr Hc)))
      as (i & j & Hi & Hj & E).
    exists i, j; unfold nrows, ncols; simpl; repeat split; auto.
    rewrite get2_tabulate2 by auto; symmetry; exact E.
Qed.

(** Division of a 2-D array by a one-element array. *)
Lemma ufunc2_scalar f a r c v :
  shape a = [r; c] ->
  Numpy.ufunc2 f (ArrR a) (ArrR (mk_ndarray [1%nat] [v]))
  = Ok (ArrR (tabulate2 r c (fun i j => f (get2 0 a i j) v))).
Proof.
  intros Ha; unfold Numpy.ufunc2, broadcast2, ndim; rewrite Ha; simpl.
  assert (Er : bdim r 1 = Some r).
  { unfold bdim. destruct (r =? 1)%nat eqn:E; [reflexivity|].
    simpl. reflexivity. }
  assert (Ec : bdim c 1 = Some c).
  { unfold bdim. destruct (c =? 1)%nat eqn:E; [reflexivity|].
    simpl. reflexivity. }
  rewrite Er, Ec; simpl. unfold tabulate2; do 3 f_equal.
  apply tab_data_ext; intros i j Hi Hj.
  rewrite (bget_get2 0 a r c) by auto. reflexivity.
Qed.

Lemma ufunc2_tabulate2 f r c fa fb :
  Numpy.ufunc2 f (ArrR (tabulate2 r c fa)) (ArrR (tabulate2 r c fb))
  = Ok (ArrR (tabulate2 r c (fun i j => f (fa i j) (fb i j)))).
Proof.
  rewrite (ufunc2_same_shape f _ _ r c) by reflexivity.
  do 2 f_equal. apply tabulate2_ext; intros i j Hi Hj.
  rewrite !get2_tabulate2 by auto; reflexivity.
Qed.

Lemma ufunc2_scalar_tabulate2 f r c fa v :
  Numpy.ufunc2 f (ArrR (tabulate2 r c fa)) (ArrR (mk_ndarray [1%nat] [v]))
  = Ok (ArrR (tabulate2 r c (fun i j => f (fa i j) v))).
Proof.
  rewrite (ufunc2_scalar f _ r c) by reflexivity.
  do 2 f_equal. apply tabulate2_ext; intros i j Hi Hj.
  rewrite !get2_tabulate2 by auto; reflexivity.
Qed.

Section Kernel.

Context {ext : Externals}.

Lemma frame_center_ok p o pos w :
  lookup w p = Some o -> ext_frame_center o = Ok pos ->
  frame_center p w = (Ok pos, mk_world (heap w) (trace w ++ [VipFrameCenter])).
Proof.
  intros Hl He; unfold frame_center.
  rewrite (bind_ok _ _ _ _ _ (load_ok _ _ _ Hl)).
  unfold bind, emit, lift; simpl; rewrite He; reflexivity.
Qed.

Lemma aperture_photometry_ok p o pos r flux w :
  lookup w p = Some o -> ext_aperture_sum o pos r = Ok flux ->
  aperture_photometry p pos r w
  = (Ok flux, mk_world (heap w) (trace w ++ [PhotutilsAperturePhotometry])).
Proof.
  intros Hl He; unfold aperture_photometry.
  rewrite (bind_ok _ _ _ _ _ (load_ok _ _ _ Hl)).
  unfold bind, emit, lift; simpl; rewrite He; reflexivity.
Qed.

Ltac ufunc1_step :=
  erewrite bind_ok by (apply np_ufunc1_ok; solve_lookup);
  cbn [heap trace]; rewrite amap_tabulate2.

Lemma kernel_on_grid_run h t n ny pos flux :
  (0 <= n)%Z -> (0 <= ny)%Z ->
  let g := gaussian_grid n ny in
  let r := Z.to_nat (2 * n + 1) in
  let c := Z.to_nat (2 * ny + 1) in
  ext_frame_center (ArrR g) = Ok pos ->
  ext_aperture_sum (ArrR g) pos (IZR n / 2) = Ok flux ->
  let g_norm := tabulate2 r c (fun i j => gaussian_value n ny i j / flux) in
  let peak := list_max (data g_norm) in
  exists w',
    kernel_on_grid n ny (mk_world h t) = (Ok (length h + 11)%nat, w') /\
    lookup w' (length h + 11)%nat
    = Some (ArrR (tabulate2 r c
                    (fun i j => gaussian_value n ny i j / flux / peak))).
Proof.
  intros Hn Hny g r c Hc Hf g_norm peak.
  unfold kernel_on_grid.
  rewrite (bind_ok _ _ _ _ _
             (np_mgrid_ok (- n) (n + 1) (- ny) (ny + 1) h t
                ltac:(lia) ltac:(lia))).
  replace (Z.to_nat (n + 1 - - n)) with r by (unfold r; lia).
  replace (Z.to_nat (ny + 1 - - ny)) with c by (unfold c; lia).
  do 4 ufunc1_step.
  unfold np_ufunc2 at 1.
  erewrite bind_ok
    by (eapply libcall2_ok;
        [solve_lookup | solve_lookup | apply ufunc2_tabulate2]).
  cbn [heap trace].
  ufunc1_step. unfold np_exp. ufunc1_step.
  erewrite bind_ok by (eapply frame_center_ok; [solve_lookup | exact Hc]).
  cbn [heap trace].
  erewrite bind_ok
    by (eapply aperture_photometry_ok; [solve_lookup | exact Hf]).
  cbn [heap trace].
  unfold np_array1.
  erewrite bind_ok by (apply libcall0_ok; reflexivity).
  cbn [heap trace].
  unfold np_ufunc2.
  erewrite bind_ok
    by (eapply libcall2_ok;
        [solve_lookup | solve_lookup | apply ufunc2_scalar_tabulate2]).
  cbn [heap trace].
  erewrite bind_ok.
  2:{ eapply ndarray_max_ok; [solve_lookup|].
      apply tab_data_nonempty; unfold r, c; lia. }
  cbn [heap trace].
  erewrite np_ufunc1_ok by solve_lookup.
  cbn [heap trace]; rewrite amap_tabulate2.
  eexists; split.
  - f_equal. f_equal. rewrite !length_app; simpl; lia.
  - unfold lookup; cbn [heap].
    rewrite nth_error_app2; rewrite !length_app; cbn [length]; [|lia].
    replace (length h + 11 - _)%nat with 0%nat by lia.
    reflexivity.
Qed.

Lemma gaussian_value_pos n ny i j : 0 < gaussian_value n ny i j.
Proof. apply exp_pos. Qed.

(** Dividing a table of positive entries by its largest entry gives a table
    whose largest entry is 1. *)
Lemma peak_normalised r c f :
  (0 < r)%nat -> (0 < c)%nat ->
  (forall i j, 0 < f i j) ->
  max_entry_is
    (tabulate2 r c (fun i j => f i j / list_max (tab_data r c f))) 1.
Proof.
  intros Hr Hc Hf.
  destruct (list_max_tabulate2 r c f Hr Hc) as (Hup & i0 & j0 & Hi0 & Hj0 & E).
  unfold nrows, ncols in *; simpl in *.
  rewrite get2_tabulate2 in E by auto.
  assert (Hp : 0 < list_max (tab_data r c f)) by (rewrite <- E; apply Hf).
  split.
  - intros i j Hi Hj. rewrite get2_tabulate2 by auto.
    specialize (Hup i j Hi Hj). rewrite get2_tabulate2 in Hup by auto.
    apply (Rmult_le_reg_r (list_max (tab_data r c f))); [exact Hp|].
    unfold Rdiv; rewrite Rmult_assoc, Rinv_l by lra. lra.
  - exists i0, j0; repeat split; auto.
    rewrite get2_tabulate2 by auto. rewrite E.
    unfold Rdiv; apply Rinv_r; lra.
Qed.

(** C6: for a valid size (both extents at least 1, the second one being
    [size] when [size_y] is falsy) and a positive aperture flux,
    [gaussian_kernel] returns the table of
    [exp (-(x^2/size + y^2/size_y))] over the grid
    [-size .. size] x [-size_y .. size_y], divided first by the flux of the
    aperture of radius [size / 2] placed at the frame centre and then by the
    largest entry of that quotient; the largest entry of the result is 1. *)
Theorem gaussian_kernel_peak w size size_y n ny pos flux :
  py_int size = Ok n ->
  (if negb (truthy size_y) then Ok n else py_int size_y) = Ok ny ->
  (1 <= n)%Z -> (1 <= ny)%Z ->
  ext_frame_center (ArrR (gaussian_grid n ny)) = Ok pos ->
  ext_aperture_sum (ArrR (gaussian_grid n ny)) pos (IZR n / 2) = Ok flux ->
  0 < flux ->
  let r := Z.to_nat (2 * n + 1) in
  let c := Z.to_nat (2 * ny + 1) in
  let g_norm := tabulate2 r c (fun i j => gaussian_value n ny i j / flux) in
  exists p w' peak,
    gaussian_kernel size size_y w = (Ok p, w') /\
    max_entry_is g_norm peak /\
    lookup w' p
    = Some (ArrR (tabulate2 r c
                    (fun i j => gaussian_value n ny i j / flux / peak))) /\
    max_entry_is
      (tabulate2 r c (fun i j => gaussian_value n ny i j / flux / peak)) 1.
Proof.
  intros Hsz Hsy Hn Hny Hc Hf Hflux r c g_norm.
  destruct w as [h t].
  destruct (kernel_on_grid_run h t n ny pos flux ltac:(lia) ltac:(lia) Hc Hf)
    as (w' & Hrun & Hres).
  exists (length h + 11)%nat, w', (list_max (data g_norm)).
  assert (Hr : (0 < r)%nat) by (unfold r; lia).
  assert (Hcc : (0 < c)%nat) by (unfold c; lia).
  repeat split.
  - rewrite (gaussian_kernel_resolved _ _ _ _ _ Hsz Hsy); exact Hrun.
  - apply (list_max_tabulate2 r c _ Hr Hcc).
  - apply (list_max_tabulate2 r c _ Hr Hcc).
  - exact Hres.
  - apply (peak_normalised r c (fun i j => gaussian_value n ny i j / flux)
             Hr Hcc).
    intros i j. apply Rdiv_lt_0_compat; [apply gaussian_value_pos | exact Hflux].
  - apply (peak_normalised r c (fun i j => gaussian_value n ny i j / flux)
             Hr Hcc).
    intros i j. apply Rdiv_lt_0_compat; [apply gaussian_value_pos | exact Hflux].
Qed.

End Kernel.

Lemma Rsum_nonneg l : (forall x, In x l -> 0 <= x) -> 0 <= Toy.Rsum l.
Proof.
  induction l as [|y l IH]; intros H; simpl; [lra|].
  pose proof (H y (or_introl eq_refl)).
  assert (0 <= Toy.Rsum l) by (apply IH; intros; apply H; right; auto).
  lra.
Qed.

Lemma Rsum_pos l x :
  (forall y, In y l -> 0 <= y) -> In x l -> 0 < x -> 0 < Toy.Rsum l.
Proof.
  induction l as [|y l IH]; intros H Hx Hp; [destruct Hx|]. simpl.
  pose proof (H y (or_introl eq_refl)).
  assert (0 <= Toy.Rsum l) by (apply Rsum_nonneg; intros; apply H; right; auto).
  destruct Hx as [->|Hx]; [lra|].
  assert (0 < Toy.Rsum l) by (apply IH; auto; intros; apply H; right; auto).
  lra.
Qed.

(** The flux measured by the toy aperture on the 3 x 3 kernel. *)
Lemma toy_flux_positive :
  forall flux,
    Toy.aperture_sum (ArrR (gaussian_grid 1 1))
      ((INR 3 - 1) / 2, (INR 3 - 1) / 2) (IZR 1 / 2) = Ok flux ->
    0 < flux.
Proof.
  intros flux H. unfold Toy.aperture_sum in H.
  change (nrows (gaussian_grid 1 1)) with 3%nat in H.
  change (ncols (gaussian_grid 1 1)) with 3%nat in H.
  apply (f_equal (fun r => match r with Ok x => x | Raise _ => 0 end)) in H.
  cbv beta iota in H. rewrite <- H. clear H flux.
  assert (G : forall i j, (i < 3)%nat -> (j < 3)%nat ->
                0 < get2 0 (gaussian_grid 1 1) i j).
  { intros i j Hi Hj. unfold gaussian_grid.
    change (Z.to_nat (2 * 1 + 1)) with 3%nat.
    rewrite get2_tabulate2 by auto. apply gaussian_value_pos. }
  match goal with
  | |- 0 < Toy.Rsum (tab_data 3 3 ?f) =>
      apply (Rsum_pos _ (f 1%nat 1%nat))
  end.
  - intros y Hy. apply In_tab_data in Hy.
    destruct Hy as (i & j & Hi & Hj & ->).
    destruct (Rle_dec _ _); [left; apply G; auto | lra].
  - match goal with
    | |- In _ (tab_data 3 3 ?f) =>
        apply (In_tab_data_intro 3 3 f 1%nat 1%nat); lia
    end.
  - cbn beta. destruct (Rle_dec _ _) as [_|Hno]; [apply G; lia|].
    exfalso; apply Hno; simpl; lra.
Qed.

(** C6, at [gaussian_kernel(1)] with the toy aperture. *)
Lemma gaussian_kernel_peak_witness :
  exists p w' k,
    gaussian_kernel (ext := Toy.externals) (PyInt 1) PyNone (mk_world [] [])
    = (Ok p, w') /\
    lookup w' p = Some (ArrR k) /\ max_entry_is k 1.
Proof.
  destruct (Toy.aperture_sum (ArrR (gaussian_grid 1 1))
              ((INR 3 - 1) / 2, (INR 3 - 1) / 2) (IZR 1 / 2))
    as [flux|e] eqn:E; [|discriminate E].
  destruct (gaussian_kernel_peak (ext := Toy.externals) (mk_world [] [])
              (PyInt 1) PyNone 1%Z 1%Z
              ((INR 3 - 1) / 2, (INR 3 - 1) / 2) flux
              eq_refl eq_refl ltac:(lia) ltac:(lia) eq_refl E
              (toy_flux_positive flux E))
    as (p & w' & peak & H1 & _ & H3 & H4).
  exists p, w'; eexists; repeat split; [exact H1 | exact H3 | apply H4 | apply H4].
Defined.

(* ================================================================== *)
(** * Part XIV: complex sums and the orthogonality of the roots of unity *)
(* ================================================================== *)

Ltac Cnorm :=
  unfold Cmul, Cadd, Cscale, RtoC, C0, C1, cis in *; simpl fst in *;
  simpl snd in *.

Ltac Ceq :=
  repeat match goal with z : C |- _ => destruct z end;
  Cnorm; f_equal; try ring.

Lemma Cadd_0_l z : Cadd C0 z = z.
Proof. Ceq. Qed.

Lemma Cadd_0_r z : Cadd z C0 = z.
Proof. Ceq. Qed.

Lemma Cadd_comm a b : Cadd a b = Cadd b a.
Proof. Ceq. Qed.

Lemma Cadd_assoc a b c : Cadd a (Cadd b c) = Cadd (Cadd a b) c.
Proof. Ceq. Qed.

Lemma Cmul_comm a b : Cmul a b = Cmul b a.
Proof. Ceq. Qed.

Lemma Cmul_assoc a b c : Cmul a (Cmul b c) = Cmul (Cmul a b) c.
Proof. Ceq. Qed.

Lemma Cmul_0_l z : Cmul C0 z = C0.
Proof. Ceq. Qed.

Lemma Cmul_0_r z : Cmul z C0 = C0.
Proof. Ceq. Qed.

Lemma Cmul_1_r z : Cmul z C1 = z.
Proof. Ceq. Qed.

Lemma Cmul_add_distr_l a b c : Cmul a (Cadd b c) = Cadd (Cmul a b) (Cmul a c).
Proof. Ceq. Qed.

Lemma Cmul_add_distr_r a b c : Cmul (Cadd a b) c = Cadd (Cmul a c) (Cmul b c).
Proof. Ceq. Qed.

Lemma Cmul_RtoC_r z x : Cmul z (RtoC x) = Cscale x z.
Proof. Ceq. Qed.

Lemma Cscale_Cscale x y z : Cscale x (Cscale y z) = Cscale (x * y) z.
Proof. Ceq. Qed.

Lemma Cscale_1 z : Cscale 1 z = z.
Proof. Ceq. Qed.

Lemma Cmod_RtoC x : Cmod (RtoC x) = Rabs x.
Proof.
  unfold Cmod, RtoC; simpl.
  replace (x * x + 0 * 0) with (Rsqr x) by (unfold Rsqr; ring).
  apply sqrt_Rsqr_abs.
Qed.

(** A complex number with a non-zero factor and a zero product is zero. *)
Lemma Cmul_eq_0_r w z : w <> C0 -> Cmul w z = C0 -> z = C0.
Proof.
  destruct w as [a b], z as [x y]; unfold Cmul, C0; simpl; intros Hw H.
  injection H as H1 H2.
  assert (Hn : 0 < a * a + b * b).
  { destruct (Req_dec a 0) as [->|Ha]; destruct (Req_dec b 0) as [->|Hb].
    - exfalso; apply Hw; reflexivity.
    - nra.
    - nra.
    - nra. }
  assert (Hx : (a * a + b * b) * x = 0).
  { replace ((a * a + b * b) * x)
      with (a * (a * x - b * y) + b * (a * y + b * x)) by ring.
    rewrite H1, H2; ring. }
  assert (Hy : (a * a + b * b) * y = 0).
  { replace ((a * a + b * b) * y)
      with (a * (a * y + b * x) - b * (a * x - b * y)) by ring.
    rewrite H1, H2; ring. }
  apply Rmult_integral in Hx, Hy.
  f_equal; [destruct Hx | destruct Hy]; lra.
Qed.

Lemma cis_add a b : cis (a + b) = Cmul (cis a) (cis b).
Proof.
  unfold cis, Cmul; simpl. rewrite cos_plus, sin_plus. f_equal; ring.
Qed.

Lemma cis_0 : cis 0 = C1.
Proof. unfold cis, C1; rewrite cos_0, sin_0; reflexivity. Qed.

Lemma cos_2PI_INR k : cos (2 * PI * INR k) = 1.
Proof.
  replace (2 * PI * INR k) with (0 + 2 * INR k * PI) by ring.
  rewrite cos_period; apply cos_0.
Qed.

Lemma sin_2PI_INR k : sin (2 * PI * INR k) = 0.
Proof.
  replace (2 * PI * INR k) with (0 + 2 * INR k * PI) by ring.
  rewrite sin_period; apply sin_0.
Qed.

(** [exp (2 i pi (a - b)) = 1] for natural numbers [a], [b]. *)
Lemma cis_2PI_diff a b : cis (2 * PI * (INR a - INR b)) = C1.
Proof.
  replace (2 * PI * (INR a - INR b))
    with (2 * PI * INR a - 2 * PI * INR b) by ring.
  unfold cis, C1. rewrite cos_minus, sin_minus.
  rewrite !cos_2PI_INR, !sin_2PI_INR. f_equal; ring.
Qed.

Lemma cos_lt_1 x : 0 < x -> x < 2 * PI -> cos x < 1.
Proof.
  intros H0 H1. replace x with (2 * (x / 2)) by field.
  rewrite cos_2a_sin.
  assert (0 < sin (x / 2)) by (apply sin_gt_0; lra).
  nra.
Qed.

(** A proper fraction of a turn is not a full turn. *)
Lemma cis_neq_1 x : 0 < Rabs x -> Rabs x < 2 * PI -> cis x <> C1.
Proof.
  intros H0 H1 E. unfold cis, C1 in E. injection E as Ec _.
  destruct (Rle_dec 0 x) as [Hx|Hx].
  - rewrite Rabs_right in H0, H1 by lra.
    pose proof (cos_lt_1 x H0 H1); lra.
  - rewrite Rabs_left in H0, H1 by lra.
    pose proof (cos_lt_1 (- x) H0 H1) as H. rewrite cos_neg in H. lra.
Qed.

Lemma Csum_ext n f g :
  (forall i, (i < n)%nat -> f i = g i) -> Csum n f = Csum n g.
Proof.
  induction n as [|n IH]; intros H; simpl; [reflexivity|].
  rewrite IH by (intros; apply H; lia). rewrite H by lia. reflexivity.
Qed.

Lemma Csum_0 n : Csum n (fun _ => C0) = C0.
Proof. induction n; simpl; [|rewrite IHn]; Ceq. Qed.

Lemma Csum_add n f g :
  Csum n (fun i => Cadd (f i) (g i)) = Cadd (Csum n f) (Csum n g).
Proof.
  induction n as [|n IH]; simpl; [Ceq|].
  rewrite IH. generalize (Csum n f), (Csum n g), (f n), (g n); intros; Ceq.
Qed.

Lemma Csum_mul_l n z f :
  Csum n (fun i => Cmul z (f i)) = Cmul z (Csum n f).
Proof.
  induction n as [|n IH]; simpl; [Ceq|].
  rewrite IH, Cmul_add_distr_l; reflexivity.
Qed.

Lemma Csum_mul_r n z f :
  Csum n (fun i => Cmul (f i) z) = Cmul (Csum n f) z.
Proof.
  induction n as [|n IH]; simpl; [Ceq|].
  rewrite IH, Cmul_add_distr_r; reflexivity.
Qed.

Lemma Csum_swap n m (f : nat -> nat -> C) :
  Csum n (fun i => Csum m (fun j => f i j))
  = Csum m (fun j => Csum n (fun i => f i j)).
Proof.
  induction n as [|n IH]; simpl.
  - symmetry; apply Csum_0.
  - rewrite IH, <- Csum_add. reflexivity.
Qed.

(** A sum with a single non-zero term. *)
Lemma Csum_single n i0 f :
  (i0 < n)%nat -> (forall i, (i < n)%nat -> i <> i0 -> f i = C0) ->
  Csum n f = f i0.
Proof.
  induction n as [|n IH]; intros Hi H; [lia|]. simpl.
  destruct (Nat.eq_dec i0 n) as [->|Hne].
  - rewrite (Csum_ext n f (fun _ => C0)) by (intros; apply H; lia).
    rewrite Csum_0, Cadd_0_l; reflexivity.
  - rewrite IH by (try lia; intros; apply H; lia).
    rewrite (H n) by lia. apply Cadd_0_r.
Qed.

(** Telescoping: [(w - 1) (1 + w + ... + w^(n-1)) = w^n - 1] with
    [w^k = cis (k t)]. *)
Lemma cis_geometric n t :
  Cmul (Cadd (cis t) (RtoC (-1))) (Csum n (fun k => cis (INR k * t)))
  = Cadd (cis (INR n * t)) (RtoC (-1)).
Proof.
  induction n as [|n IH].
  - simpl. rewrite Rmult_0_l, cis_0. Ceq.
  - cbn [Csum]. rewrite Cmul_add_distr_l, IH.
    replace (INR (S n) * t) with (t + INR n * t) by (rewrite S_INR; ring).
    rewrite cis_add.
    generalize (cis t), (cis (INR n * t)); intros; Ceq.
Qed.

Lemma cis_sum_zero n t :
  cis t <> C1 -> cis (INR n * t) = C1 ->
  Csum n (fun k => cis (INR k * t)) = C0.
Proof.
  intros Hne Hn.
  apply (Cmul_eq_0_r (Cadd (cis t) (RtoC (-1)))).
  - intros E. apply Hne. destruct (cis t) as [a b].
    unfold Cadd, RtoC, C0, C1 in *; simpl in *. injection E as E1 E2.
    f_equal; lra.
  - rewrite cis_geometric, Hn. Ceq.
Qed.

Lemma cis_sum_one n :
  Csum n (fun k => cis (INR k * 0)) = RtoC (INR n).
Proof.
  induction n as [|n IH].
  - reflexivity.
  - cbn [Csum]. rewrite IH, Rmult_0_r, cis_0, S_INR. Ceq.
Qed.

(** Orthogonality: the sum over [k < n] of
    [exp (-2 i pi m k / n) * exp (2 i pi k m' / n)] is [n] when [m = m'] and
    [0] otherwise. *)
Lemma roots_orthogonal n m m' :
  (m < n)%nat -> (m' < n)%nat ->
  Csum n (fun k =>
    Cmul (cis (-1 * (2 * PI * (INR (m * k) / INR n))))
         (cis (1 * (2 * PI * (INR (k * m') / INR n)))))
  = if (m =? m')%nat then RtoC (INR n) else C0.
Proof.
  intros Hm Hm'.
  assert (Hn : INR n <> 0) by (apply not_0_INR; lia).
  set (t := 2 * PI * ((INR m' - INR m) / INR n)).
  rewrite (Csum_ext n _ (fun k => cis (INR k * t))).
  2:{ intros k Hk. rewrite <- cis_add. f_equal. unfold t.
      rewrite !mult_INR. field; exact Hn. }
  destruct (m =? m')%nat eqn:E.
  - apply Nat.eqb_eq in E; subst m'.
    replace t with 0 by (unfold t; field; exact Hn).
    apply cis_sum_one.
  - apply Nat.eqb_neq in E. apply cis_sum_zero.
    + assert (Hpi := PI_RGT_0).
      assert (Hd : 1 <= Rabs (INR m' - INR m)).
      { destruct (Nat.lt_ge_cases m m') as [L|L].
        - apply lt_INR in L as L'. apply (le_INR (S m) m') in L.
          rewrite S_INR in L. rewrite Rabs_right; lra.
        - assert (m' < m)%nat as L2 by lia.
          apply (le_INR (S m') m) in L2. rewrite S_INR in L2.
          rewrite Rabs_left; lra. }
      assert (Hu : Rabs (INR m' - INR m) < INR n).
      { apply lt_INR in Hm, Hm'. pose proof (pos_INR m). pose proof (pos_INR m').
        apply Rabs_def1; lra. }
      assert (Hnpos : 0 < INR n) by (apply lt_0_INR; lia).
      assert (Et : Rabs t = 2 * PI * (Rabs (INR m' - INR m) / INR n)).
      { unfold t. rewrite Rabs_mult, (Rabs_right (2 * PI)) by lra.
        unfold Rdiv. rewrite Rabs_mult, (Rabs_right (/ INR n)).
        - reflexivity.
        - left; apply Rinv_0_lt_compat; exact Hnpos. }
      apply cis_neq_1; rewrite Et.
      * apply Rmult_lt_0_compat; [lra|].
        apply Rdiv_lt_0_compat; lra.
      * assert (Rabs (INR m' - INR m) / INR n < 1).
        { apply (Rmult_lt_reg_r (INR n)); [exact Hnpos|].
          unfold Rdiv; rewrite Rmult_assoc, Rinv_l by exact Hn. lra. }
        nra.
    + replace (INR n * t) with (2 * PI * (INR m' - INR m))
        by (unfold t; field; exact Hn).
      apply cis_2PI_diff.
Qed.

Lemma twiddle_split s x y r c :
  cis (s * (2 * PI * (INR x / INR r + INR y / INR c)))
  = Cmul (cis (s * (2 * PI * (INR x / INR r))))
         (cis (s * (2 * PI * (INR y / INR c)))).
Proof. rewrite <- cis_add; f_equal; ring. Qed.

(** The inverse Fourier sum of the forward Fourier sum of [a] is [r c a]. *)
Lemma fourier_inversion r c (a : nat -> nat -> C) m' n' :
  (m' < r)%nat -> (n' < c)%nat ->
  Csum r (fun k => Csum c (fun l =>
    Cmul (Csum r (fun m => Csum c (fun n =>
            Cmul (a m n)
                 (cis (-1 * (2 * PI * (INR (m * k) / INR r
                                       + INR (n * l) / INR c)))))))
         (cis (1 * (2 * PI * (INR (k * m') / INR r
                              + INR (l * n') / INR c))))))
  = Cscale (INR r * INR c) (a m' n').
Proof.
  intros Hm' Hn'.
  set (P := fun m k =>
    Cmul (cis (-1 * (2 * PI * (INR (m * k) / INR r))))
         (cis (1 * (2 * PI * (INR (k * m') / INR r))))).
  set (Q := fun n l =>
    Cmul (cis (-1 * (2 * PI * (INR (n * l) / INR c))))
         (cis (1 * (2 * PI * (INR (l * n') / INR c))))).
  rewrite (Csum_ext r _ (fun k => Csum c (fun l => Csum r (fun m =>
             Csum c (fun n => Cmul (Cmul (a m n) (P m k)) (Q n l)))))).
  2:{ intros k Hk; apply Csum_ext; intros l Hl.
      rewrite <- Csum_mul_r; apply Csum_ext; intros m Hm.
      rewrite <- Csum_mul_r; apply Csum_ext; intros n Hn.
      rewrite !twiddle_split. unfold P, Q.
      generalize (a m n), (cis (-1 * (2 * PI * (INR (m * k) / INR r)))),
        (cis (-1 * (2 * PI * (INR (n * l) / INR c)))),
        (cis (1 * (2 * PI * (INR (k * m') / INR r)))),
        (cis (1 * (2 * PI * (INR (l * n') / INR c)))).
      intros; Ceq. }
  rewrite (Csum_ext r _ (fun k => Csum r (fun m =>
             Cmul (Cmul (a m n') (P m k)) (RtoC (INR c))))).
  2:{ intros k Hk. rewrite Csum_swap. apply Csum_ext; intros m Hm.
      rewrite Csum_swap.
      rewrite (Csum_ext c _ (fun n =>
                 Cmul (Cmul (a m n) (P m k)) (Csum c (fun l => Q n l))))
        by (intros; apply Csum_mul_l).
      rewrite (Csum_single c n'); auto.
      - unfold Q; rewrite roots_orthogonal, Nat.eqb_refl by auto. reflexivity.
      - intros n Hn Hne. unfold Q; rewrite roots_orthogonal by auto.
        apply Nat.eqb_neq in Hne; rewrite Hne. apply Cmul_0_r. }
  rewrite Csum_swap.
  rewrite (Csum_ext r _ (fun m =>
             Cmul (Cmul (a m n') (Csum r (fun k => P m k))) (RtoC (INR c)))).
  2:{ intros m Hm. rewrite Csum_mul_r, Csum_mul_l; reflexivity. }
  rewrite (Csum_single r m'); auto.
  - unfold P; rewrite roots_orthogonal, Nat.eqb_refl by auto.
    generalize (a m' n'); intros; Ceq.
  - intros m Hm Hne. unfold P; rewrite roots_orthogonal by auto.
    apply Nat.eqb_neq in Hne; rewrite Hne.
    rewrite Cmul_0_r; apply Cmul_0_l.
Qed.

(* ================================================================== *)
(** * Part XV: the centred Fourier transform and its inverse *)
(* ================================================================== *)

Lemma tab_data_nth {A} (d : A) r c (l : list A) :
  length l = (r * c)%nat ->
  tab_data r c (fun i j => nth (i * c + j) l d) = l.
Proof.
  intros Hl. apply (nth_ext _ _ d d).
  - rewrite length_tab_data; auto.
  - intros k Hk. rewrite length_tab_data in Hk.
    assert (Hc : (0 < c)%nat) by (destruct c; [lia | lia]).
    assert (E : k = ((k / c) * c + k mod c)%nat).
    { rewrite Nat.mul_comm. apply Nat.div_mod_eq. }
    rewrite E at 1.
    rewrite nth_tab_data.
    + rewrite <- E; reflexivity.
    + apply Nat.Div0.div_lt_upper_bound; lia.
    + apply Nat.mod_upper_bound; lia.
Qed.

(** A well-formed 2-D array is the table of its entries. *)
Lemma tabulate2_get2 {A} (d : A) (a : ndarray A) r c :
  shape a = [r; c] -> well_formed a -> tabulate2 r c (get2 d a) = a.
Proof.
  intros Hs Hw. destruct a as [sh l]; simpl in *; subst sh.
  unfold well_formed in Hw; simpl in Hw. unfold tabulate2; f_equal.
  unfold get2, ncols; simpl. apply tab_data_nth. lia.
Qed.

Lemma get2_amap_RtoC a i j :
  get2 C0 (amap RtoC a) i j = RtoC (get2 0 a i j).
Proof.
  unfold get2, ncols, amap; simpl. apply (map_nth RtoC).
Qed.

Lemma fft_shape_check_ok o r c :
  obj_shape o = [r; c] -> (0 < r)%nat -> (0 < c)%nat ->
  Numpy.fft_shape_check o = Ok (r, c).
Proof.
  intros Hs Hr Hc; unfold Numpy.fft_shape_check; rewrite Hs.
  destruct r; [lia|]. destruct c; [lia|]. reflexivity.
Qed.

Lemma roll2_tabulate2 {A} (d : A) sr sc r c f :
  (0 < r)%nat -> (0 < c)%nat ->
  Numpy.roll2 d sr sc (tabulate2 r c f)
  = tabulate2 r c (fun i j => f ((i + (r - sr)) mod r)%nat
                               ((j + (c - sc)) mod c)%nat).
Proof.
  intros Hr Hc; unfold Numpy.roll2, nrows, ncols; simpl.
  apply tabulate2_ext; intros i j Hi Hj.
  apply get2_tabulate2; apply Nat.mod_upper_bound; lia.
Qed.

Lemma unshift_index i n :
  (i < n)%nat ->
  (((i + (n - (n - n / 2))) mod n + (n - n / 2)) mod n = i)%nat.
Proof.
  intros Hi.
  assert (H2 : (n / 2 <= n)%nat) by (apply Nat.Div0.div_le_upper_bound; lia).
  replace (n - (n - n / 2))%nat with (n / 2)%nat by lia.
  rewrite Nat.Div0.add_mod_idemp_l.
  replace (i + n / 2 + (n - n / 2))%nat with (i + 1 * n)%nat by lia.
  rewrite Nat.Div0.mod_add. apply Nat.mod_small; exact Hi.
Qed.

(** [ifftshift] undoes [fftshift]. *)
Lemma ifftshift_fftshift {A} (d : A) r c f :
  (0 < r)%nat -> (0 < c)%nat ->
  Numpy.roll2 d (r - r / 2) (c - c / 2)
    (Numpy.roll2 d (r / 2) (c / 2) (tabulate2 r c f))
  = tabulate2 r c f.
Proof.
  intros Hr Hc. rewrite !roll2_tabulate2 by auto.
  apply tabulate2_ext; intros i j Hi Hj.
  rewrite !unshift_index by auto. reflexivity.
Qed.

Lemma dft2_ext s a b r c :
  (forall i j, (i < r)%nat -> (j < c)%nat -> get2 C0 a i j = get2 C0 b i j) ->
  Numpy.dft2 s a r c = Numpy.dft2 s b r c.
Proof.
  intros H; unfold Numpy.dft2. apply tabulate2_ext; intros k l Hk Hl.
  apply Csum_ext; intros m Hm. apply Csum_ext; intros n Hn.
  rewrite H by auto; reflexivity.
Qed.

(** The inverse transform of the forward transform of a table of complex
    numbers is that table. *)
Lemma idft2_dft2 r c (f : nat -> nat -> C) :
  (0 < r)%nat -> (0 < c)%nat ->
  amap (Cscale (/ INR (r * c)))
    (Numpy.dft2 1 (Numpy.dft2 (-1) (tabulate2 r c f) r c) r c)
  = tabulate2 r c f.
Proof.
  intros Hr Hc. unfold Numpy.dft2 at 1. rewrite amap_tabulate2.
  apply tabulate2_ext; intros m' n' Hm' Hn'.
  rewrite (Csum_ext r _ (fun k => Csum c (fun l =>
    Cmul (Csum r (fun m => Csum c (fun n =>
            Cmul (f m n)
                 (cis (-1 * (2 * PI * (INR (m * k) / INR r
                                       + INR (n * l) / INR c)))))))
         (cis (1 * (2 * PI * (INR (k * m') / INR r
                              + INR (l * n') / INR c))))))).
  2:{ intros k Hk; apply Csum_ext; intros l Hl.
      unfold Numpy.dft2. rewrite get2_tabulate2 by auto.
      f_equal. apply Csum_ext; intros m Hm; apply Csum_ext; intros n Hn.
      rewrite get2_tabulate2 by auto. reflexivity. }
  rewrite fourier_inversion by auto.
  rewrite Cscale_Cscale, mult_INR.
  assert (INR r <> 0) by (apply not_0_INR; lia).
  assert (INR c <> 0) by (apply not_0_INR; lia).
  replace (/ (INR r * INR c) * (INR r * INR c)) with 1 by (field; auto).
  apply Cscale_1.
Qed.

(** The way back from the centred spectrum of a real frame is the frame of
    its absolute values. *)
Lemma from_centred_spectrum_of_spectrum a r c :
  (0 < r)%nat -> (0 < c)%nat ->
  from_centred_spectrum (centred_spectrum a r c) r c
  = tabulate2 r c (fun i j => Rabs (get2 0 a i j)).
Proof.
  intros Hr Hc. unfold from_centred_spectrum, centred_spectrum.
  unfold Numpy.dft2 at 2. rewrite ifftshift_fftshift by auto.
  fold (Numpy.dft2 (-1) (amap RtoC a) r c).
  rewrite (dft2_ext (-1) (amap RtoC a)
             (tabulate2 r c (fun i j => RtoC (get2 0 a i j))) r c).
  - rewrite idft2_dft2, amap_tabulate2 by auto.
    apply tabulate2_ext; intros; apply Cmod_RtoC.
  - intros i j Hi Hj.
    rewrite get2_amap_RtoC, get2_tabulate2 by auto; reflexivity.
Qed.

(** What [ifft (fft x)] computes, step by step. *)
Lemma fft_ifft_run h t array a r c :
  lookup (mk_world h t) array = Some (ArrR a) ->
  shape a = [r; c] -> (0 < r)%nat -> (0 < c)%nat ->
  exists p w1 q w2,
    fft array (mk_world h t) = (Ok p, w1) /\
    ifft p w1 = (Ok q, w2) /\
    lookup w2 q
    = Some (ArrR (tabulate2 r c (fun i j => Rabs (get2 0 a i j)))).
Proof.
  intros Hl Hs Hr Hc.
  set (F := Numpy.dft2 (-1) (amap RtoC a) r c).
  assert (EF : F = Numpy.dft2 (-1)
                     (tabulate2 r c (fun i j => RtoC (get2 0 a i j))) r c).
  { apply dft2_ext; intros i j Hi Hj.
    rewrite get2_amap_RtoC, get2_tabulate2 by auto; reflexivity. }
  assert (E1 : Numpy.fft2 (ArrR a) = Ok (ArrC F)).
  { unfold Numpy.fft2. rewrite (fft_shape_check_ok _ r c); auto. }
  assert (E2 : Numpy.fftshift (ArrC F)
               = Ok (ArrC (Numpy.roll2 C0 (r / 2) (c / 2) F))) by reflexivity.
  set (G := Numpy.roll2 C0 (r / 2) (c / 2) F) in *.
  assert (E3 : Numpy.ifftshift (ArrC G) = Ok (ArrC F)).
  { unfold Numpy.ifftshift, Numpy.roll_obj. unfold G at 1.
    unfold Numpy.roll2 at 1; cbn [shape tabulate2].
    f_equal; f_equal. unfold G, F, Numpy.dft2.
    apply ifftshift_fftshift; auto. }
  assert (E4 : Numpy.ifft2 (ArrC F)
               = Ok (ArrC (tabulate2 r c (fun i j => RtoC (get2 0 a i j))))).
  { unfold Numpy.ifft2. rewrite (fft_shape_check_ok _ r c); auto.
    cbn [rbind as_complex]. rewrite EF, idft2_dft2 by auto. reflexivity. }
  assert (E5 : Numpy.absolute
                 (ArrC (tabulate2 r c (fun i j => RtoC (get2 0 a i j))))
               = Ok (ArrR (tabulate2 r c (fun i j => Rabs (get2 0 a i j))))).
  { unfold Numpy.absolute. rewrite amap_tabulate2.
    do 2 f_equal. apply tabulate2_ext; intros; apply Cmod_RtoC. }
  do 4 eexists. split; [|split].
  - unfold fft, np_fft_fft2, np_fft_fftshift.
    erewrite bind_ok by (eapply libcall1_ok; [exact Hl | exact E1]).
    cbn [heap trace].
    erewrite bind_ok by (eapply libcall1_ok; [solve_lookup | exact E2]).
    reflexivity.
  - unfold ifft, np_fft_ifftshift, np_fft_ifft2, np_abs. cbn [heap trace].
    erewrite bind_ok by (eapply libcall1_ok; [solve_lookup | exact E3]).
    cbn [heap trace].
    erewrite bind_ok by (eapply libcall1_ok; [solve_lookup | exact E4]).
    cbn [heap trace].
    erewrite bind_ok by (eapply libcall1_ok; [solve_lookup | exact E5]).
    reflexivity.
  - cbn [heap trace]. solve_lookup.
Qed.

(** C1 (as amended): for a 2-D real frame with both dimensions at least 1,
    [ifft (fft x)] is the array of the absolute values of [x]; it is [x]
    itself when no entry of [x] is negative. *)
Theorem ifft_fft_absolute w array a r c :
  lookup w array = Some (ArrR a) ->
  shape a = [r; c] -> well_formed a -> (0 < r)%nat -> (0 < c)%nat ->
  exists p w1 q w2,
    fft array w = (Ok p, w1) /\
    ifft p w1 = (Ok q, w2) /\
    lookup w2 q
    = Some (ArrR (tabulate2 r c (fun i j => Rabs (get2 0 a i j)))) /\
    ((forall i j, (i < r)%nat -> (j < c)%nat -> 0 <= get2 0 a i j) ->
     lookup w2 q = Some (ArrR a)).
Proof.
  intros Hl Hs Hw Hr Hc. destruct w as [h t].
  destruct (fft_ifft_run h t array a r c Hl Hs Hr Hc)
    as (p & w1 & q & w2 & H1 & H2 & H3).
  exists p, w1, q, w2; repeat split; auto.
  intros Hpos. rewrite H3. do 2 f_equal.
  transitivity (tabulate2 r c (get2 0 a)); [|apply tabulate2_get2; auto].
  apply tabulate2_ext; intros i j Hi Hj.
  apply Rabs_right, Rle_ge, Hpos; auto.
Qed.

(** C1, as the specification states it, fails: the 1 x 1 frame [[-1]] comes
    back as [[1]]. *)
Lemma ifft_fft_negative_pixel :
  let x := mk_ndarray [1%nat; 1%nat] [-1] in
  exists p w1 q w2 y,
    fft 0%nat (mk_world [ArrR x] []) = (Ok p, w1) /\
    ifft p w1 = (Ok q, w2) /\
    lookup w2 q = Some (ArrR y) /\
    get2 0 y 0 0 = 1 /\ get2 0 x 0 0 = -1.
Proof.
  intros x.
  destruct (fft_ifft_run [ArrR x] [] 0%nat x 1 1 eq_refl eq_refl
              ltac:(lia) ltac:(lia))
    as (p & w1 & q & w2 & H1 & H2 & H3).
  exists p, w1, q, w2. eexists. repeat split; eauto.
  unfold get2; simpl. rewrite Rabs_left by lra. lra.
Qed.

(** C1 (amended), at the 2 x 2 frame [[1, 2], [3, 4]]. *)
Lemma ifft_fft_absolute_witness :
  exists p w1 q w2,
    fft 0%nat Toy.w22 = (Ok p, w1) /\
    ifft p w1 = (Ok q, w2) /\
    lookup w2 q = Some Toy.frame22.
Proof.
  destruct (ifft_fft_absolute Toy.w22 0%nat
              (mk_ndarray [2%nat; 2%nat] [1; 2; 3; 4]) 2 2
              eq_refl eq_refl eq_refl ltac:(lia) ltac:(lia))
    as (p & w1 & q & w2 & H1 & H2 & _ & H4).
  exists p, w1, q, w2; repeat split; auto.
  apply H4. intros i j Hi Hj.
  destruct i as [|[|i]]; [| |lia]; (destruct j as [|[|j]]; [| |lia]);
    unfold get2; simpl; lra.
Defined.

(* ================================================================== *)
(** * Part XVI: the [fourier-butter] mode *)
(* ================================================================== *)

Lemma linspace_value s e n :
  Numpy.linspace s e n
  = Ok (ArrR (mk_ndarray [n]
               (map (fun i => s + INR i * ((e - s) / INR (n - 1))) (seq 0 n)))).
Proof.
  unfold Numpy.linspace. do 3 f_equal.
  destruct n as [|[|n]]; try reflexivity.
  simpl. f_equal. ring.
Qed.

Lemma amap_vector (f : R -> R) n (g : nat -> R) :
  amap f (mk_ndarray [n] (map g (seq 0 n)))
  = mk_ndarray [n] (map (fun i => f (g i)) (seq 0 n)).
Proof. unfold amap; simpl; rewrite map_map; reflexivity. Qed.

Lemma nth_map_seq (g : nat -> R) n k :
  (k < n)%nat -> nth k (map g (seq 0 n)) 0 = g k.
Proof.
  intros H. rewrite (nth_indep _ 0 (g 0%nat)) by (rewrite length_map, length_seq; lia).
  rewrite map_nth, seq_nth by lia. reflexivity.
Qed.

Lemma bdim_1_l d : bdim 1 d = Some d.
Proof.
  unfold bdim. destruct (1 =? d)%nat eqn:E; [|reflexivity].
  apply Nat.eqb_eq in E; subst; reflexivity.
Qed.

Lemma bdim_1_r d : bdim d 1 = Some d.
Proof.
  unfold bdim. destruct (d =? 1)%nat eqn:E; reflexivity.
Qed.

(** A row [(1, c)] combined with a column [(r, 1)]. *)
Lemma ufunc2_outer f r c gx gy :
  Numpy.ufunc2 f
    (ArrR (mk_ndarray [1%nat; c] (map gx (seq 0 c))))
    (ArrR (mk_ndarray ([r] ++ [1%nat]) (map gy (seq 0 r))))
  = Ok (ArrR (tabulate2 r c (fun i j => f (gx j) (gy i)))).
Proof.
  unfold Numpy.ufunc2, broadcast2, ndim; cbn [shape app view2 length].
  rewrite bdim_1_l, bdim_1_r. cbn [rbind Nat.max bshape].
  unfold tabulate2; do 3 f_equal.
  apply tab_data_ext; intros i j Hi Hj.
  unfold bget; cbn [shape view2 data]. f_equal.
  - rewrite Nat.eqb_refl.
    replace (0 * c + (if (c =? 1)%nat then 0 else j))%nat with j.
    + apply nth_map_seq; auto.
    + destruct (c =? 1)%nat eqn:E; [apply Nat.eqb_eq in E|]; lia.
  - rewrite Nat.eqb_refl.
    replace ((if (r =? 1)%nat then 0 else i) * 1 + 0)%nat with i.
    + apply nth_map_seq; auto.
    + destruct (r =? 1)%nat eqn:E; [apply Nat.eqb_eq in E|]; lia.
Qed.

Lemma newaxis_front_ok p a w :
  lookup w p = Some (ArrR a) ->
  newaxis_front p w
  = (Ok (length (heap w)),
     mk_world (heap w ++ [ArrR (mk_ndarray (1%nat :: shape a) (data a))])
              (trace w)).
Proof.
  intros Hl; unfold newaxis_front.
  rewrite (bind_ok _ _ _ _ _ (load_ok _ _ _ Hl)). reflexivity.
Qed.

Lemma newaxis_back_ok p a w :
  lookup w p = Some (ArrR a) ->
  newaxis_back p w
  = (Ok (length (heap w)),
     mk_world (heap w ++ [ArrR (mk_ndarray (shape a ++ [1%nat]) (data a))])
              (trace w)).
Proof.
  intros Hl; unfold newaxis_back.
  rewrite (bind_ok _ _ _ _ _ (load_ok _ _ _ Hl)). reflexivity.
Qed.

(** The coordinate the code computes is the grid coordinate. *)
Lemma linspace_grid_coord n k :
  (-0.5 + INR k * ((0.5 - -0.5) / INR (n - 1))) * INR n / 2
  = grid_coord 2 n k.
Proof.
  unfold grid_coord, Rdiv. generalize (/ INR (n - 1)); intros u.
  replace 0.5 with (/ 2) by lra. replace (-0.5) with (- / 2) by lra. field.
Qed.

Lemma multiply_complex_real r c (g : ndarray C) (f : nat -> nat -> R) :
  shape g = [r; c] ->
  Numpy.multiply (ArrC g) (ArrR (tabulate2 r c f))
  = Ok (ArrC (tabulate2 r c
               (fun i j => Cmul (get2 C0 g i j) (RtoC (f i j))))).
Proof.
  intros Hg; unfold Numpy.multiply; cbn [as_complex].
  rewrite (broadcast2_same_shape C0 C0 Cmul g _ r c Hg) by reflexivity.
  cbn [rbind]. do 2 f_equal. apply tabulate2_ext; intros i j Hi Hj.
  rewrite get2_amap_RtoC, get2_tabulate2 by auto. reflexivity.
Qed.

Lemma fft_ok array a r c w :
  lookup w array = Some (ArrR a) ->
  shape a = [r; c] -> (0 < r)%nat -> (0 < c)%nat ->
  let F := Numpy.dft2 (-1) (amap RtoC a) r c in
  fft array w
  = (Ok (length (heap w ++ [ArrC F])),
     mk_world ((heap w ++ [ArrC F]) ++ [ArrC (centred_spectrum a r c)])
              ((trace w ++ [NpFft2]) ++ [NpFftshift])).
Proof.
  intros Hl Hs Hr Hc F. destruct w as [h t].
  unfold fft, np_fft_fft2, np_fft_fftshift.
  erewrite bind_ok.
  2:{ eapply libcall1_ok; [exact Hl|].
      unfold Numpy.fft2. rewrite (fft_shape_check_ok _ r c); auto.
      reflexivity. }
  cbn [heap trace].
  erewrite bind_ok by (eapply libcall1_ok; [solve_lookup | reflexivity]).
  reflexivity.
Qed.

Lemma ifft_ok p s r c w :
  lookup w p = Some (ArrC s) ->
  shape s = [r; c] -> (0 < r)%nat -> (0 < c)%nat ->
  let s1 := Numpy.roll2 C0 (r - r / 2) (c - c / 2) s in
  let s2 := amap (Cscale (/ INR (r * c))) (Numpy.dft2 1 s1 r c) in
  ifft p w
  = (Ok (length ((heap w ++ [ArrC s1]) ++ [ArrC s2])),
     mk_world (((heap w ++ [ArrC s1]) ++ [ArrC s2])
               ++ [ArrR (from_centred_spectrum s r c)])
              (((trace w ++ [NpIfftshift]) ++ [NpIfft2]) ++ [NpUfunc])).
Proof.
  intros Hl Hs Hr Hc s1 s2. destruct w as [h t].
  unfold ifft, np_fft_ifftshift, np_fft_ifft2, np_abs.
  erewrite bind_ok.
  2:{ eapply libcall1_ok; [exact Hl|].
      unfold Numpy.ifftshift, Numpy.roll_obj. rewrite Hs. reflexivity. }
  cbn [heap trace].
  erewrite bind_ok.
  2:{ eapply libcall1_ok; [solve_lookup|].
      unfold Numpy.ifft2. rewrite (fft_shape_check_ok _ r c); auto.
      - reflexivity.
      - unfold Numpy.roll2, nrows, ncols; rewrite Hs; reflexivity. }
  cbn [heap trace].
  erewrite bind_ok by (eapply libcall1_ok; [solve_lookup | reflexivity]).
  reflexivity.
Qed.

Ltac vector_step :=
  erewrite bind_ok by (apply np_ufunc1_ok; solve_lookup);
  cbn [heap trace]; rewrite amap_vector.

Ltac table_step :=
  erewrite bind_ok by (apply np_ufunc1_ok; solve_lookup);
  cbn [heap trace]; rewrite amap_tabulate2.

Lemma ndarray_shape_ok w p o :
  lookup w p = Some o -> ndarray_shape p w = (Ok (obj_shape o), w).
Proof.
  intros H; unfold ndarray_shape.
  rewrite (bind_ok _ _ _ _ _ (load_ok _ _ _ H)); reflexivity.
Qed.

Section FourierButter.

Context {ext : Externals}.

(** C4: on a 2-D array with both dimensions at least 1, mode
    ['fourier-butter'] returns the way back (shift, inverse transform,
    magnitude) from the product of the centred spectrum of the array with the
    transfer function [1 - 1/(1 + (radius/f)^(2n))], where [f = 0.5],
    [n = 100], and [radius] is the distance to the origin of the grid of
    normalized frequencies built with [pxd = 2]. *)
Theorem highpass_fourier_butter w array a r c ms ks fs :
  lookup w array = Some (ArrR a) ->
  shape a = [r; c] -> (0 < r)%nat -> (0 < c)%nat ->
  exists p w',
    frame_filter_highpass array "fourier-butter" ms ks fs w = (Ok p, w') /\
    lookup w' p
    = Some (ArrR (from_centred_spectrum
                    (tabulate2 r c (fun i j =>
                       Cmul (get2 C0 (centred_spectrum a r c) i j)
                            (RtoC (1 - 1 / (1 + (sqrt
                                     (grid_coord 2 c j ^ 2
                                      + grid_coord 2 r i ^ 2) / 0.5)
                                    ^ (2 * 100))))))
                    r c)).
Proof.
  intros Hl Hs Hr Hc. destruct w as [h t].
  rewrite (highpass_2d_step _ _ _ _ _ _ _ Hl)
    by (unfold obj_ndim; simpl; rewrite Hs; reflexivity).
  cbn [String.eqb Ascii.eqb Bool.eqb].
  rewrite (bind_ok _ _ _ _ _ (ndarray_shape_ok _ _ _ Hl)).
  cbn [obj_shape]. rewrite Hs.
  rewrite (bind_ok (unpack2 [r; c]) _ _ (r, c) (mk_world h t)) by reflexivity.
  unfold np_linspace.
  erewrite bind_ok by (apply libcall0_ok; apply linspace_value).
  cbn [heap trace].
  do 2 vector_step.
  erewrite bind_ok by (apply libcall0_ok; apply linspace_value).
  cbn [heap trace].
  do 3 vector_step.
  erewrite bind_ok by (apply newaxis_front_ok; solve_lookup).
  cbn [heap trace shape data].
  vector_step.
  erewrite bind_ok by (apply newaxis_back_ok; solve_lookup).
  cbn [heap trace shape data].
  unfold np_ufunc2.
  erewrite bind_ok
    by (eapply libcall2_ok; [solve_lookup | solve_lookup | apply ufunc2_outer]).
  cbn [heap trace].
  unfold np_sqrt.
  do 6 table_step.
  erewrite bind_ok by (eapply fft_ok; [solve_lookup | eauto..]).
  cbn [heap trace].
  unfold np_multiply.
  erewrite bind_ok.
  2:{ eapply libcall2_ok; [solve_lookup | solve_lookup |].
      apply multiply_complex_real.
      unfold centred_spectrum, Numpy.roll2, nrows, ncols; reflexivity. }
  cbn [heap trace].
  erewrite bind_ok by (eapply ifft_ok; [solve_lookup | reflexivity | auto..]).
  cbn [heap trace]. unfold ret.
  do 2 eexists; split; [reflexivity|].
  match goal with
  | |- lookup (mk_world
                 (_ ++ [ArrR (from_centred_spectrum (tabulate2 r c ?f) r c)])
                 _) _ = _ =>
      rewrite (tabulate2_ext r c f
                 (fun i j => Cmul (get2 C0 (centred_spectrum a r c) i j)
                                  (RtoC (butter_filter r c i j))))
  end.
  - solve_lookup.
  - intros i j Hi Hj. do 2 f_equal.
    unfold butter_filter, butterworth_highpass.
    rewrite !linspace_grid_coord. reflexivity.
Qed.

End FourierButter.

(** The grid of normalized frequencies is symmetric about the origin, which
    is therefore its centre. *)
Lemma grid_coord_symmetric pxd n k :
  (2 <= n)%nat -> (k < n)%nat ->
  grid_coord pxd n (n - 1 - k) = - grid_coord pxd n k.
Proof.
  intros Hn Hk. unfold grid_coord, Rdiv. generalize (/ pxd); intros u.
  rewrite !minus_INR by lia. simpl INR.
  assert (INR n - 1 <> 0).
  { apply (le_INR 2 n) in Hn. simpl in Hn. lra. }
  field; auto.
Qed.

(** C4, at the 2 x 2 frame [[1, 2], [3, 4]]. *)
Lemma highpass_fourier_butter_witness :
  exists p w',
    frame_filter_highpass (ext := Toy.externals) 0%nat "fourier-butter"
      5%Z 5%Z 5 Toy.w22 = (Ok p, w') /\
    exists y, lookup w' p = Some (ArrR y) /\ shape y = [2%nat; 2%nat].
Proof.
  destruct (highpass_fourier_butter (ext := Toy.externals) Toy.w22 0%nat
              (mk_ndarray [2%nat; 2%nat] [1; 2; 3; 4]) 2 2 5%Z 5%Z 5
              eq_refl eq_refl ltac:(lia) ltac:(lia))
    as (p & w' & H1 & H2).
  exists p, w'; split; [exact H1|].
  eexists; split; [exact H2 | reflexivity].
Defined.

(* ================================================================== *)
(** * Part XVII: the Gaussian filter and the FWHM-to-sigma factor *)
(* ================================================================== *)

Lemma IZR_div_le a d : (0 < d)%Z -> IZR (a / d) <= IZR a / IZR d.
Proof.
  intros Hd. assert (0 < IZR d) by (apply (IZR_lt 0); exact Hd).
  apply (Rmult_le_reg_r (IZR d)); [assumption|].
  unfold Rdiv; rewrite Rmult_assoc, Rinv_l, Rmult_1_r by lra.
  rewrite <- mult_IZR. apply IZR_le.
  rewrite Z.mul_comm. apply Z.mul_div_le; exact Hd.
Qed.

Lemma sq_down_nonneg m n : (0 <= m)%Z -> (0 <= sq_down m n)%Z.
Proof.
  intros Hm; unfold sq_down. apply Z.div_pos; [nia|].
  apply Z.pow_pos_nonneg; lia.
Qed.

Lemma sq_chain_le k :
  forall m n, (0 <= m)%Z -> (0 <= n)%Z ->
    IZR (sq_chain k m n) / IZR (2 ^ m)
    <= (IZR n / IZR (2 ^ m)) ^ (2 ^ k)%nat.
Proof.
  induction k as [|k IH]; intros m n Hm Hn.
  - simpl. lra.
  - cbn [sq_chain].
    assert (Hp : (0 < 2 ^ m)%Z) by (apply Z.pow_pos_nonneg; lia).
    assert (HpR : 0 < IZR (2 ^ m)) by (apply (IZR_lt 0); exact Hp).
    eapply Rle_trans; [apply IH; [exact Hm | apply sq_down_nonneg; exact Hm]|].
    replace (2 ^ S k)%nat with (2 * 2 ^ k)%nat by (simpl; lia).
    rewrite pow_mult. apply pow_incr. split.
    + apply Rmult_le_pos; [apply (IZR_le 0); apply sq_down_nonneg; exact Hm|].
      left; apply Rinv_0_lt_compat; exact HpR.
    + unfold sq_down.
      eapply Rle_trans.
      * apply Rmult_le_compat_r;
          [left; apply Rinv_0_lt_compat; exact HpR | apply IZR_div_le; exact Hp].
      * rewrite mult_IZR. right. field. lra.
Qed.

Lemma exp_INR_mult n y : exp (INR n * y) = exp y ^ n.
Proof.
  induction n as [|n IH].
  - simpl. rewrite Rmult_0_l. apply exp_0.
  - rewrite S_INR, Rmult_plus_distr_r, Rmult_1_l, exp_plus, IH. simpl; ring.
Qed.

Lemma exp_ge_1_plus y : 1 + y <= exp y.
Proof.
  destruct (Req_dec y 0) as [->|Hy].
  - rewrite exp_0; lra.
  - left; apply exp_ineq1; exact Hy.
Qed.

(** A lower bound of [exp (p / q)], checked by integer arithmetic:
    [(1 + (p/q) / 2^k) ^ (2^k)], computed on [m] fractional bits. *)
Lemma exp_lower_bound (p q m b1 b2 : Z) (k : nat) :
  (0 < q)%Z -> (0 <= m)%Z -> (0 < b2)%Z ->
  (0 <= q * 2 ^ Z.of_nat k + p)%Z ->
  (b1 * 2 ^ m
   < b2 * sq_chain k m ((q * 2 ^ Z.of_nat k + p) * 2 ^ m
                        / (q * 2 ^ Z.of_nat k)))%Z ->
  IZR b1 / IZR b2 < exp (IZR p / IZR q).
Proof.
  intros Hq Hm Hb2 Hnum Hlt.
  set (d := (q * 2 ^ Z.of_nat k)%Z) in *.
  set (n0 := ((d + p) * 2 ^ m / d)%Z) in *.
  assert (Hd : (0 < d)%Z)
    by (unfold d; apply Z.mul_pos_pos; [lia | apply Z.pow_pos_nonneg; lia]).
  assert (Hp : (0 < 2 ^ m)%Z) by (apply Z.pow_pos_nonneg; lia).
  assert (HpR : 0 < IZR (2 ^ m)) by (apply (IZR_lt 0); exact Hp).
  assert (HdR : 0 < IZR d) by (apply (IZR_lt 0); exact Hd).
  assert (HqR : 0 < IZR q) by (apply (IZR_lt 0); exact Hq).
  assert (Hb2R : 0 < IZR b2) by (apply (IZR_lt 0); exact Hb2).
  assert (Hn0 : (0 <= n0)%Z) by (unfold n0; apply Z.div_pos; nia).
  set (y := IZR p / IZR q / INR (2 ^ k)).
  assert (Hk : INR (2 ^ k) = IZR (2 ^ Z.of_nat k)).
  { rewrite pow_INR. simpl INR. rewrite <- pow_IZR. reflexivity. }
  assert (HkR : 0 < INR (2 ^ k)) by (apply lt_0_INR, Nat.neq_0_lt_0, Nat.pow_nonzero; lia).
  assert (Hy : IZR n0 / IZR (2 ^ m) <= 1 + y).
  { unfold n0. eapply Rle_trans.
    - apply Rmult_le_compat_r;
        [left; apply Rinv_0_lt_compat; exact HpR | apply IZR_div_le; exact Hd].
    - rewrite mult_IZR, plus_IZR. unfold y, d in *.
      rewrite mult_IZR in *. rewrite <- Hk in *. right. field.
      repeat split; lra. }
  assert (Hchain : IZR (sq_chain k m n0) / IZR (2 ^ m) <= exp (IZR p / IZR q)).
  { eapply Rle_trans; [apply sq_chain_le; auto|].
    replace (IZR p / IZR q) with (INR (2 ^ k) * y)
      by (unfold y; field; split; lra).
    rewrite exp_INR_mult. apply pow_incr. split.
    - apply Rmult_le_pos; [apply (IZR_le 0); exact Hn0|].
      left; apply Rinv_0_lt_compat; exact HpR.
    - eapply Rle_trans; [exact Hy | apply exp_ge_1_plus]. }
  eapply Rlt_le_trans; [|exact Hchain].
  apply IZR_lt in Hlt. rewrite !mult_IZR in Hlt.
  apply (Rmult_lt_reg_r (IZR b2 * IZR (2 ^ m)));
    [apply Rmult_lt_0_compat; lra|].
  replace (IZR b1 / IZR b2 * (IZR b2 * IZR (2 ^ m)))
    with (IZR b1 * IZR (2 ^ m)) by (field; lra).
  replace (IZR (sq_chain k m n0) / IZR (2 ^ m) * (IZR b2 * IZR (2 ^ m)))
    with (IZR b2 * IZR (sq_chain k m n0)) by (field; lra).
  exact Hlt.
Qed.

Lemma ln_2_upper : ln 2 < 0.69316.
Proof.
  assert (H : IZR 2 / IZR 1 < exp (IZR 69316 / IZR 100000)).
  { apply (exp_lower_bound 69316 100000 80 2 1 20); try lia.
    vm_compute; reflexivity. }
  replace (IZR 2 / IZR 1) with 2 in H by lra.
  replace (IZR 69316 / IZR 100000) with 0.69316 in H by lra.
  rewrite <- (ln_exp 0.69316). apply ln_increasing; lra.
Qed.

Lemma ln_2_lower : 0.69313 < ln 2.
Proof.
  assert (H : IZR 1 / IZR 2 < exp (IZR (-69313) / IZR 100000)).
  { apply (exp_lower_bound (-69313) 100000 80 1 2 20); try lia.
    vm_compute; reflexivity. }
  replace (IZR (-69313) / IZR 100000) with (Ropp 0.69313) in H by lra.
  rewrite exp_Ropp in H.
  assert (He : 0 < exp 0.69313) by apply exp_pos.
  assert (H2 : exp 0.69313 < 2).
  { apply (Rmult_lt_reg_r (/ exp 0.69313));
      [apply Rinv_0_lt_compat; exact He|].
    rewrite Rinv_r by lra. lra. }
  rewrite <- (ln_exp 0.69313). apply ln_increasing; lra.
Qed.

(** [gaussian_fwhm_to_sigma] is 0.42466 to five decimal places. *)
Lemma gaussian_fwhm_to_sigma_approx :
  0.42465 < gaussian_fwhm_to_sigma < 0.42467.
Proof.
  pose proof ln_2_lower as Hl. pose proof ln_2_upper as Hu.
  unfold gaussian_fwhm_to_sigma.
  assert (H8 : 0 < 8 * ln 2) by lra.
  assert (Hs : 0 < sqrt (8 * ln 2)) by (apply sqrt_lt_R0; exact H8).
  assert (Hlo : 1 / 0.42467 < sqrt (8 * ln 2)).
  { rewrite <- (sqrt_pow2 (1 / 0.42467)) by lra.
    apply sqrt_lt_1; [nra | lra | nra]. }
  assert (Hhi : sqrt (8 * ln 2) < 1 / 0.42465).
  { rewrite <- (sqrt_pow2 (1 / 0.42465)) by lra.
    apply sqrt_lt_1; [lra | nra | nra]. }
  split.
  - apply (Rmult_lt_reg_r (sqrt (8 * ln 2))); [exact Hs|].
    replace (1 / sqrt (8 * ln 2) * sqrt (8 * ln 2)) with 1 by (field; lra).
    lra.
  - apply (Rmult_lt_reg_r (sqrt (8 * ln 2))); [exact Hs|].
    replace (1 / sqrt (8 * ln 2) * sqrt (8 * ln 2)) with 1 by (field; lra).
    lra.
Qed.

Section Gaussian2d.

Context {ext : Externals}.

(** C7: on a 2-D array, mode ['conv'] is one call of the separable Gaussian
    filter with standard deviation [size_fwhm * gaussian_fwhm_to_sigma] (a
    factor that is 0.42466 to five decimal places), derivative order 0 and
    boundary mode ['nearest'], whose result or exception is that of the
    operation; a mode other than ['conv'] and ['convfft'] raises the
    unrecognized-mode error before any library call. *)
Theorem gaussian2d_conv w array o size_fwhm :
  lookup w array = Some o -> obj_ndim o = 2%nat ->
  frame_filter_gaussian2d array size_fwhm "conv" w
  = match ext_gaussian_filter o (size_fwhm * gaussian_fwhm_to_sigma)
            0%Z "nearest" with
    | Ok r =>
        (Ok (length (heap w)),
         mk_world (heap w ++ [r]) (trace w ++ [ScipyGaussianFilter]))
    | Raise e =>
        (Raise e, mk_world (heap w) (trace w ++ [ScipyGaussianFilter]))
    end /\
  0.42465 < gaussian_fwhm_to_sigma < 0.42467 /\
  (forall mode, mode <> "conv"%string -> mode <> "convfft"%string ->
     frame_filter_gaussian2d array size_fwhm mode w = (Raise mode_error, w)).
Proof.
  intros Hl Hn. split; [|split].
  - unfold frame_filter_gaussian2d.
    rewrite (bind_ok _ _ _ _ _ (ndarray_ndim_ok _ _ _ Hl)).
    rewrite Hn. cbn [Nat.eqb negb String.eqb Ascii.eqb Bool.eqb].
    unfold gaussian_filter.
    destruct (ext_gaussian_filter o _ 0%Z "nearest") as [r|e] eqn:E.
    + erewrite bind_ok by (eapply libcall1_ok; [exact Hl | exact E]).
      reflexivity.
    + erewrite bind_raise by (eapply libcall1_raise; [exact Hl | exact E]).
      reflexivity.
  - apply gaussian_fwhm_to_sigma_approx.
  - intros mode H1 H2. unfold frame_filter_gaussian2d.
    rewrite (bind_ok _ _ _ _ _ (ndarray_ndim_ok _ _ _ Hl)).
    rewrite Hn. cbn [Nat.eqb negb].
    rewrite (string_eqb_neq _ _ H1), (string_eqb_neq _ _ H2). reflexivity.
Qed.

End Gaussian2d.

(** C7, at the 2 x 2 frame [[1, 2], [3, 4]] with [size_fwhm = 3]. *)
Lemma gaussian2d_conv_witness :
  fst (frame_filter_gaussian2d (ext := Toy.externals) 0%nat 3 "conv" Toy.w22)
  = Ok 1%nat /\
  frame_filter_gaussian2d (ext := Toy.externals) 0%nat 3 "bogus" Toy.w22
  = (Raise mode_error, Toy.w22).
Proof.
  destruct (gaussian2d_conv (ext := Toy.externals) Toy.w22 0%nat Toy.frame22 3
              eq_refl eq_refl) as (H1 & _ & H3).
  split.
  - rewrite H1. reflexivity.
  - apply H3; discriminate.
Defined.

(* ================================================================== *)
(** * Part XVIII: more on the Gaussian kernel *)
(* ================================================================== *)

Lemma gaussian_value_le_1 n ny i j :
  (1 <= n)%Z -> (1 <= ny)%Z -> gaussian_value n ny i j <= 1.
Proof.
  intros Hn Hny; unfold gaussian_value.
  assert (0 < IZR n) by (apply (IZR_lt 0); lia).
  assert (0 < IZR ny) by (apply (IZR_lt 0); lia).
  set (x := IZR (- n + Z.of_nat i)). set (y := IZR (- ny + Z.of_nat j)).
  assert (0 <= x ^ 2 / IZR n).
  { apply Rmult_le_pos; [apply pow2_ge_0 | left; apply Rinv_0_lt_compat; lra]. }
  assert (0 <= y ^ 2 / IZR ny).
  { apply Rmult_le_pos; [apply pow2_ge_0 | left; apply Rinv_0_lt_compat; lra]. }
  rewrite <- exp_0.
  destruct (Req_dec (x ^ 2 / IZR n + y ^ 2 / IZR ny) 0) as [E|E].
  - rewrite E, Ropp_0; lra.
  - left; apply exp_increasing; lra.
Qed.

Lemma gaussian_value_centre n ny :
  (0 <= n)%Z -> (0 <= ny)%Z ->
  gaussian_value n ny (Z.to_nat n) (Z.to_nat ny) = 1.
Proof.
  intros Hn Hny; unfold gaussian_value.
  rewrite !Z2Nat.id by lia.
  replace (- n + n)%Z with 0%Z by lia. replace (- ny + ny)%Z with 0%Z by lia.
  replace (- (0 ^ 2 / IZR n + 0 ^ 2 / IZR ny)) with 0
    by (unfold Rdiv; ring).
  apply exp_0.
Qed.

Lemma max_entry_unique a m1 m2 :
  max_entry_is a m1 -> max_entry_is a m2 -> m1 = m2.
Proof.
  intros (U1 & i1 & j1 & Hi1 & Hj1 & E1) (U2 & i2 & j2 & Hi2 & Hj2 & E2).
  pose proof (U1 i2 j2 Hi2 Hj2). pose proof (U2 i1 j1 Hi1 Hj1). lra.
Qed.

(** The peak of the flux-normalised kernel is [1 / flux]. *)
Lemma peak_of_flux_normalised n ny flux :
  (1 <= n)%Z -> (1 <= ny)%Z -> 0 < flux ->
  list_max (tab_data (Z.to_nat (2 * n + 1)) (Z.to_nat (2 * ny + 1))
              (fun i j => gaussian_value n ny i j / flux))
  = / flux.
Proof.
  intros Hn Hny Hf.
  set (r := Z.to_nat (2 * n + 1)). set (c := Z.to_nat (2 * ny + 1)).
  assert (Hr : (0 < r)%nat) by (unfold r; lia).
  assert (Hc : (0 < c)%nat) by (unfold c; lia).
  apply (max_entry_unique
           (tabulate2 r c (fun i j => gaussian_value n ny i j / flux))).
  - apply list_max_tabulate2; auto.
  - assert (Hi : 0 < / flux) by (apply Rinv_0_lt_compat; exact Hf).
    split.
    + intros i j Hi' Hj'. unfold nrows, ncols in *; simpl in *.
      rewrite get2_tabulate2 by auto.
      pose proof (gaussian_value_le_1 n ny i j Hn Hny).
      unfold Rdiv. nra.
    + exists (Z.to_nat n), (Z.to_nat ny).
      unfold nrows, ncols; simpl.
      assert (Z.to_nat n < r)%nat by (unfold r; lia).
      assert (Z.to_nat ny < c)%nat by (unfold c; lia).
      repeat split; auto.
      rewrite get2_tabulate2 by auto.
      rewrite gaussian_value_centre by lia. unfold Rdiv; ring.
Qed.

Section KernelValue.

Context {ext : Externals}.

(** X1: for valid extents and a positive aperture flux the two normalisations
    cancel: [gaussian_kernel] returns exactly the table of
    [exp (-(x^2/size + y^2/size_y))], whatever the flux was. *)
Theorem gaussian_kernel_flux_cancels w size size_y n ny pos flux :
  py_int size = Ok n ->
  (if negb (truthy size_y) then Ok n else py_int size_y) = Ok ny ->
  (1 <= n)%Z -> (1 <= ny)%Z ->
  ext_frame_center (ArrR (gaussian_grid n ny)) = Ok pos ->
  ext_aperture_sum (ArrR (gaussian_grid n ny)) pos (IZR n / 2) = Ok flux ->
  0 < flux ->
  exists p w',
    gaussian_kernel size size_y w = (Ok p, w') /\
    lookup w' p = Some (ArrR (gaussian_grid n ny)).
Proof.
  intros Hsz Hsy Hn Hny Hc Hf Hflux. destruct w as [h t].
  destruct (kernel_on_grid_run h t n ny pos flux ltac:(lia) ltac:(lia) Hc Hf)
    as (w' & Hrun & Hres).
  exists (length h + 11)%nat, w'. split.
  - rewrite (gaussian_kernel_resolved _ _ _ _ _ Hsz Hsy); exact Hrun.
  - rewrite Hres. do 2 f_equal. unfold gaussian_grid.
    apply tabulate2_ext; intros i j Hi Hj.
    cbn [data tabulate2].
    rewrite (peak_of_flux_normalised n ny flux Hn Hny Hflux).
    field. lra.
Qed.


End KernelValue.

Section KernelEdges.

Context {ext : Externals}.

(** X3: with a negative extent ([size] or the resolved [size_y]) the range of
    an axis of the grid runs backwards, and [gaussian_kernel] stops at
    [np.mgrid] with the [ValueError] of a negative dimension: no kernel is
    returned, nothing is allocated, and neither [frame_center] nor the
    aperture photometry is called. *)
Theorem gaussian_kernel_negative_extent w size size_y n ny :
  py_int size = Ok n ->
  (if negb (truthy size_y) then Ok n else py_int size_y) = Ok ny ->
  (n < 0 \/ ny < 0)%Z ->
  gaussian_kernel size size_y w
  = (Raise (ValueError "negative dimensions are not allowed"),
     mk_world (heap w) (trace w ++ [NpMgrid])).
Proof.
  intros Hsz Hsy Hneg.
  rewrite (gaussian_kernel_resolved _ _ _ _ _ Hsz Hsy).
  unfold kernel_on_grid.
  apply bind_raise, np_mgrid_negative. lia.
Qed.

End KernelEdges.

(** X1, at [gaussian_kernel(1)] with the toy aperture. *)
Lemma gaussian_kernel_flux_cancels_witness :
  exists p w',
    gaussian_kernel (ext := Toy.externals) (PyInt 1) PyNone (mk_world [] [])
    = (Ok p, w') /\
    lookup w' p = Some (ArrR (gaussian_grid 1 1)).
Proof.
  destruct (Toy.aperture_sum (ArrR (gaussian_grid 1 1))
              ((INR 3 - 1) / 2, (INR 3 - 1) / 2) (IZR 1 / 2))
    as [flux|e] eqn:E; [|discriminate E].
  exact (gaussian_kernel_flux_cancels (ext := Toy.externals) (mk_world [] [])
           (PyInt 1) PyNone 1%Z 1%Z
           ((INR 3 - 1) / 2, (INR 3 - 1) / 2) flux
           eq_refl eq_refl ltac:(lia) ltac:(lia) eq_refl E
           (toy_flux_positive flux E)).
Defined.


(** X3, at [gaussian_kernel(-1)]. *)
Lemma gaussian_kernel_negative_extent_witness :
  gaussian_kernel (ext := Toy.externals) (PyInt (-1)) PyNone (mk_world [] [])
  = (Raise (ValueError "negative dimensions are not allowed"),
     mk_world [] [NpMgrid]).
Proof.
  apply (gaussian_kernel_negative_extent (ext := Toy.externals)
           (mk_world [] []) (PyInt (-1)) PyNone (-1)%Z (-1)%Z
           eq_refl eq_refl).
  left; lia.
Defined.

(* ================================================================== *)
(** * Part XIX: more on the Fourier helpers and the [fourier-butter] mode *)
(* ================================================================== *)

Lemma Csum_RtoC n f : Csum n (fun k => RtoC (f k)) = RtoC (Rsum_n n f).
Proof.
  induction n as [|n IH]; simpl; [reflexivity|].
  rewrite IH. unfold Cadd, RtoC; simpl. f_equal; ring.
Qed.

Lemma centre_index n : (0 < n)%nat -> ((n / 2 + (n - n / 2)) mod n = 0)%nat.
Proof.
  intros Hn.
  assert (n / 2 <= n)%nat by (apply Nat.Div0.div_le_upper_bound; lia).
  replace (n / 2 + (n - n / 2))%nat with n by lia.
  apply Nat.Div0.mod_same.
Qed.

Lemma half_lt n : (0 < n)%nat -> (n / 2 < n)%nat.
Proof. intros; apply Nat.div_lt; lia. Qed.

(** Entry [(i, j)] of the centred spectrum is the Fourier sum of frequency
    [((i + r - r/2) mod r, (j + c - c/2) mod c)]. *)
Lemma get2_centred_spectrum a r c i j :
  (0 < r)%nat -> (0 < c)%nat -> (i < r)%nat -> (j < c)%nat ->
  get2 C0 (centred_spectrum a r c) i j
  = get2 C0 (Numpy.dft2 (-1) (amap RtoC a) r c)
      ((i + (r - r / 2)) mod r)%nat ((j + (c - c / 2)) mod c)%nat.
Proof.
  intros Hr Hc Hi Hj. unfold centred_spectrum, Numpy.dft2.
  rewrite roll2_tabulate2 by auto.
  rewrite !get2_tabulate2 by (auto; apply Nat.mod_upper_bound; lia).
  reflexivity.
Qed.

(** X4: [fft] puts the zero frequency at the centre: entry [(r/2, c/2)] of
    the spectrum it returns is the sum of all the pixels of the frame. *)
Theorem fft_zero_frequency_at_centre w array a r c :
  lookup w array = Some (ArrR a) ->
  shape a = [r; c] -> (0 < r)%nat -> (0 < c)%nat ->
  exists p w1 s,
    fft array w = (Ok p, w1) /\
    lookup w1 p = Some (ArrC s) /\
    shape s = [r; c] /\
    get2 C0 s (r / 2) (c / 2)
    = RtoC (Rsum_n r (fun m => Rsum_n c (fun n => get2 0 a m n))).
Proof.
  intros Hl Hs Hr Hc. destruct w as [h t].
  pose proof (fft_ok array a r c (mk_world h t) Hl Hs Hr Hc) as Hrun.
  cbn [heap trace] in Hrun.
  do 2 eexists. exists (centred_spectrum a r c).
  split; [exact Hrun|]. split; [solve_lookup|]. split; [reflexivity|].
  rewrite get2_centred_spectrum by (auto using half_lt).
  rewrite !centre_index by auto.
  unfold Numpy.dft2. rewrite get2_tabulate2 by auto.
  rewrite <- Csum_RtoC. apply Csum_ext; intros m Hm.
  rewrite <- Csum_RtoC. apply Csum_ext; intros n Hn.
  rewrite get2_amap_RtoC, !Nat.mul_0_r. simpl INR.
  replace (-1 * (2 * PI * (0 / INR r + 0 / INR c))) with 0
    by (unfold Rdiv; ring).
  rewrite cis_0. apply Cmul_1_r.
Qed.

(** X4, at the 2 x 2 frame [[1, 2], [3, 4]]: the centre entry is 10. *)
Lemma fft_zero_frequency_at_centre_witness :
  exists p w1 s,
    fft 0%nat Toy.w22 = (Ok p, w1) /\
    lookup w1 p = Some (ArrC s) /\
    get2 C0 s 1 1 = RtoC 10.
Proof.
  destruct (fft_zero_frequency_at_centre Toy.w22 0%nat
              (mk_ndarray [2%nat; 2%nat] [1; 2; 3; 4]) 2 2
              eq_refl eq_refl ltac:(lia) ltac:(lia))
    as (p & w1 & s & H1 & H2 & _ & H4).
  exists p, w1, s; repeat split; auto.
  change (2 / 2)%nat with 1%nat in H4. rewrite H4.
  unfold get2; simpl. f_equal. ring.
Defined.

Lemma Cmod_nonneg z : 0 <= Cmod z.
Proof. apply sqrt_pos. Qed.

Lemma from_centred_spectrum_entries s r c i j :
  (i < r)%nat -> (j < c)%nat ->
  0 <= get2 0 (from_centred_spectrum s r c) i j.
Proof.
  intros Hi Hj. unfold from_centred_spectrum, Numpy.dft2.
  rewrite !amap_tabulate2, get2_tabulate2 by auto.
  apply Cmod_nonneg.
Qed.

(** X5: [ifft] returns magnitudes: on a spectrum with both dimensions at
    least 1 it returns a real frame of the same shape none of whose pixels is
    negative. *)
Theorem ifft_is_nonnegative w p s r c :
  lookup w p = Some (ArrC s) ->
  shape s = [r; c] -> (0 < r)%nat -> (0 < c)%nat ->
  exists q w2 y,
    ifft p w = (Ok q, w2) /\
    lookup w2 q = Some (ArrR y) /\
    shape y = [r; c] /\
    (forall i j, (i < r)%nat -> (j < c)%nat -> 0 <= get2 0 y i j).
Proof.
  intros Hl Hs Hr Hc. destruct w as [h t].
  pose proof (ifft_ok p s r c (mk_world h t) Hl Hs Hr Hc) as Hrun.
  cbn [heap trace] in Hrun.
  do 2 eexists. exists (from_centred_spectrum s r c).
  split; [exact Hrun|]. split; [solve_lookup|]. split; [reflexivity|].
  intros i j Hi Hj. apply from_centred_spectrum_entries; auto.
Qed.

(** X5, at the 1 x 1 spectrum [[-3]]. *)
Lemma ifft_is_nonnegative_witness :
  exists q w2 y,
    ifft 0%nat (mk_world [ArrC (mk_ndarray [1%nat; 1%nat] [RtoC (-3)])] [])
    = (Ok q, w2) /\
    lookup w2 q = Some (ArrR y) /\ 0 <= get2 0 y 0 0.
Proof.
  destruct (ifft_is_nonnegative
              (mk_world [ArrC (mk_ndarray [1%nat; 1%nat] [RtoC (-3)])] [])
              0%nat (mk_ndarray [1%nat; 1%nat] [RtoC (-3)]) 1 1
              eq_refl eq_refl ltac:(lia) ltac:(lia))
    as (q & w2 & y & H1 & H2 & _ & H4).
  exists q, w2, y; repeat split; auto.
Defined.

Section FourierButterMore.

Context {ext : Externals}.

(** The frame returned by the [fourier-butter] mode. *)
Lemma highpass_fourier_butter_value w array a r c ms ks fs :
  lookup w array = Some (ArrR a) ->
  shape a = [r; c] -> (0 < r)%nat -> (0 < c)%nat ->
  exists p w',
    frame_filter_highpass array "fourier-butter" ms ks fs w = (Ok p, w') /\
    lookup w' p
    = Some (ArrR (from_centred_spectrum
                    (tabulate2 r c (fun i j =>
                       Cmul (get2 C0 (centred_spectrum a r c) i j)
                            (RtoC (butter_filter r c i j))))
                    r c)).
Proof.
  intros Hl Hs Hr Hc. destruct w as [h t].
  rewrite (highpass_2d_step _ _ _ _ _ _ _ Hl)
    by (unfold obj_ndim; simpl; rewrite Hs; reflexivity).
  cbn [String.eqb Ascii.eqb Bool.eqb].
  rewrite (bind_ok _ _ _ _ _ (ndarray_shape_ok _ _ _ Hl)).
  cbn [obj_shape]. rewrite Hs.
  rewrite (bind_ok (unpack2 [r; c]) _ _ (r, c) (mk_world h t)) by reflexivity.
  unfold np_linspace.
  erewrite bind_ok by (apply libcall0_ok; apply linspace_value).
  cbn [heap trace].
  do 2 vector_step.
  erewrite bind_ok by (apply libcall0_ok; apply linspace_value).
  cbn [heap trace].
  do 3 vector_step.
  erewrite bind_ok by (apply newaxis_front_ok; solve_lookup).
  cbn [heap trace shape data].
  vector_step.
  erewrite bind_ok by (apply newaxis_back_ok; solve_lookup).
  cbn [heap trace shape data].
  unfold np_ufunc2.
  erewrite bind_ok
    by (eapply libcall2_ok; [solve_lookup | solve_lookup | apply ufunc2_outer]).
  cbn [heap trace].
  unfold np_sqrt.
  do 6 table_step.
  erewrite bind_ok by (eapply fft_ok; [solve_lookup | eauto..]).
  cbn [heap trace].
  unfold np_multiply.
  erewrite bind_ok.
  2:{ eapply libcall2_ok; [solve_lookup | solve_lookup |].
      apply multiply_complex_real.
      unfold centred_spectrum, Numpy.roll2, nrows, ncols; reflexivity. }
  cbn [heap trace].
  erewrite bind_ok by (eapply ifft_ok; [solve_lookup | reflexivity | auto..]).
  cbn [heap trace]. unfold ret.
  do 2 eexists; split; [reflexivity|].
  match goal with
  | |- lookup (mk_world
                 (_ ++ [ArrR (from_centred_spectrum (tabulate2 r c ?f) r c)])
                 _) _ = _ =>
      rewrite (tabulate2_ext r c f
                 (fun i j => Cmul (get2 C0 (centred_spectrum a r c) i j)
                                  (RtoC (butter_filter r c i j))))
  end.
  - solve_lookup.
  - intros i j Hi Hj. do 2 f_equal.
    unfold butter_filter, butterworth_highpass.
    rewrite !linspace_grid_coord. reflexivity.
Qed.

(** X6: on a 2-D frame with both dimensions at least 1 the [fourier-butter]
    mode returns a frame of the same shape, and no pixel of it is negative
    (the sign of the filtered signal is lost in the magnitude). *)
Theorem highpass_fourier_butter_nonnegative w array a r c ms ks fs :
  lookup w array = Some (ArrR a) ->
  shape a = [r; c] -> (0 < r)%nat -> (0 < c)%nat ->
  exists p w' y,
    frame_filter_highpass array "fourier-butter" ms ks fs w = (Ok p, w') /\
    lookup w' p = Some (ArrR y) /\
    shape y = [r; c] /\
    (forall i j, (i < r)%nat -> (j < c)%nat -> 0 <= get2 0 y i j).
Proof.
  intros Hl Hs Hr Hc.
  destruct (highpass_fourier_butter_value w array a r c ms ks fs Hl Hs Hr Hc)
    as (p & w' & Hrun & Hres).
  exists p, w'; eexists. split; [exact Hrun|]. split; [exact Hres|].
  split; [reflexivity|].
  intros i j Hi Hj. apply from_centred_spectrum_entries; auto.
Qed.

End FourierButterMore.

(** X6, at the 2 x 2 frame [[1, 2], [3, 4]]. *)
Lemma highpass_fourier_butter_nonnegative_witness :
  exists p w' y,
    frame_filter_highpass (ext := Toy.externals) 0%nat "fourier-butter"
      5%Z 5%Z 5 Toy.w22 = (Ok p, w') /\
    lookup w' p = Some (ArrR y) /\ 0 <= get2 0 y 0 1.
Proof.
  destruct (highpass_fourier_butter_nonnegative (ext := Toy.externals)
              Toy.w22 0%nat (mk_ndarray [2%nat; 2%nat] [1; 2; 3; 4]) 2 2
              5%Z 5%Z 5 eq_refl eq_refl ltac:(lia) ltac:(lia))
    as (p & w' & y & H1 & H2 & _ & H4).
  exists p, w', y. split; [exact H1|]. split; [exact H2|]. apply H4; lia.
Defined.

(** The sum of the [r]-th roots of unity raised to the power [k]. *)
Lemma root_sum r k :
  (k < r)%nat ->
  Csum r (fun m => cis (-1 * (2 * PI * (INR (m * k) / INR r))))
  = if (k =? 0)%nat then RtoC (INR r) else C0.
Proof.
  intros Hk. assert (Hr : (0 < r)%nat) by lia.
  rewrite <- (roots_orthogonal r k 0 Hk Hr).
  apply Csum_ext; intros m Hm.
  rewrite Nat.mul_0_r, (Nat.mul_comm m k). simpl INR.
  replace (1 * (2 * PI * (0 / INR r))) with 0 by (unfold Rdiv; ring).
  rewrite cis_0, Cmul_1_r. reflexivity.
Qed.

(** The Fourier sums of the frame that is 1 everywhere. *)
Lemma dft2_of_ones r c k l :
  (k < r)%nat -> (l < c)%nat ->
  Csum r (fun m => Csum c (fun n =>
    cis (-1 * (2 * PI * (INR (m * k) / INR r + INR (n * l) / INR c)))))
  = if ((k =? 0) && (l =? 0))%nat then RtoC (INR r * INR c) else C0.
Proof.
  intros Hk Hl.
  rewrite (Csum_ext r _ (fun m =>
             Cmul (cis (-1 * (2 * PI * (INR (m * k) / INR r))))
                  (Csum c (fun n =>
                     cis (-1 * (2 * PI * (INR (n * l) / INR c))))))).
  2:{ intros m Hm. rewrite <- Csum_mul_l. apply Csum_ext; intros n Hn.
      apply twiddle_split. }
  rewrite Csum_mul_r, !root_sum by auto.
  destruct (k =? 0)%nat, (l =? 0)%nat; simpl;
    unfold Cmul, RtoC, C0; simpl; f_equal; ring.
Qed.

(** Adding the constant [v] to a frame adds [v] times the Fourier sums of
    the frame of ones. *)
Lemma dft2_offset a b v r c k l :
  (forall m n, (m < r)%nat -> (n < c)%nat ->
     get2 0 b m n = get2 0 a m n + v) ->
  (k < r)%nat -> (l < c)%nat ->
  get2 C0 (Numpy.dft2 (-1) (amap RtoC b) r c) k l
  = Cadd (get2 C0 (Numpy.dft2 (-1) (amap RtoC a) r c) k l)
         (if ((k =? 0) && (l =? 0))%nat
          then RtoC (v * (INR r * INR c)) else C0).
Proof.
  intros Hb Hk Hl. unfold Numpy.dft2. rewrite !get2_tabulate2 by auto.
  replace (if ((k =? 0) && (l =? 0))%nat
           then RtoC (v * (INR r * INR c)) else C0)
    with (Cmul (RtoC v)
            (if ((k =? 0) && (l =? 0))%nat
             then RtoC (INR r * INR c) else C0))
    by (destruct ((k =? 0) && (l =? 0))%nat;
        unfold Cmul, RtoC, C0; simpl; f_equal; ring).
  rewrite <- (dft2_of_ones r c k l Hk Hl).
  rewrite <- Csum_mul_l, <- Csum_add. apply Csum_ext; intros m Hm.
  rewrite <- Csum_mul_l, <- Csum_add. apply Csum_ext; intros n Hn.
  rewrite !get2_amap_RtoC, Hb by auto.
  generalize (cis (-1 * (2 * PI * (INR (m * k) / INR r
                                   + INR (n * l) / INR c)))).
  intros z; destruct z; unfold Cmul, Cadd, RtoC; simpl; f_equal; ring.
Qed.

Lemma shifted_index_zero i n :
  (i < n)%nat -> ((i + (n - n / 2)) mod n = 0)%nat -> i = (n / 2)%nat.
Proof.
  intros Hi H.
  assert (Hh : (n / 2 < n)%nat) by (apply half_lt; lia).
  destruct (Nat.lt_ge_cases (i + (n - n / 2)) n) as [L|L].
  - rewrite Nat.mod_small in H by exact L. lia.
  - replace (i + (n - n / 2))%nat with ((i - n / 2) + 1 * n)%nat in H by lia.
    rewrite Nat.Div0.mod_add, Nat.mod_small in H by lia. lia.
Qed.

Lemma grid_coord_centre pxd n :
  Nat.odd n = true -> (3 <= n)%nat -> grid_coord pxd n (n / 2) = 0.
Proof.
  intros Ho Hn. apply Nat.odd_spec in Ho. destruct Ho as [q ->].
  replace ((2 * q + 1) / 2)%nat with q
    by (apply (Nat.div_unique _ 2 q 1); lia).
  unfold grid_coord.
  replace (2 * q + 1 - 1)%nat with (2 * q)%nat by lia.
  assert (INR q <> 0) by (apply not_0_INR; lia).
  assert (E : INR q / INR (2 * q) = 1 / 2)
    by (rewrite mult_INR; simpl (INR 2); field; auto).
  rewrite E. unfold Rdiv; ring.
Qed.

(** The transfer function vanishes at the centre of an odd-sized grid. *)
Lemma butter_filter_centre r c :
  Nat.odd r = true -> Nat.odd c = true -> (3 <= r)%nat -> (3 <= c)%nat ->
  butter_filter r c (r / 2) (c / 2) = 0.
Proof.
  intros Hr Hc Hr3 Hc3. unfold butter_filter, butterworth_highpass.
  rewrite !grid_coord_centre by auto.
  replace (0 ^ 2 + 0 ^ 2) with 0 by ring. rewrite sqrt_0.
  replace (0 / 0.5) with 0 by (unfold Rdiv; ring).
  rewrite pow_i by lia. field.
Qed.

(** On an odd-sized grid the filtered spectrum does not see a constant
    offset of the frame. *)
Lemma filtered_spectrum_offset a b v r c :
  Nat.odd r = true -> Nat.odd c = true -> (3 <= r)%nat -> (3 <= c)%nat ->
  (forall m n, (m < r)%nat -> (n < c)%nat ->
     get2 0 b m n = get2 0 a m n + v) ->
  tabulate2 r c (fun i j =>
    Cmul (get2 C0 (centred_spectrum b r c) i j) (RtoC (butter_filter r c i j)))
  = tabulate2 r c (fun i j =>
    Cmul (get2 C0 (centred_spectrum a r c) i j) (RtoC (butter_filter r c i j))).
Proof.
  intros Hor Hoc Hr3 Hc3 Hb. apply tabulate2_ext; intros i j Hi Hj.
  assert (Hr : (0 < r)%nat) by lia. assert (Hc : (0 < c)%nat) by lia.
  rewrite !get2_centred_spectrum by auto.
  rewrite (dft2_offset a b v r c) by (auto; apply Nat.mod_upper_bound; lia).
  rewrite Cmul_add_distr_r.
  destruct ((i + (r - r / 2)) mod r =? 0)%nat eqn:Ei;
    [destruct ((j + (c - c / 2)) mod c =? 0)%nat eqn:Ej|]; cbn [andb].
  - apply Nat.eqb_eq in Ei, Ej.
    apply shifted_index_zero in Ei; auto. apply shifted_index_zero in Ej; auto.
    subst i j. rewrite butter_filter_centre by auto.
    change (RtoC 0) with C0. rewrite !Cmul_0_r. apply Cadd_0_r.
  - rewrite Cmul_0_l. apply Cadd_0_r.
  - rewrite Cmul_0_l. apply Cadd_0_r.
Qed.

Lemma Cmod_0 : Cmod C0 = 0.
Proof.
  unfold Cmod, C0; simpl. replace (0 * 0 + 0 * 0) with 0 by ring. apply sqrt_0.
Qed.

(** The way back from the zero spectrum is the zero frame. *)
Lemma from_centred_spectrum_zero r c :
  (0 < r)%nat -> (0 < c)%nat ->
  from_centred_spectrum (tabulate2 r c (fun _ _ => C0)) r c
  = tabulate2 r c (fun _ _ => 0).
Proof.
  intros Hr Hc. unfold from_centred_spectrum.
  rewrite roll2_tabulate2 by auto. unfold Numpy.dft2.
  rewrite !amap_tabulate2. apply tabulate2_ext; intros i j Hi Hj.
  rewrite (Csum_ext r _ (fun _ => C0)).
  - rewrite Csum_0. unfold Cscale, C0; simpl.
    rewrite !Rmult_0_r. apply Cmod_0.
  - intros k Hk. rewrite (Csum_ext c _ (fun _ => C0)); [apply Csum_0|].
    intros l Hl. rewrite get2_tabulate2 by auto. apply Cmul_0_l.
Qed.

Lemma centred_spectrum_of_zero r c i j :
  (0 < r)%nat -> (0 < c)%nat -> (i < r)%nat -> (j < c)%nat ->
  get2 C0 (centred_spectrum (tabulate2 r c (fun _ _ => 0)) r c) i j = C0.
Proof.
  intros Hr Hc Hi Hj. rewrite get2_centred_spectrum by auto.
  unfold Numpy.dft2.
  rewrite get2_tabulate2 by (apply Nat.mod_upper_bound; lia).
  rewrite (Csum_ext r _ (fun _ => C0)); [apply Csum_0|].
  intros m Hm. rewrite (Csum_ext c _ (fun _ => C0)); [apply Csum_0|].
  intros n Hn. rewrite get2_amap_RtoC, get2_tabulate2 by auto.
  apply Cmul_0_l.
Qed.

Section FourierButterOffset.

Context {ext : Externals}.

(** X7: on frames with odd dimensions of at least 3, the [fourier-butter]
    mode ignores a constant offset: two frames that differ by the same value
    at every pixel give the same filtered frame. *)
Theorem highpass_fourier_butter_ignores_offset
    w1 w2 p1 p2 a b v r c ms ks fs :
  lookup w1 p1 = Some (ArrR a) -> lookup w2 p2 = Some (ArrR b) ->
  shape a = [r; c] -> shape b = [r; c] ->
  Nat.odd r = true -> Nat.odd c = true -> (3 <= r)%nat -> (3 <= c)%nat ->
  (forall m n, (m < r)%nat -> (n < c)%nat ->
     get2 0 b m n = get2 0 a m n + v) ->
  exists q1 w1' q2 w2' y,
    frame_filter_highpass p1 "fourier-butter" ms ks fs w1 = (Ok q1, w1') /\
    frame_filter_highpass p2 "fourier-butter" ms ks fs w2 = (Ok q2, w2') /\
    lookup w1' q1 = Some (ArrR y) /\
    lookup w2' q2 = Some (ArrR y).
Proof.
  intros Hl1 Hl2 Hsa Hsb Hor Hoc Hr3 Hc3 Hb.
  destruct (highpass_fourier_butter_value w1 p1 a r c ms ks fs Hl1 Hsa
              ltac:(lia) ltac:(lia)) as (q1 & w1' & Hrun1 & Hres1).
  destruct (highpass_fourier_butter_value w2 p2 b r c ms ks fs Hl2 Hsb
              ltac:(lia) ltac:(lia)) as (q2 & w2' & Hrun2 & Hres2).
  exists q1, w1', q2, w2'. eexists.
  split; [exact Hrun1|]. split; [exact Hrun2|]. split; [exact Hres1|].
  rewrite Hres2.
  rewrite (filtered_spectrum_offset a b v r c) by auto.
  reflexivity.
Qed.

(** X8: on a constant frame with odd dimensions of at least 3, the
    [fourier-butter] mode returns the frame that is zero everywhere: the
    constant component is removed exactly. *)
Theorem highpass_fourier_butter_constant w array a v r c ms ks fs :
  lookup w array = Some (ArrR a) -> shape a = [r; c] ->
  Nat.odd r = true -> Nat.odd c = true -> (3 <= r)%nat -> (3 <= c)%nat ->
  (forall m n, (m < r)%nat -> (n < c)%nat -> get2 0 a m n = v) ->
  exists p w',
    frame_filter_highpass array "fourier-butter" ms ks fs w = (Ok p, w') /\
    lookup w' p = Some (ArrR (tabulate2 r c (fun _ _ => 0))).
Proof.
  intros Hl Hs Hor Hoc Hr3 Hc3 Hv.
  assert (Hr : (0 < r)%nat) by lia. assert (Hc : (0 < c)%nat) by lia.
  destruct (highpass_fourier_butter_value w array a r c ms ks fs Hl Hs Hr Hc)
    as (p & w' & Hrun & Hres).
  exists p, w'. split; [exact Hrun|]. rewrite Hres. do 2 f_equal.
  rewrite (filtered_spectrum_offset (tabulate2 r c (fun _ _ => 0)) a v r c)
    by (auto; intros m n Hm Hn;
        rewrite get2_tabulate2, Hv by auto; ring).
  rewrite (tabulate2_ext r c _ (fun _ _ => C0)).
  - apply from_centred_spectrum_zero; auto.
  - intros i j Hi Hj. rewrite centred_spectrum_of_zero by auto.
    apply Cmul_0_l.
Qed.

End FourierButterOffset.

(** X7, at the 3 x 3 frames that are 0 and 5 everywhere. *)
Lemma highpass_fourier_butter_ignores_offset_witness :
  let a := tabulate2 3 3 (fun _ _ => 0) in
  let b := tabulate2 3 3 (fun _ _ => 5) in
  exists q1 w1' q2 w2' y,
    frame_filter_highpass (ext := Toy.externals) 0%nat "fourier-butter"
      5%Z 5%Z 5 (mk_world [ArrR a] []) = (Ok q1, w1') /\
    frame_filter_highpass (ext := Toy.externals) 0%nat "fourier-butter"
      5%Z 5%Z 5 (mk_world [ArrR b] []) = (Ok q2, w2') /\
    lookup w1' q1 = Some (ArrR y) /\
    lookup w2' q2 = Some (ArrR y).
Proof.
  intros a b.
  apply (highpass_fourier_butter_ignores_offset (ext := Toy.externals)
           (mk_world [ArrR a] []) (mk_world [ArrR b] []) 0%nat 0%nat a b 5 3 3
           5%Z 5%Z 5 eq_refl eq_refl eq_refl eq_refl eq_refl eq_refl);
    try lia.
  intros m n Hm Hn. unfold a, b. rewrite !get2_tabulate2 by auto. ring.
Defined.

(** X8, at the 3 x 3 frame that is 7 everywhere. *)
Lemma highpass_fourier_butter_constant_witness :
  exists p w',
    frame_filter_highpass (ext := Toy.externals) 0%nat "fourier-butter"
      5%Z 5%Z 5 (mk_world [ArrR (tabulate2 3 3 (fun _ _ => 7))] [])
    = (Ok p, w') /\
    lookup w' p = Some (ArrR (tabulate2 3 3 (fun _ _ => 0))).
Proof.
  apply (highpass_fourier_butter_constant (ext := Toy.externals)
           (mk_world [ArrR (tabulate2 3 3 (fun _ _ => 7))] []) 0%nat
           (tabulate2 3 3 (fun _ _ => 7)) 7 3 3 5%Z 5%Z 5
           eq_refl eq_refl eq_refl eq_refl); try lia.
  intros m n Hm Hn. apply get2_tabulate2; auto.
Defined.

(* ================================================================== *)
(** * Part XX: more on the [median-subt] mode *)
(* ================================================================== *)

(** The median filter never invents a value: each of its pixels is a pixel
    of the frame. *)
Lemma median_at_in_frame a r c s i j :
  shape a = [r; c] -> (0 < s)%nat -> (i < r)%nat -> (j < c)%nat ->
  exists i' j', (i' < r)%nat /\ (j' < c)%nat /\
    Scipy.median_at a s i j = get2 0 a i' j'.
Proof.
  intros Hs Hpos Hi Hj. unfold Scipy.median_at.
  assert (Hin : In (nth (s * s / 2) (Scipy.sort (Scipy.window a s i j)) 0)
                   (Scipy.window a s i j)).
  { eapply Permutation_in; [symmetry; apply sort_perm|].
    apply nth_In.
    rewrite <- (Permutation_length (sort_perm _)), length_window.
    apply Nat.Div0.div_lt_upper_bound; nia. }
  apply (In_tab_data s s) in Hin. destruct Hin as (di & dj & _ & _ & E).
  rewrite E. unfold nrows, ncols; rewrite Hs; cbn [nth].
  do 2 eexists; split; [|split; [|reflexivity]]; lia.
Qed.

Lemma median_at_size_1 a r c i j :
  shape a = [r; c] -> (i < r)%nat -> (j < c)%nat ->
  Scipy.median_at a 1 i j = get2 0 a i j.
Proof.
  intros Hs Hi Hj. unfold Scipy.median_at, Scipy.window, nrows, ncols.
  rewrite Hs. simpl. f_equal; lia.
Qed.

Lemma insert_offset v x l :
  Scipy.insert (x + v) (map (fun y => y + v) l)
  = map (fun y => y + v) (Scipy.insert x l).
Proof.
  induction l as [|y l IH]; simpl; [reflexivity|].
  destruct (Rle_dec (x + v) (y + v)), (Rle_dec x y); simpl;
    try (exfalso; lra); [reflexivity|].
  rewrite IH; reflexivity.
Qed.

Lemma sort_offset v l :
  Scipy.sort (map (fun y => y + v) l) = map (fun y => y + v) (Scipy.sort l).
Proof.
  induction l as [|x l IH]; simpl; [reflexivity|].
  rewrite IH. apply insert_offset.
Qed.

(** Adding a constant to the frame adds it to every median. *)
Lemma median_at_offset a b v r c s i j :
  shape a = [r; c] -> shape b = [r; c] ->
  (0 < s)%nat -> (i < r)%nat -> (j < c)%nat ->
  (forall m n, (m < r)%nat -> (n < c)%nat ->
     get2 0 b m n = get2 0 a m n + v) ->
  Scipy.median_at b s i j = Scipy.median_at a s i j + v.
Proof.
  intros Hsa Hsb Hpos Hi Hj Hb. unfold Scipy.median_at.
  assert (E : Scipy.window b s i j
              = map (fun y => y + v) (Scipy.window a s i j)).
  { unfold Scipy.window.
    transitivity (tab_data s s (fun di dj =>
      get2 0 a (Nat.min (i + di - s / 2) (nrows a - 1))
               (Nat.min (j + dj - s / 2) (ncols a - 1)) + v)).
    - apply (tab_data_ext s s). intros di dj Hdi Hdj.
      unfold nrows, ncols; rewrite Hsa, Hsb; cbn [nth]. apply Hb; lia.
    - symmetry. apply (map_tab_data (fun y => y + v) s s). }
  rewrite E, sort_offset.
  assert (Hlen : (s * s / 2 < length (Scipy.sort (Scipy.window a s i j)))%nat).
  { rewrite <- (Permutation_length (sort_perm _)), length_window.
    apply Nat.Div0.div_lt_upper_bound; nia. }
  rewrite (nth_indep _ 0 (0 + v)) by (rewrite length_map; exact Hlen).
  apply (map_nth (fun y => y + v)).
Qed.

Section MedianMore.

Context {ext : Externals}.

(** X9: in the [median-subt] mode every pixel of the result is the
    difference of two pixels of the input frame: the pixel itself and the
    pixel the median filter selected in its neighbourhood. *)
Theorem highpass_median_subt_differences w array a r c ms ks fs :
  lookup w array = Some (ArrR a) ->
  shape a = [r; c] -> (1 <= ms)%Z ->
  exists p w' y,
    frame_filter_highpass array "median-subt" ms ks fs w = (Ok p, w') /\
    lookup w' p = Some (ArrR y) /\
    shape y = [r; c] /\
    (forall i j, (i < r)%nat -> (j < c)%nat ->
       exists i' j', (i' < r)%nat /\ (j' < c)%nat /\
         get2 0 y i j = get2 0 a i j - get2 0 a i' j').
Proof.
  intros Hl Hs Hm. destruct w as [h t].
  pose proof (highpass_median_subt_run h t array a r c ms ks fs Hl Hs Hm)
    as Hrun. cbv zeta in Hrun.
  do 3 eexists. split; [exact Hrun|]. split.
  - unfold lookup; cbn [heap].
    rewrite nth_error_app2 by lia.
    replace (S (length h) - length h)%nat with 1%nat by lia. reflexivity.
  - split; [reflexivity|]. intros i j Hi Hj.
    destruct (median_at_in_frame a r c (Z.to_nat ms) i j Hs ltac:(lia) Hi Hj)
      as (i' & j' & Hi' & Hj' & E).
    exists i', j'; repeat split; auto.
    rewrite !get2_tabulate2 by auto. rewrite E. reflexivity.
Qed.

(** X10: with [median_size = 1] the median filter is the identity, so the
    [median-subt] mode returns the zero frame for every input frame. *)
Theorem highpass_median_subt_size_1 w array a r c ks fs :
  lookup w array = Some (ArrR a) -> shape a = [r; c] ->
  exists p w',
    frame_filter_highpass array "median-subt" 1 ks fs w = (Ok p, w') /\
    lookup w' p = Some (ArrR (tabulate2 r c (fun _ _ => 0))).
Proof.
  intros Hl Hs. destruct w as [h t].
  pose proof (highpass_median_subt_run h t array a r c 1%Z ks fs Hl Hs
                ltac:(lia)) as Hrun. cbv zeta in Hrun.
  do 2 eexists. split; [exact Hrun|].
  unfold lookup; cbn [heap].
  rewrite nth_error_app2 by lia.
  replace (S (length h) - length h)%nat with 1%nat by lia.
  cbn [nth_error]. do 2 f_equal.
  apply tabulate2_ext; intros i j Hi Hj.
  rewrite get2_tabulate2 by auto.
  change (Z.to_nat 1) with 1%nat.
  rewrite (median_at_size_1 a r c i j Hs Hi Hj). ring.
Qed.

(** X11: the [median-subt] mode ignores a constant offset: two frames that
    differ by the same value at every pixel give the same filtered frame. *)
Theorem highpass_median_subt_ignores_offset
    w1 w2 p1 p2 a b v r c ms ks fs :
  lookup w1 p1 = Some (ArrR a) -> lookup w2 p2 = Some (ArrR b) ->
  shape a = [r; c] -> shape b = [r; c] -> (1 <= ms)%Z ->
  (forall m n, (m < r)%nat -> (n < c)%nat ->
     get2 0 b m n = get2 0 a m n + v) ->
  exists q1 w1' q2 w2' y,
    frame_filter_highpass p1 "median-subt" ms ks fs w1 = (Ok q1, w1') /\
    frame_filter_highpass p2 "median-subt" ms ks fs w2 = (Ok q2, w2') /\
    lookup w1' q1 = Some (ArrR y) /\
    lookup w2' q2 = Some (ArrR y).
Proof.
  intros Hl1 Hl2 Hsa Hsb Hm Hb.
  destruct w1 as [h1 t1], w2 as [h2 t2].
  pose proof (highpass_median_subt_run h1 t1 p1 a r c ms ks fs Hl1 Hsa Hm)
    as Hrun1. cbv zeta in Hrun1.
  pose proof (highpass_median_subt_run h2 t2 p2 b r c ms ks fs Hl2 Hsb Hm)
    as Hrun2. cbv zeta in Hrun2.
  do 5 eexists. split; [exact Hrun1|]. split; [exact Hrun2|]. split.
  - unfold lookup; cbn [heap].
    rewrite nth_error_app2 by lia.
    replace (S (length h1) - length h1)%nat with 1%nat by lia. reflexivity.
  - unfold lookup; cbn [heap].
    rewrite nth_error_app2 by lia.
    replace (S (length h2) - length h2)%nat with 1%nat by lia.
    cbn [nth_error]. do 2 f_equal.
    apply tabulate2_ext; intros i j Hi Hj.
    rewrite !get2_tabulate2 by auto.
    rewrite (median_at_offset a b v r c (Z.to_nat ms) i j) by (auto; lia).
    rewrite Hb by auto. ring.
Qed.

End MedianMore.

(** X9, at the 2 x 2 frame [[1, 2], [3, 4]] with [median_size = 3]. *)
Lemma highpass_median_subt_differences_witness :
  exists p w' y,
    frame_filter_highpass (ext := Toy.externals) 0%nat "median-subt"
      3%Z 5%Z 5 Toy.w22 = (Ok p, w') /\
    lookup w' p = Some (ArrR y) /\ shape y = [2%nat; 2%nat].
Proof.
  destruct (highpass_median_subt_differences (ext := Toy.externals)
              Toy.w22 0%nat (mk_ndarray [2%nat; 2%nat] [1; 2; 3; 4]) 2 2
              3%Z 5%Z 5 eq_refl eq_refl ltac:(lia))
    as (p & w' & y & H1 & H2 & H3 & _).
  exists p, w', y. split; [exact H1|]. split; [exact H2 | exact H3].
Defined.

(** X10, at the 2 x 2 frame [[1, 2], [3, 4]]. *)
Lemma highpass_median_subt_size_1_witness :
  exists p w',
    frame_filter_highpass (ext := Toy.externals) 0%nat "median-subt"
      1%Z 5%Z 5 Toy.w22 = (Ok p, w') /\
    lookup w' p = Some (ArrR (tabulate2 2 2 (fun _ _ => 0))).
Proof.
  exact (highpass_median_subt_size_1 (ext := Toy.externals)
           Toy.w22 0%nat (mk_ndarray [2%nat; 2%nat] [1; 2; 3; 4]) 2 2
           5%Z 5 eq_refl eq_refl).
Defined.

(** X11, at the 2 x 2 frames [[1, 2], [3, 4]] and [[11, 12], [13, 14]]. *)
Lemma highpass_median_subt_ignores_offset_witness :
  let b := mk_ndarray [2%nat; 2%nat] [11; 12; 13; 14] in
  exists q1 w1' q2 w2' y,
    frame_filter_highpass (ext := Toy.externals) 0%nat "median-subt"
      3%Z 5%Z 5 Toy.w22 = (Ok q1, w1') /\
    frame_filter_highpass (ext := Toy.externals) 0%nat "median-subt"
      3%Z 5%Z 5 (mk_world [ArrR b] []) = (Ok q2, w2') /\
    lookup w1' q1 = Some (ArrR y) /\
    lookup w2' q2 = Some (ArrR y).
Proof.
  intros b.
  apply (highpass_median_subt_ignores_offset (ext := Toy.externals)
           Toy.w22 (mk_world [ArrR b] []) 0%nat 0%nat
           (mk_ndarray [2%nat; 2%nat] [1; 2; 3; 4]) b 10 2 2 3%Z 5%Z 5
           eq_refl eq_refl eq_refl eq_refl ltac:(lia)).
  intros m n Hm Hn.
  destruct m as [|[|m]]; [| |lia]; (destruct n as [|[|n]]; [| |lia]);
    unfold get2; simpl; lra.
Defined.

(* ================================================================== *)
(** * Part XXI: the remaining branches of the dispatchers *)
(* ================================================================== *)

Lemma libcall0_raise c r e w :
  r = Raise e ->
  libcall0 c r w = (Raise e, mk_world (heap w) (trace w ++ [c])).
Proof. intros ->; reflexivity. Qed.

Lemma libcall2_raise c f p q o1 o2 e w :
  lookup w p = Some o1 -> lookup w q = Some o2 -> f o1 o2 = Raise e ->
  libcall2 c f p q w = (Raise e, mk_world (heap w) (trace w ++ [c])).
Proof.
  intros Hp Hq Hf; unfold libcall2.
  rewrite (bind_ok _ _ _ _ _ (load_ok _ _ _ Hp)).
  rewrite (bind_ok _ _ _ _ _ (load_ok _ _ _ Hq)).
  unfold bind, emit, lift, new; simpl; rewrite Hf; reflexivity.
Qed.

Lemma bind_ret_r {A} (m : M A) w : bind m (fun x => ret x) w = m w.
Proof. unfold bind, ret. destruct (m w) as [[a|e] w']; reflexivity. Qed.

Lemma map_M_thresholding_ok {A} (thr : A -> R -> result A) t l :
  forall ys w,
    map_result (fun x => thr x t) l = Ok ys ->
    map_M (fun x => emit PywtThresholding ;;; lift (thr x t)) l w
    = (Ok ys,
       mk_world (heap w) (trace w ++ repeat PywtThresholding (length l))).
Proof.
  induction l as [|x l IH]; intros ys w H; simpl in H;
    cbn [map_M length repeat].
  - injection H as <-. rewrite app_nil_r. destruct w; reflexivity.
  - destruct (thr x t) as [y|e] eqn:E; simpl in H; [|discriminate].
    destruct (map_result (fun x0 => thr x0 t) l) as [zs|e] eqn:E2;
      simpl in H; [|discriminate].
    injection H as <-.
    assert (Hx : (emit PywtThresholding ;;; lift (Ok y)) w
                 = (Ok y, mk_world (heap w) (trace w ++ [PywtThresholding])))
      by reflexivity.
    rewrite (bind_ok _ _ _ _ _ Hx).
    rewrite (bind_ok _ _ _ _ _ (IH zs _ eq_refl)). unfold ret; simpl.
    rewrite <- app_assoc. reflexivity.
Qed.

Section Branches.

Context {ext : Externals}.

Lemma gaussian2d_conv_run w array o size_fwhm :
  lookup w array = Some o -> obj_ndim o = 2%nat ->
  frame_filter_gaussian2d array size_fwhm "conv" w
  = libcall1 ScipyGaussianFilter
      (fun o => ext_gaussian_filter o (size_fwhm * gaussian_fwhm_to_sigma)
                  0%Z "nearest") array w.
Proof.
  intros Hl Hn. unfold frame_filter_gaussian2d.
  rewrite (bind_ok _ _ _ _ _ (ndarray_ndim_ok _ _ _ Hl)).
  rewrite Hn. cbn [Nat.eqb negb String.eqb Ascii.eqb Bool.eqb].
  unfold gaussian_filter. apply bind_ret_r.
Qed.

(** X12: the [gauss-subt] mode splits the frame into the Gaussian-smoothed
    frame and the returned residual: when the Gaussian filter (called with
    [sigma = fwhm_size * gaussian_fwhm_to_sigma], order 0, ['nearest'])
    returns a frame of the same shape, residual plus smoothed frame is the
    input, pixel by pixel; when it raises, the exception is the outcome and
    no subtraction takes place. *)
Theorem highpass_gauss_subt w array a r c ms ks fs :
  lookup w array = Some (ArrR a) -> shape a = [r; c] ->
  (forall g,
     ext_gaussian_filter (ArrR a) (fs * gaussian_fwhm_to_sigma) 0%Z "nearest"
     = Ok (ArrR g) ->
     shape g = [r; c] ->
     exists y,
       frame_filter_highpass array "gauss-subt" ms ks fs w
       = (Ok (S (length (heap w))),
          mk_world (heap w ++ [ArrR g; ArrR y])
                   (trace w ++ [ScipyGaussianFilter; NpUfunc])) /\
       shape y = [r; c] /\
       forall i j, (i < r)%nat -> (j < c)%nat ->
         get2 0 y i j + get2 0 g i j = get2 0 a i j) /\
  (forall e,
     ext_gaussian_filter (ArrR a) (fs * gaussian_fwhm_to_sigma) 0%Z "nearest"
     = Raise e ->
     frame_filter_highpass array "gauss-subt" ms ks fs w
     = (Raise e, mk_world (heap w) (trace w ++ [ScipyGaussianFilter]))).
Proof.
  intros Hl Hs.
  assert (Hn : obj_ndim (ArrR a) = 2%nat)
    by (unfold obj_ndim; simpl; rewrite Hs; reflexivity).
  destruct w as [h t]. split.
  - intros g Hg Hsg.
    exists (tabulate2 r c (fun i j => get2 0 a i j - get2 0 g i j)).
    split; [|split; [reflexivity|]].
    + rewrite (highpass_2d_step _ _ _ _ _ _ _ Hl Hn).
      cbn [String.eqb Ascii.eqb Bool.eqb].
      erewrite bind_ok.
      2:{ rewrite (gaussian2d_conv_run _ _ _ _ Hl Hn).
          eapply libcall1_ok; [exact Hl | exact Hg]. }
      cbn [heap trace]. unfold np_ufunc2.
      erewrite bind_ok.
      2:{ eapply libcall2_ok.
          - eapply lookup_weaken; exact Hl.
          - apply lookup_last.
          - apply (ufunc2_same_shape Rminus a g r c Hs Hsg). }
      unfold ret; cbn [heap trace].
      rewrite length_app, <- !app_assoc; simpl.
      rewrite Nat.add_1_r; reflexivity.
    + intros i j Hi Hj. rewrite get2_tabulate2 by auto. ring.
  - intros e He.
    rewrite (highpass_2d_step _ _ _ _ _ _ _ Hl Hn).
    cbn [String.eqb Ascii.eqb Bool.eqb].
    erewrite bind_raise.
    2:{ rewrite (gaussian2d_conv_run _ _ _ _ Hl Hn).
        eapply libcall1_raise; [exact Hl | exact He]. }
    reflexivity.
Qed.

(** X13: in the [kernel-conv] mode [kernel_size = 3] selects the 3 x 3 kernel
    and [kernel_size = 5] the 5 x 5 one; both kernels are built in either
    case, the frame is convolved with the selected one, and the result or
    the exception of the convolution is the outcome.  The entries of each
    kernel sum to zero. *)
Theorem highpass_kernel_conv w array o ms ks fs :
  lookup w array = Some o -> obj_ndim o = 2%nat ->
  (ks = 3 \/ ks = 5)%Z ->
  let kernel := if (ks =? 3)%Z then kernel3_obj else kernel5_obj in
  frame_filter_highpass array "kernel-conv" ms ks fs w
  = match ext_convolve_fft o kernel with
    | Ok y =>
        (Ok (length (heap w) + 2)%nat,
         mk_world (heap w ++ [kernel3_obj; kernel5_obj; y])
                  (trace w ++ [NpArray; NpArray; AstropyConvolveFft]))
    | Raise e =>
        (Raise e,
         mk_world (heap w ++ [kernel3_obj; kernel5_obj])
                  (trace w ++ [NpArray; NpArray; AstropyConvolveFft]))
    end /\
  fold_right Rplus 0 (concat kernel3) = 0 /\
  fold_right Rplus 0 (concat kernel5) = 0.
Proof.
  intros Hl Hn Hks kernel. split; [|split; simpl; ring].
  destruct w as [h t]. unfold kernel.
  rewrite (highpass_2d_step _ _ _ _ _ _ _ Hl Hn).
  cbn [String.eqb Ascii.eqb Bool.eqb]. unfold np_array2.
  erewrite bind_ok by (apply libcall0_ok; reflexivity).
  cbn [heap trace].
  erewrite bind_ok by (apply libcall0_ok; reflexivity).
  cbn [heap trace].
  change (ArrR (mk_ndarray [3%nat; 3%nat] (concat kernel3))) with kernel3_obj.
  change (ArrR (mk_ndarray [5%nat; 5%nat] (concat kernel5))) with kernel5_obj.
  unfold convolve_fft.
  destruct Hks; subst ks; cbn [Z.eqb Pos.eqb local];
    rewrite (bind_ok (ret _) _ _ _ _ eq_refl);
    match goal with
    | |- context [ext_convolve_fft o ?k] =>
        destruct (ext_convolve_fft o k) as [y|e] eqn:E
    end;
    try (erewrite bind_ok
           by (eapply libcall2_ok;
               [do 2 apply lookup_weaken; exact Hl | solve_lookup | exact E]);
         unfold ret; cbn [heap trace];
         rewrite !length_app, <- !app_assoc; simpl;
         do 2 f_equal; lia);
    (erewrite bind_raise
       by (eapply libcall2_raise;
           [do 2 apply lookup_weaken; exact Hl | solve_lookup | exact E]);
     cbn [heap trace]; rewrite <- !app_assoc; reflexivity).
Qed.

(** X14: mode ['convfft'] builds a Gaussian kernel of standard deviation
    [size_fwhm * gaussian_fwhm_to_sigma], the value mode ['conv'] uses as
    [sigma], and convolves the frame with it; an exception of either call is
    the outcome, and the convolution is not called when the kernel cannot be
    built. *)
Theorem gaussian2d_convfft w array o size_fwhm :
  lookup w array = Some o -> obj_ndim o = 2%nat ->
  frame_filter_gaussian2d array size_fwhm "convfft" w
  = match ext_Gaussian2DKernel (size_fwhm * gaussian_fwhm_to_sigma) with
    | Raise e =>
        (Raise e,
         mk_world (heap w) (trace w ++ [AstropyGaussian2DKernel]))
    | Ok gaus =>
        match ext_convolve_fft o gaus with
        | Ok y =>
            (Ok (S (length (heap w))),
             mk_world (heap w ++ [gaus; y])
               (trace w ++ [AstropyGaussian2DKernel; AstropyConvolveFft]))
        | Raise e =>
            (Raise e,
             mk_world (heap w ++ [gaus])
               (trace w ++ [AstropyGaussian2DKernel; AstropyConvolveFft]))
        end
    end.
Proof.
  intros Hl Hn. destruct w as [h t]. unfold frame_filter_gaussian2d.
  rewrite (bind_ok _ _ _ _ _ (ndarray_ndim_ok _ _ _ Hl)).
  rewrite Hn. cbn [Nat.eqb negb String.eqb Ascii.eqb Bool.eqb].
  unfold Gaussian2DKernel, convolve_fft.
  destruct (ext_Gaussian2DKernel _) as [gaus|e] eqn:Eg.
  - erewrite bind_ok by (apply libcall0_ok; reflexivity).
    cbn [heap trace].
    destruct (ext_convolve_fft o gaus) as [y|e] eqn:Ec.
    + erewrite bind_ok.
      2:{ eapply libcall2_ok; [|apply lookup_last | exact Ec].
          apply lookup_weaken; exact Hl. }
      unfold ret; cbn [heap trace].
      rewrite length_app, <- !app_assoc; simpl.
      rewrite Nat.add_1_r; reflexivity.
    + erewrite bind_raise.
      2:{ eapply libcall2_raise; [|apply lookup_last | exact Ec].
          apply lookup_weaken; exact Hl. }
      cbn [heap trace]. rewrite <- !app_assoc; reflexivity.
  - erewrite bind_raise by (apply libcall0_raise; reflexivity).
    reflexivity.
Qed.

(** X15: the three operations that take a frame validate it in the same way:
    on an array that is not 2-D each of them raises the input-shape error
    before any library call, whatever the mode or threshold mode (a wrong
    mode is not reported in that case). *)
Theorem shape_validation_is_uniform w array o (c : public_call) :
  lookup w array = Some o -> obj_ndim o <> 2%nat ->
  (exists mode ms ks fs, c = CallHighpass array mode ms ks fs) \/
  (exists s mode, c = CallGaussian2d array s mode) \/
  (exists wv t l thrmode, c = CallWaveletDenoise array wv t l thrmode) ->
  run_call c w = (Raise shape_error, w).
Proof.
  intros Hl Hn Hc. pose proof Hn as Hb. apply Nat.eqb_neq in Hb.
  destruct Hc as [(mode & ms & ks & fs & ->)
                 |[(s & mode & ->) | (wv & t & l & thrmode & ->)]]; simpl.
  - eapply highpass_not_2d; eauto.
  - unfold frame_filter_gaussian2d.
    rewrite (bind_ok _ _ _ _ _ (ndarray_ndim_ok _ _ _ Hl)).
    rewrite Hb; reflexivity.
  - unfold wavelet_denoise.
    rewrite (bind_ok _ _ _ _ _ (ndarray_ndim_ok _ _ _ Hl)).
    rewrite Hb; reflexivity.
Qed.

(** X16: with a valid [thrmode], [wavelet_denoise] decomposes the frame,
    thresholds every band of the decomposition (the approximation band
    included) with the same [threshold], one call per band and in order, and
    returns the reconstruction from the thresholded bands. *)
Theorem wavelet_denoise_pipeline w array o wv thr lv thrmode f WC NWC y :
  lookup w array = Some o -> obj_ndim o = 2%nat ->
  (thrmode = "hard"%string /\ f = ext_thresholding_hard) \/
  (thrmode = "soft"%string /\ f = ext_thresholding_soft) ->
  ext_wavedec2 o wv lv = Ok WC ->
  map_result (fun x => f x thr) WC = Ok NWC ->
  ext_waverec2 NWC wv = Ok y ->
  wavelet_denoise array wv thr lv thrmode w
  = (Ok (length (heap w)),
     mk_world (heap w ++ [y])
       (trace w ++ [PywtWavedec2]
        ++ repeat PywtThresholding (length WC) ++ [PywtWaverec2])) /\
  length NWC = length WC.
Proof.
  intros Hl Hn Hmode Hd Ht Hr. split.
  - rewrite (wavelet_denoise_2d_step _ _ _ _ _ _ _ _ Hl Hn Hd).
    assert (E : (if (thrmode =? "hard")%string then
                   map_M (fun x => pywt_thresholding_hard x thr) WC
                 else if (thrmode =? "soft")%string then
                   map_M (fun x => pywt_thresholding_soft x thr) WC
                 else raise thrmode_error)
                = map_M (fun x => emit PywtThresholding ;;; lift (f x thr)) WC).
    { destruct Hmode as [[-> ->]|[-> ->]]; reflexivity. }
    rewrite E.
    rewrite (bind_ok _ _ _ _ _ (map_M_thresholding_ok f thr WC NWC _ Ht)).
    cbn [heap trace]. unfold pywt_waverec2.
    erewrite bind_ok by (apply libcall0_ok; exact Hr).
    unfold ret; cbn [heap trace]. rewrite <- !app_assoc. reflexivity.
  - clear - Ht. revert NWC Ht.
    induction WC as [|x l IH]; intros NWC Ht; simpl in Ht.
    + injection Ht as <-; reflexivity.
    + destruct (f x thr); simpl in Ht; [|discriminate].
      destruct (map_result (fun x0 => f x0 thr) l) eqn:E; simpl in Ht;
        [|discriminate].
      injection Ht as <-. simpl. f_equal. apply IH. reflexivity.
Qed.

(** X17: an exception raised by the wavelet decomposition is the outcome of
    [wavelet_denoise] whatever [thrmode] is: an invalid [thrmode] is not
    reported when the decomposition fails, since it is tested afterwards. *)
Theorem wavelet_denoise_decomposition_error w array o wv thr lv thrmode e :
  lookup w array = Some o -> obj_ndim o = 2%nat ->
  ext_wavedec2 o wv lv = Raise e ->
  wavelet_denoise array wv thr lv thrmode w
  = (Raise e, mk_world (heap w) (trace w ++ [PywtWavedec2])).
Proof.
  intros Hl Hn Hd. unfold wavelet_denoise.
  rewrite (bind_ok _ _ _ _ _ (ndarray_ndim_ok _ _ _ Hl)).
  rewrite Hn. cbn [Nat.eqb negb].
  apply bind_raise. unfold pywt_wavedec2.
  rewrite (bind_ok _ _ _ _ _ (load_ok _ _ _ Hl)).
  unfold bind, emit, lift; simpl. rewrite Hd. reflexivity.
Qed.

End Branches.

(** X12, at the 2 x 2 frame [[1, 2], [3, 4]] with [fwhm_size = 5]. *)
Lemma highpass_gauss_subt_witness :
  exists w',
    frame_filter_highpass (ext := Toy.externals) 0%nat "gauss-subt"
      5%Z 5%Z 5 Toy.w22 = (Ok 2%nat, w').
Proof.
  destruct (proj1 (highpass_gauss_subt (ext := Toy.externals) Toy.w22 0%nat
                     (mk_ndarray [2%nat; 2%nat] [1; 2; 3; 4]) 2 2 5%Z 5%Z 5
                     eq_refl eq_refl) _ eq_refl eq_refl)
    as (y & H1 & _).
  eexists; exact H1.
Defined.

(** X13, at the 2 x 2 frame [[1, 2], [3, 4]] with [kernel_size = 3]. *)
Lemma highpass_kernel_conv_witness :
  fst (frame_filter_highpass (ext := Toy.externals) 0%nat "kernel-conv"
         5%Z 3%Z 5 Toy.w22) = Ok 3%nat.
Proof.
  destruct (highpass_kernel_conv (ext := Toy.externals) Toy.w22 0%nat
              Toy.frame22 5%Z 3%Z 5 eq_refl eq_refl (or_introl eq_refl))
    as (H & _).
  rewrite H. reflexivity.
Defined.

(** X14, at the 2 x 2 frame [[1, 2], [3, 4]] with [size_fwhm = 3]. *)
Lemma gaussian2d_convfft_witness :
  fst (frame_filter_gaussian2d (ext := Toy.externals) 0%nat 3 "convfft"
         Toy.w22) = Ok 2%nat.
Proof.
  rewrite (gaussian2d_convfft (ext := Toy.externals) Toy.w22 0%nat
             Toy.frame22 3 eq_refl eq_refl).
  reflexivity.
Defined.

(** X15, at a 1-D array and the Gaussian filter with mode ['bogus']. *)
Lemma shape_validation_is_uniform_witness :
  run_call (ext := Toy.externals) (CallGaussian2d 0%nat 3 "bogus") Toy.wvec
  = (Raise shape_error, Toy.wvec).
Proof.
  apply (shape_validation_is_uniform (ext := Toy.externals) Toy.wvec 0%nat
           Toy.vector3 (CallGaussian2d 0%nat 3 "bogus") eq_refl).
  - simpl; discriminate.
  - right; left. exists 3, "bogus"%string. reflexivity.
Defined.

(** X16, at the 2 x 2 frame [[1, 2], [3, 4]], hard threshold 1, no level. *)
Lemma wavelet_denoise_pipeline_witness :
  exists w',
    wavelet_denoise (ext := Toy.externals) 0%nat tt 1 0%Z "hard" Toy.w22
    = (Ok 1%nat, w').
Proof.
  destruct (wavelet_denoise_pipeline (ext := Toy.externals) Toy.w22 0%nat
              Toy.frame22 tt 1 0%Z "hard"%string
              (@ext_thresholding_hard Toy.externals)
              [mk_ndarray [2%nat; 2%nat] [1; 2; 3; 4]]
              [amap (Toy.hard 1) (mk_ndarray [2%nat; 2%nat] [1; 2; 3; 4])]
              (ArrR (amap (Toy.hard 1)
                       (mk_ndarray [2%nat; 2%nat] [1; 2; 3; 4])))
              eq_refl eq_refl (or_introl (conj eq_refl eq_refl))
              eq_refl eq_refl eq_refl) as (H & _).
  eexists; exact H.
Defined.

(** X17, at a complex 2 x 2 frame, which the toy decomposition rejects, and
    [thrmode = 'bogus']. *)
Lemma wavelet_denoise_decomposition_error_witness :
  let z := ArrC (mk_ndarray [2%nat; 2%nat] [C0; C1; C1; C0]) in
  fst (wavelet_denoise (ext := Toy.externals) 0%nat tt 1 0%Z "bogus"
         (mk_world [z] []))
  = Raise (TypeError "complex data").
Proof.
  intros z.
  rewrite (wavelet_denoise_decomposition_error (ext := Toy.externals)
             (mk_world [z] []) 0%nat z tt 1 0%Z "bogus"%string
             (TypeError "complex data") eq_refl eq_refl eq_refl).
  reflexivity.
Defined.
